(** * fslab: a block-structured file system core (fs.c)

    A shallow embedding of the inode store, the bitmap allocator, the
    read-only block mapper, the directory scan, the path resolver and the
    FUSE-facing operations of [fs.c], together with the properties the
    specification states about them.

    Conventions.
    - C integers are mathematical integers ([Z]); every conversion the C
      code performs (to [int], to [uint32_t], to [size_t]) is written out,
      for an LP64 platform with two's complement [int].
    - A block is a list of bytes; the device is a function from block
      numbers to blocks, guarded by the device's range check.
    - Every function runs in the monad [M]: it takes the file-system state
      (the global superblock variable [sb] and the device) and either
      returns a value together with the new state, or is [Undefined] where
      the C program reads an uninitialised buffer or indexes outside one. *)

From Stdlib Require Import ZArith List Lia Bool.
From coqutil Require Import Byte Word.LittleEndianList Datatypes.List.
Import ListNotations.
Local Open Scope Z_scope.

(** ** C integer conversions *)

Module C.

(** Conversion to [uint32_t]. *)
Definition to_u32 (x : Z) : Z := x mod 2 ^ 32.

(** Conversion to [size_t] (64 bits). *)
Definition to_size_t (x : Z) : Z := x mod 2 ^ 64.

(** Conversion to [int]: the low 32 bits, read as two's complement. *)
Definition to_int (x : Z) : Z := (x + 2 ^ 31) mod 2 ^ 32 - 2 ^ 31.

(** The values of type [int]. *)
Definition is_int (x : Z) : Prop := - 2 ^ 31 <= x < 2 ^ 31.

(** A [char] promoted to [int]; [char] is signed. *)
Definition char_val (b : byte) : Z :=
  let u := byte.unsigned b in if u <? 128 then u else u - 256.

End C.

(** ** Constants of fs.c *)

Definition MAX_FILENAME_LEN : Z := 24.
Definition INODE_COUNT : Z := 32768.
Definition DIRECT_POINTERS : Z := 12.
Definition INDIRECT_POINTERS : Z := 2.

(** [sizeof(inode_t)]: nineteen [uint32_t] fields. *)
Definition INODE_SIZE : Z := 76.

(** [sizeof(dir_entry_t)]: [char name[26]], two bytes of padding, then
    [uint32_t inode_num] at offset 28. *)
Definition DIR_ENTRY_SIZE : Z := 32.
Definition DIR_NAME_SIZE : Z := 26.
Definition DIR_INODE_OFFSET : Z := 28.

(** [sizeof(struct superblock)]: five [int] fields. *)
Definition SUPERBLOCK_SIZE : Z := 20.

Definition SUPERBLOCK_BLOCK : Z := 0.
Definition INODE_BITMAP_BLOCK : Z := 1.
Definition DATA_BITMAP_START_BLOCK : Z := 2.
Definition INODE_TABLE_START_BLOCK : Z := 4.

(** File type bits of [<sys/stat.h>] and the two modes of fs.c. *)
Definition S_IFMT : Z := 61440.
Definition S_IFDIR : Z := 16384.
Definition S_IFREG : Z := 32768.
Definition DIRMODE : Z := Z.lor S_IFDIR 493.
Definition REGMODE : Z := Z.lor S_IFREG 420.
Definition S_ISDIR (mode : Z) : bool := Z.land mode S_IFMT =? S_IFDIR.

(** Error numbers of [<errno.h>]. *)
Definition ENOENT : Z := 2.
Definition EFBIG : Z := 27.
Definition ENOSPC : Z := 28.
Definition ENAMETOOLONG : Z := 36.

(** ** Data structures *)

Definition block : Type := list byte.

Record inode : Type := mkInode {
  size : Z;
  atime : Z;
  mtime : Z;
  ctime : Z;
  mode : Z;
  direct_block_pointer : list Z;
  indirect_block_pointer : list Z
}.

Record superblock : Type := mkSuperblock {
  num_inodes : Z;
  num_data_blocks : Z;
  inode_table_blocks : Z;
  data_bitmap_blocks : Z;
  data_blocks_start : Z
}.

(** The state a call runs in: the global variable [sb] and the device. *)
Record fs : Type := mkFs {
  sb : superblock;
  disk : Z -> block
}.

Definition set_disk (s : fs) (d : Z -> block) : fs := mkFs (sb s) d.
Definition set_sb (s : fs) (b : superblock) : fs := mkFs b (disk s).

(** A status code together with the value stored through an out pointer:
    [Ok a] is status 0 with [a] stored, [Err c] is the nonzero status [c]
    with the out parameter untouched. *)
Inductive result (A : Type) : Type :=
| Ok (a : A)
| Err (code : Z).
Arguments Ok {A} a.
Arguments Err {A} code.

(** What a call does: it returns, or the C program has no defined
    behaviour. *)
Inductive outcome (A : Type) : Type :=
| Returns (a : A) (s : fs)
| Undefined.
Arguments Returns {A} a s.
Arguments Undefined {A}.

Definition M (A : Type) : Type := fs -> outcome A.

Definition ret {A} (a : A) : M A := fun s => Returns a s.

Definition bind {A B} (m : M A) (k : A -> M B) : M B :=
  fun s => match m s with
           | Returns a s' => k a s'
           | Undefined => Undefined
           end.

Definition undefined {A} : M A := fun _ => Undefined.

Declare Scope fs_scope.
Delimit Scope fs_scope with fs.
Notation "x <- m ;; k" := (bind m (fun x => k))
  (at level 61, m at next level, right associativity) : fs_scope.
Notation "m ;;; k" := (bind m (fun _ => k))
  (at level 61, right associativity) : fs_scope.
Local Open Scope fs_scope.

(** ** Bytes, words and buffers *)

Definition lift {A} (o : option A) : M A :=
  match o with
  | Some a => ret a
  | None => undefined
  end.

Definition len (buf : list byte) : Z := Z.of_nat (length buf).

Definition zero_byte : byte := Byte.x00.

(** [memset(buf, 0, n)] on a buffer of [n] bytes. *)
Definition zero_buffer (n : Z) : list byte := repeat zero_byte (Z.to_nat n).

(** [buf[i]]; [None] outside the buffer. *)
Definition get_byte (buf : list byte) (i : Z) : option byte :=
  if (0 <=? i) && (i <? len buf) then nth_error buf (Z.to_nat i) else None.

(** [buf[i] = v]; [None] outside the buffer. *)
Definition put_byte (buf : list byte) (i : Z) (v : byte) : option (list byte) :=
  if (0 <=? i) && (i <? len buf) then Some (List.upd buf (Z.to_nat i) v) else None.

(** [memcpy(buf + off, src, sizeof src)]; [None] outside the buffer. *)
Definition memcpy_to (buf : list byte) (off : Z) (src : list byte)
  : option (list byte) :=
  if (0 <=? off) && (off + len src <=? len buf)
  then Some (List.upds buf (Z.to_nat off) src) else None.

(** The [n] bytes at [buf + off]; [None] outside the buffer. *)
Definition bytes_at (buf : list byte) (off n : Z) : option (list byte) :=
  if (0 <=? off) && (0 <=? n) && (off + n <=? len buf)
  then Some (firstn (Z.to_nat n) (skipn (Z.to_nat off) buf)) else None.

(** A little-endian 32-bit object at [buf + off]. *)
Definition load32 (buf : list byte) (off : Z) : option Z :=
  option_map le_combine (bytes_at buf off 4).

Definition store32 (v : Z) : list byte := le_split 4 v.

(** The first [n] 32-bit words of a byte sequence. *)
Fixpoint words_of (n : nat) (bs : list byte) : list Z :=
  match n with
  | O => []
  | S n' => le_combine (firstn 4 bs) :: words_of n' (skipn 4 bs)
  end.

(** An array of exactly [n] words: the C arrays have a fixed length. *)
Definition fixed (n : nat) (a : list Z) : list Z := firstn n (a ++ repeat 0 n).

(** [a[i]] for an index inside the array. *)
Definition array_get (a : list Z) (i : Z) : Z := nth (Z.to_nat i) a 0.

(** The object representation of [inode_t]: nineteen words, in field
    order. *)
Definition inode_words (ino : inode) : list Z :=
  [size ino; atime ino; mtime ino; ctime ino; mode ino]
    ++ fixed 12 (direct_block_pointer ino)
    ++ fixed 2 (indirect_block_pointer ino).

Definition encode_inode (ino : inode) : list byte :=
  flat_map store32 (inode_words ino).

Definition decode_inode (bs : list byte) : inode :=
  let w := words_of 19 bs in
  mkInode (nth 0 w 0) (nth 1 w 0) (nth 2 w 0) (nth 3 w 0) (nth 4 w 0)
          (firstn 12 (skipn 5 w)) (skipn 17 w).

(** The object representation of [struct superblock]. *)
Definition encode_sb (b : superblock) : list byte :=
  flat_map store32
    [num_inodes b; num_data_blocks b; inode_table_blocks b;
     data_bitmap_blocks b; data_blocks_start b].

Definition decode_sb (bs : list byte) : superblock :=
  let w := map C.to_int (words_of 5 bs) in
  mkSuperblock (nth 0 w 0) (nth 1 w 0) (nth 2 w 0) (nth 3 w 0) (nth 4 w 0).

(** Bit [i] of a bitmap buffer, as the allocator numbers bits: bit
    [i mod 8] of byte [i / 8]; a bit outside the buffer counts as clear. *)
Definition bitmap_bit (bitmap : list byte) (i : Z) : bool :=
  match get_byte bitmap (i / 8) with
  | Some b => Z.testbit (byte.unsigned b) (i mod 8)
  | None => false
  end.

(** [update_timestamp]: [now] is the [tv_sec] that [clock_gettime]
    delivers. *)
Definition update_timestamp (now : Z) (ino : inode) (access modify change : bool)
  : inode :=
  mkInode (size ino)
          (if access then C.to_u32 now else atime ino)
          (if modify then C.to_u32 now else mtime ino)
          (if change then C.to_u32 now else ctime ino)
          (mode ino) (direct_block_pointer ino) (indirect_block_pointer ino).

(** [memset(&inode, 0, sizeof(inode_t))]. *)
Definition zero_inode : inode := mkInode 0 0 0 0 0 (repeat 0 12) (repeat 0 2).

(** The constants of the block device header, which is not part of the
    sources at hand: the number of bytes in a block and the number of blocks
    on the device, both positive [int] constants. *)
Class Device : Type := {
  BLOCK_SIZE : Z;
  BLOCK_NUM : Z
}.

Section FS.

Context {dev : Device}.

(** ** The block device *)

(** A buffer of exactly [BLOCK_SIZE] bytes. *)
Definition fit (buf : list byte) : block :=
  firstn (Z.to_nat BLOCK_SIZE) (buf ++ zero_buffer BLOCK_SIZE).

Definition zero_block : block := zero_buffer BLOCK_SIZE.

(** Modelled from the spec: the block device adapter ([disk_read],
    [disk_write]) is an external collaborator whose code is missing.  The
    spec numbers the blocks [0..BLOCK_NUM) and has both calls exchange one
    block of [BLOCK_SIZE] bytes and return 0 on success, nonzero on failure;
    here a call fails exactly when the block number is not on the device.
    [None] stands for the nonzero status, which leaves the buffer (for a
    read) or the device (for a write) as it was. *)
Definition on_device (block_no : Z) : bool :=
  (0 <=? block_no) && (block_no <? BLOCK_NUM).

Definition disk_read (d : Z -> block) (block_no : Z) : option block :=
  if on_device block_no then Some (fit (d block_no)) else None.

Definition disk_write (d : Z -> block) (block_no : Z) (buf : block)
  : option (Z -> block) :=
  if on_device block_no
  then Some (fun n => if n =? block_no then fit buf else d n)
  else None.

(** [disk_read(block_no, buf)] as a step of a call. *)
Definition read_block (block_no : Z) : M (option block) :=
  fun s => Returns (disk_read (disk s) block_no) s.

(** [disk_write(block_no, buf)] as a step of a call; the value is the
    status. *)
Definition write_block (block_no : Z) (buf : block) : M Z :=
  fun s => match disk_write (disk s) block_no buf with
           | Some d => Returns 0 (set_disk s d)
           | None => Returns 1 s
           end.

(** ** Inode store *)

Definition INODES_PER_BLOCK : Z := BLOCK_SIZE / INODE_SIZE.
Definition ENTRIES_PER_BLOCK : Z := BLOCK_SIZE / DIR_ENTRY_SIZE.
Definition POINTERS_PER_BLOCK : Z := BLOCK_SIZE / 4.
Definition MAX_FILE_SIZE : Z :=
  (DIRECT_POINTERS + INDIRECT_POINTERS * POINTERS_PER_BLOCK) * BLOCK_SIZE.

(** [INODE_TABLE_START_BLOCK + inode_num / INODES_PER_BLOCK], stored in an
    [int].  [INODES_PER_BLOCK] has type [size_t], so [inode_num] is
    converted to [size_t] before the division; a block smaller than an inode
    would make the divisor zero. *)
Definition inode_block_num (inode_num : Z) : Z :=
  C.to_int (C.to_size_t
    (INODE_TABLE_START_BLOCK + C.to_size_t inode_num / INODES_PER_BLOCK)).

(** [inode_num % INODES_PER_BLOCK], stored in an [int]. *)
Definition inode_offset_in_block (inode_num : Z) : Z :=
  C.to_int (C.to_size_t inode_num mod INODES_PER_BLOCK).

Definition read_inode (inode_num : Z) : M (result inode) :=
  if inode_num >=? INODE_COUNT then ret (Err (-1))
  else if INODES_PER_BLOCK =? 0 then undefined
  else
    let block_num := inode_block_num inode_num in
    let offset_in_block := inode_offset_in_block inode_num in
    o <- read_block block_num ;;
    match o with
    | None => ret (Err (-1))
    | Some blk =>
        bs <- lift (bytes_at blk (C.to_size_t (offset_in_block * INODE_SIZE))
                             INODE_SIZE) ;;
        ret (Ok (decode_inode bs))
    end.

Definition write_inode (inode_num : Z) (ino : inode) : M Z :=
  if inode_num >=? INODE_COUNT then ret (-1)
  else if INODES_PER_BLOCK =? 0 then undefined
  else
    let block_num := inode_block_num inode_num in
    let offset_in_block := inode_offset_in_block inode_num in
    o <- read_block block_num ;;
    match o with
    | None => ret (-1)
    | Some blk =>
        blk' <- lift (memcpy_to blk (C.to_size_t (offset_in_block * INODE_SIZE))
                                (encode_inode ino)) ;;
        st <- write_block block_num blk' ;;
        if st =? 0 then ret 0 else ret (-1)
    end.

(** ** Bitmap allocator *)

(** The loop of [alloc_inode]: [count] iterations remain, [i] is the loop
    variable. *)
Fixpoint alloc_inode_loop (count : nat) (i : Z) (bitmap : block) : M Z :=
  match count with
  | O => ret (- ENOSPC)
  | S count' =>
      b <- lift (get_byte bitmap (Z.quot i 8)) ;;
      if Z.land (Z.shiftr (C.char_val b) (Z.rem i 8)) 1 =? 0
      then
        let b' := byte.of_Z (Z.lor (C.char_val b) (Z.shiftl 1 (Z.rem i 8))) in
        bitmap' <- lift (put_byte bitmap (Z.quot i 8) b') ;;
        write_block INODE_BITMAP_BLOCK bitmap' ;;;
        ret i
      else alloc_inode_loop count' (i + 1) bitmap
  end.

(** [alloc_inode] ignores the status of [disk_read]: when the read fails
    the scan runs over an uninitialised buffer. *)
Definition alloc_inode : M Z :=
  o <- read_block INODE_BITMAP_BLOCK ;;
  bitmap <- lift o ;;
  n <- (fun s => Returns (num_inodes (sb s)) s) ;;
  alloc_inode_loop (Z.to_nat n) 0 bitmap.

(** [free_inode]: a negative [inode_num] shifts by a negative count or
    indexes in front of the buffer. *)
Definition free_inode (inode_num : Z) : M unit :=
  o <- read_block INODE_BITMAP_BLOCK ;;
  bitmap <- lift o ;;
  if inode_num <? 0 then undefined
  else
    b <- lift (get_byte bitmap (Z.quot inode_num 8)) ;;
    let b' := byte.of_Z (Z.land (C.char_val b)
                                (Z.lnot (Z.shiftl 1 (Z.rem inode_num 8)))) in
    bitmap' <- lift (put_byte bitmap (Z.quot inode_num 8) b') ;;
    write_block INODE_BITMAP_BLOCK bitmap' ;;;
    ret tt.

(** The state after [alloc_inode] has set bit [k] of the bitmap it read
    as [bitmap], whose byte [k / 8] was [b]. *)
Definition after_alloc (s : fs) (bitmap : block) (k : Z) (b : byte) : fs :=
  set_disk s
    (fun m => if m =? INODE_BITMAP_BLOCK
              then fit (List.upd bitmap (Z.to_nat (k / 8))
                          (byte.of_Z (Z.lor (C.char_val b) (Z.shiftl 1 (k mod 8)))))
              else disk s m).

(** ** Mount *)

(** [ceil_div] on [size_t] operands. *)
Definition ceil_div_size_t (a b : Z) : Z := C.to_size_t (a + b - 1) / b.

(** [ceil_div] on [unsigned int] operands. *)
Definition ceil_div_u32 (a b : Z) : Z := C.to_u32 (a + b - 1) / b.

(** The layout [fs_mount] computes when it formats. *)
Definition format_sb : superblock :=
  let n := INODE_COUNT in
  let itb := C.to_int (ceil_div_size_t (C.to_size_t (C.to_size_t n * INODE_SIZE))
                                       BLOCK_SIZE) in
  let start := C.to_int (INODE_TABLE_START_BLOCK + itb) in
  mkSuperblock n (C.to_int (BLOCK_NUM - start)) itb 2 start.

(** The loop that clears the bitmaps and the inode table: [count]
    iterations remain, [i] is the loop variable; the status of each write is
    ignored. *)
Fixpoint zero_blocks (count : nat) (i : Z) (blk : block) : M unit :=
  match count with
  | O => ret tt
  | S count' => write_block i blk ;;; zero_blocks count' (i + 1) blk
  end.

Definition root_inode (now : Z) : inode :=
  let ino := mkInode 0 0 0 0 DIRMODE (repeat 0 12) (repeat 0 2) in
  update_timestamp now ino true true true.

(** [fs_mount].  The statuses of the device calls and of [write_inode] are
    ignored, as in the source.  When loading, [disk_read] stores a whole
    block through [&sb], an object of [SUPERBLOCK_SIZE] bytes. *)
Definition fs_mount (now : Z) (init_flag : Z) : M Z :=
  if init_flag =? 0 then
    o <- read_block SUPERBLOCK_BLOCK ;;
    match o with
    | None => ret 0
    | Some blk =>
        if SUPERBLOCK_SIZE <? BLOCK_SIZE then undefined
        else (fun s => Returns 0 (set_sb s (decode_sb blk)))
    end
  else
    (fun s => Returns tt (set_sb s format_sb)) ;;;
    block <- lift (memcpy_to zero_block 0 (encode_sb format_sb)) ;;
    write_block SUPERBLOCK_BLOCK block ;;;
    zero_blocks (Z.to_nat (data_blocks_start format_sb - INODE_BITMAP_BLOCK))
                INODE_BITMAP_BLOCK zero_block ;;;
    root_inode_num <- alloc_inode ;;
    if negb (root_inode_num =? 0) then ret (-1)
    else
      write_inode root_inode_num (root_inode now) ;;;
      ret 0.

(** ** Block mapper (read-only path) *)

(** [get_directory_block_addr].  [block_index] is a [uint32_t]; a block
    size under four bytes would make [pointers_per_block] zero and the
    division undefined. *)
Definition get_directory_block_addr (dir_inode : inode) (block_index : Z) : M Z :=
  if block_index <? DIRECT_POINTERS
  then ret (array_get (direct_block_pointer dir_inode) block_index)
  else
    let block_index := C.to_u32 (block_index - DIRECT_POINTERS) in
    let pointers_per_block := C.to_u32 (BLOCK_SIZE / 4) in
    if pointers_per_block =? 0 then undefined
    else
      let indirect_group := block_index / pointers_per_block in
      let indirect_offset := block_index mod pointers_per_block in
      if indirect_group <? 2 then
        let indirect_block_addr :=
          array_get (indirect_block_pointer dir_inode) indirect_group in
        if indirect_block_addr =? 0 then ret 0
        else
          o <- read_block (C.to_int indirect_block_addr) ;;
          match o with
          | None => ret 0
          | Some pointers => lift (load32 pointers (4 * indirect_offset))
          end
      else ret 0.

(** ** Directory layer *)

(** [strcmp(mem, name) == 0], where [mem] is the memory from the first byte
    compared to the end of the buffer it lies in and [name] is a C string
    given without its terminator.  [None]: the comparison runs off the
    buffer. *)
Fixpoint strcmp_eq (mem : list byte) (name : list byte) : option bool :=
  match name, mem with
  | [], m :: _ => Some (Byte.eqb m zero_byte)
  | c :: name', m :: mem' =>
      if Byte.eqb m c then strcmp_eq mem' name' else Some false
  | _, [] => None
  end.

(** The C string that starts at the first byte of [mem], without its
    terminator.  [None]: no terminator inside the buffer. *)
Fixpoint cstring_at (mem : list byte) : option (list byte) :=
  match mem with
  | [] => None
  | m :: mem' =>
      if Byte.eqb m zero_byte then Some []
      else option_map (cons m) (cstring_at mem')
  end.

(** The memory from [entries[j].name] on. *)
Definition entry_name_mem (entries : block) (j : Z) : list byte :=
  skipn (Z.to_nat (DIR_ENTRY_SIZE * j)) entries.

(** [entries[j].inode_num]. *)
Definition entry_inode_num (entries : block) (j : Z) : option Z :=
  load32 entries (DIR_ENTRY_SIZE * j + DIR_INODE_OFFSET).

(** The inner loop of [find_entry_in_directory]: [Some (Some n)] when slot
    [j] or a later one matches, [Some None] when the loop runs out. *)
Fixpoint find_entry_slots (count : nat) (j : Z) (dir_block : block)
  (name : list byte) : option (option Z) :=
  match count with
  | O => Some None
  | S count' =>
      match entry_inode_num dir_block j with
      | None => None
      | Some n =>
          if n =? 0 then find_entry_slots count' (j + 1) dir_block name
          else
            match strcmp_eq (entry_name_mem dir_block j) name with
            | None => None
            | Some true => Some (Some n)
            | Some false => find_entry_slots count' (j + 1) dir_block name
            end
      end
  end.

(** The outer loop of [find_entry_in_directory]. *)
Fixpoint find_entry_blocks (count : nat) (i : Z) (dir_inode : inode)
  (name : list byte) : M (result Z) :=
  match count with
  | O => ret (Err (-1))
  | S count' =>
      block_addr <- get_directory_block_addr dir_inode i ;;
      if block_addr =? 0
      then find_entry_blocks count' (i + 1) dir_inode name
      else
        o <- read_block (C.to_int block_addr) ;;
        match o with
        | None => find_entry_blocks count' (i + 1) dir_inode name
        | Some dir_block =>
            r <- lift (find_entry_slots (Z.to_nat ENTRIES_PER_BLOCK) 0
                                        dir_block name) ;;
            match r with
            | Some n => ret (Ok n)
            | None => find_entry_blocks count' (i + 1) dir_inode name
            end
        end
  end.

Definition find_entry_in_directory (dir_inode : inode) (name : list byte)
  : M (result Z) :=
  if negb (S_ISDIR (mode dir_inode)) then ret (Err (-1))
  else
    let num_blocks_to_check := ceil_div_u32 (size dir_inode) BLOCK_SIZE in
    find_entry_blocks (Z.to_nat num_blocks_to_check) 0 dir_inode name.

(** ** Path resolver *)

Definition slash : byte := Byte.x2f.

(** The tokens [strtok_r] cuts out of a string with the delimiter ["/"]:
    the maximal runs of other bytes.  [cur] is the run being read, in
    reverse. *)
Fixpoint tokens_from (cur : list byte) (str : list byte) : list (list byte) :=
  match str with
  | [] => match cur with [] => [] | _ => [rev cur] end
  | c :: str' =>
      if Byte.eqb c slash
      then match cur with
           | [] => tokens_from [] str'
           | _ => rev cur :: tokens_from [] str'
           end
      else tokens_from (c :: cur) str'
  end.

Definition tokens (str : list byte) : list (list byte) := tokens_from [] str.

(** The [while] loop of [find_inode_by_path] over the remaining tokens. *)
Fixpoint walk (toks : list (list byte)) (current_ino : Z) : M (result Z) :=
  match toks with
  | [] => ret (Ok current_ino)
  | token :: toks' =>
      r <- read_inode (C.to_int current_ino) ;;
      match r with
      | Err _ => ret (Err (-1))
      | Ok current_inode =>
          r' <- find_entry_in_directory current_inode token ;;
          match r' with
          | Err _ => ret (Err (-1))
          | Ok n => walk toks' n
          end
      end
  end.

(** [find_inode_by_path]; [path] is a C string given without its
    terminator. *)
Definition find_inode_by_path (path : list byte) : M (result Z) :=
  match path with
  | [] => ret (Err (-1))
  | c :: rest =>
      if negb (Byte.eqb c slash) then ret (Err (-1))
      else
        match rest with
        | [] => ret (Ok 0)
        | _ => walk (tokens rest) 0
        end
  end.

(** ** Operations *)

Record stat : Type := mkStat {
  st_mode : Z;
  st_nlink : Z;
  st_uid : Z;
  st_gid : Z;
  st_size : Z;
  st_atim : Z;
  st_mtim : Z;
  st_ctim : Z;
  st_blksize : Z;
  st_blocks : Z
}.

Record statvfs : Type := mkStatvfs {
  f_bsize : Z;
  f_blocks : Z;
  f_bfree : Z;
  f_bavail : Z;
  f_files : Z;
  f_ffree : Z;
  f_favail : Z;
  f_namemax : Z
}.

(** [fs_getattr]; [uid] and [gid] are what [getuid] and [getgid] return. *)
Definition fs_getattr (uid gid : Z) (path : list byte) : M (result stat) :=
  r <- find_inode_by_path path ;;
  match r with
  | Err _ => ret (Err (- ENOENT))
  | Ok inode_index =>
      r' <- read_inode (C.to_int inode_index) ;;
      match r' with
      | Err _ => ret (Err (- ENOENT))
      | Ok target =>
          ret (Ok (mkStat (mode target) 1 uid gid (size target)
                          (atime target) (mtime target) (ctime target)
                          BLOCK_SIZE
                          (C.to_u32 (size target + 511) / 512)))
      end
  end.

Section Readdir.

(** The directory filler of the host: it adds a name to the host's buffer
    and returns nonzero when the buffer is full. *)
Context {B : Type} (filler : B -> list byte -> B * Z).

(** The inner loop of [fs_readdir]; the flag tells that the filler
    signalled a full buffer and the function returned from inside the
    loop. *)
Fixpoint readdir_slots (count : nat) (j : Z) (entries : block) (buffer : B)
  : option (B * bool) :=
  match count with
  | O => Some (buffer, false)
  | S count' =>
      match entry_inode_num entries j with
      | None => None
      | Some n =>
          if n =? 0 then readdir_slots count' (j + 1) entries buffer
          else
            match cstring_at (entry_name_mem entries j) with
            | None => None
            | Some name =>
                let (buffer', full) := filler buffer name in
                if full =? 0
                then readdir_slots count' (j + 1) entries buffer'
                else Some (buffer', true)
            end
      end
  end.

(** The outer loop of [fs_readdir]. *)
Fixpoint readdir_blocks (count : nat) (i : Z) (dir_inode : inode) (buffer : B)
  : M (B * bool) :=
  match count with
  | O => ret (buffer, false)
  | S count' =>
      block_addr <- get_directory_block_addr dir_inode i ;;
      if block_addr =? 0
      then readdir_blocks count' (i + 1) dir_inode buffer
      else
        o <- read_block (C.to_int block_addr) ;;
        match o with
        | None => readdir_blocks count' (i + 1) dir_inode buffer
        | Some entries =>
            r <- lift (readdir_slots (Z.to_nat ENTRIES_PER_BLOCK) 0
                                     entries buffer) ;;
            if snd r then ret r
            else readdir_blocks count' (i + 1) dir_inode (fst r)
        end
  end.

Definition dot : list byte := [Byte.x2e].
Definition dotdot : list byte := [Byte.x2e; Byte.x2e].

(** [fs_readdir]: the value is the status and the host's buffer. *)
Definition fs_readdir (now : Z) (path : list byte) (buffer : B) : M (Z * B) :=
  r <- find_inode_by_path path ;;
  match r with
  | Err _ => ret (- ENOENT, buffer)
  | Ok inode_num =>
      r' <- read_inode (C.to_int inode_num) ;;
      match r' with
      | Err _ => ret (- ENOENT, buffer)
      | Ok dir_inode =>
          if negb (S_ISDIR (mode dir_inode)) then ret (- ENOENT, buffer)
          else
            let buffer := fst (filler buffer dot) in
            let buffer := fst (filler buffer dotdot) in
            let num_blocks_to_check :=
              ceil_div_u32 (size dir_inode) BLOCK_SIZE in
            r'' <- readdir_blocks (Z.to_nat num_blocks_to_check) 0
                                  dir_inode buffer ;;
            if snd r'' then ret (0, fst r'')
            else
              write_inode (C.to_int inode_num)
                          (update_timestamp now dir_inode true false false) ;;;
              ret (0, fst r'')
      end
  end.

End Readdir.

(** [fs_read]: the value is the status and the caller's buffer. *)
Definition fs_read (path : list byte) (buffer : list byte) (size offset : Z)
  : M (Z * list byte) :=
  ret (0, buffer).

Definition fs_write (path : list byte) (buffer : list byte) (size offset : Z)
  : M Z :=
  ret 0.

Definition fs_statfs (path : list byte) : M (result statvfs) :=
  ret (Ok (mkStatvfs 0 0 0 0 0 0 0 0)).

(** The operations the source leaves as stubs: each logs its arguments and
    returns 0. *)
Definition fs_mknod (path : list byte) : M Z := ret 0.
Definition fs_mkdir (path : list byte) : M Z := ret 0.
Definition fs_unlink (path : list byte) : M Z := ret 0.
Definition fs_rmdir (path : list byte) : M Z := ret 0.
Definition fs_rename (oldpath newpath : list byte) : M Z := ret 0.
Definition fs_truncate (path : list byte) (new_size : Z) : M Z := ret 0.
Definition fs_utimens (path : list byte) (new_atime new_mtime : Z) : M Z := ret 0.
Definition fs_open (path : list byte) : M Z := ret 0.
Definition fs_release (path : list byte) : M Z := ret 0.
Definition fs_opendir (path : list byte) : M Z := ret 0.
Definition fs_releasedir (path : list byte) : M Z := ret 0.
Definition fs_finalize (fuse_status : Z) : M Z := ret fuse_status.

(** [free_all_data_blocks] has an empty body. *)
Definition free_all_data_blocks (ino : inode) : M unit := ret tt.

End FS.

(** The inodes whose fields are [uint32_t] values and whose pointer arrays
    have the lengths of the C arrays. *)
Definition is_u32 (x : Z) : Prop := 0 <= x < 2 ^ 32.

Definition wf_inode (ino : inode) : Prop :=
  is_u32 (size ino) /\ is_u32 (atime ino) /\ is_u32 (mtime ino) /\
  is_u32 (ctime ino) /\ is_u32 (mode ino) /\
  length (direct_block_pointer ino) = 12%nat /\
  length (indirect_block_pointer ino) = 2%nat /\
  Forall is_u32 (direct_block_pointer ino) /\
  Forall is_u32 (indirect_block_pointer ino).

(** The value a call returns, if it returns. *)
Definition value {A} (o : outcome A) : option A :=
  match o with
  | Returns a _ => Some a
  | Undefined => None
  end.

(** A call that reads only: it is undefined, or it returns a value that
    satisfies [P] and leaves the state as it was. *)
Definition reads_only {A} (m : M A) (P : A -> Prop) : Prop :=
  forall s, m s = Undefined \/ exists a, m s = Returns a s /\ P a.

(** A call that reads only and is defined: it returns a value that
    satisfies [P] and leaves the state as it was. *)
Definition returns {A} (m : M A) (P : A -> Prop) : Prop :=
  forall s, exists a, m s = Returns a s /\ P a.

(** The statuses of the path resolver: 0 with an inode number, or -1. *)
Definition resolver_status (r : result Z) : Prop :=
  r = Err (-1) \/ exists n, r = Ok n.

(** An absolute path one of whose components is longer than
    [MAX_FILENAME_LEN]. *)
Definition has_long_component (path : list byte) : Prop :=
  exists c rest token,
    path = c :: rest /\ In token (tokens rest) /\ MAX_FILENAME_LEN < len token.

(** A host buffer that takes [cap] names and then reports that it is
    full. *)
Definition capped_filler (cap : nat) (buffer : list (list byte)) (name : list byte)
  : list (list byte) * Z :=
  if (length buffer <? cap)%nat then (buffer ++ [name], 0) else (buffer, 1).

(** ** The host

    The table [fs_operations] hands the operations to the host, which calls
    them one at a time.  A request names the operation and its arguments;
    for [readdir] the host's filler is [capped_filler] and [now] is the
    clock at the call. *)

Inductive request : Type :=
| Getattr (uid gid : Z) (path : list byte)
| Readdir (now : Z) (cap : nat) (path : list byte)
| Read (path buffer : list byte) (count offset : Z)
| Mkdir (path : list byte)
| Rmdir (path : list byte)
| Unlink (path : list byte)
| Rename (oldpath newpath : list byte)
| Truncate (path : list byte) (new_size : Z)
| Utimens (path : list byte) (new_atime new_mtime : Z)
| Mknod (path : list byte)
| Write (path buffer : list byte) (count offset : Z)
| Statfs (path : list byte)
| Open (path : list byte)
| Release (path : list byte)
| Opendir (path : list byte)
| Releasedir (path : list byte).

(** The status a call hands back to the host. *)
Definition status {A} (r : result A) : Z :=
  match r with
  | Ok _ => 0
  | Err code => code
  end.

Section Host.

Context {dev : Device}.

Definition dispatch (req : request) : M Z :=
  match req with
  | Getattr uid gid path => r <- fs_getattr uid gid path ;; ret (status r)
  | Readdir now cap path =>
      r <- fs_readdir (capped_filler cap) now path [] ;; ret (fst r)
  | Read path buffer count offset =>
      r <- fs_read path buffer count offset ;; ret (fst r)
  | Mkdir path => fs_mkdir path
  | Rmdir path => fs_rmdir path
  | Unlink path => fs_unlink path
  | Rename oldpath newpath => fs_rename oldpath newpath
  | Truncate path new_size => fs_truncate path new_size
  | Utimens path new_atime new_mtime => fs_utimens path new_atime new_mtime
  | Mknod path => fs_mknod path
  | Write path buffer count offset => fs_write path buffer count offset
  | Statfs path => r <- fs_statfs path ;; ret (status r)
  | Open path => fs_open path
  | Release path => fs_release path
  | Opendir path => fs_opendir path
  | Releasedir path => fs_releasedir path
  end.

(** The host serves a sequence of requests; the value is the list of their
    statuses. *)
Fixpoint serve (reqs : list request) : M (list Z) :=
  match reqs with
  | [] => ret []
  | req :: reqs' =>
      st <- dispatch req ;;
      sts <- serve reqs' ;;
      ret (st :: sts)
  end.

(** [k] calls of [alloc_inode] in a row; the value is the list of what
    they return. *)
Fixpoint alloc_inodes (k : nat) : M (list Z) :=
  match k with
  | O => ret []
  | S k' =>
      i <- alloc_inode ;;
      rest <- alloc_inodes k' ;;
      ret (i :: rest)
  end.

End Host.

(** The absolute path made of the given components, each after one
    separator. *)
Fixpoint join (components : list (list byte)) : list byte :=
  match components with
  | [] => []
  | c :: components' => slash :: c ++ join components'
  end.

(** A path component: not empty, without a separator. *)
Definition is_component (c : list byte) : Prop := c <> [] /\ ~ In slash c.

(** The numbers [a], [a + 1], ..., [a + k - 1]. *)
Definition zrange (a : Z) (k : nat) : list Z :=
  map (fun i => a + Z.of_nat i) (seq 0 k).

(** A bitmap whose set bits, among the first [n], are exactly the first
    [a]. *)
Definition first_bits_set (bitmap : list byte) (n a : Z) : Prop :=
  forall j, 0 <= j < n -> bitmap_bit bitmap j = (j <? a).

(** ** A sample image

    A device of 65536 blocks of 4096 bytes that holds a root directory with
    two entries: the regular file [a] of thirteen blocks (twelve direct
    blocks and one reached through the first index block), and an empty
    regular file whose name has 25 characters. *)

Definition lab : Device := Build_Device 4096 65536.

(** The name [a]. *)
Definition name_a : list byte := [Byte.x61].

(** The object representation of [dir_entry_t]. *)
Definition encode_entry (name : list byte) (inode_num : Z) : list byte :=
  firstn 28 (name ++ zero_buffer 28) ++ store32 inode_num.

Definition long_name : list byte := repeat Byte.x62 25.

Definition sample_root : inode :=
  mkInode 64 1000 1000 1000 DIRMODE (fixed 12 [612]) (repeat 0 2).

Definition sample_file : inode :=
  mkInode 53248 1000 1000 1000 REGMODE
          [613; 614; 615; 616; 617; 618; 619; 620; 621; 622; 623; 624]
          [625; 0].

Definition sample_long : inode :=
  mkInode 0 1000 1000 1000 REGMODE (repeat 0 12) (repeat 0 2).

Definition sample_disk : Z -> block :=
  fun n =>
    if n =? 0 then encode_sb (format_sb (dev := lab))
    else if n =? 1 then [Byte.x07]
    else if n =? 2 then [Byte.xff; Byte.x7f]
    else if n =? 4 then
      encode_inode sample_root ++ encode_inode sample_file
                   ++ encode_inode sample_long
    else if n =? 612 then
      encode_entry name_a 1 ++ encode_entry long_name 2
    else if n =? 625 then store32 626
    else [].

Definition sample_fs : fs := mkFs (format_sb (dev := lab)) sample_disk.

(** The paths [/a], [/] and the path of the file with the long name, and
    five bytes to write. *)
Definition path_a : list byte := [slash; Byte.x61].
Definition path_long : list byte := slash :: long_name.
Definition path_root : list byte := [slash].
Definition hello : list byte := [Byte.x68; Byte.x65; Byte.x6c; Byte.x6c; Byte.x6f].

(** The same device with every bit of the inode bitmap set. *)
Definition full_bitmap : block := repeat Byte.xff 4096.

Definition full_fs : fs :=
  mkFs (format_sb (dev := lab)) (fun n => if n =? 1 then full_bitmap else []).

(** ** Directories as tables

    What a directory holds, as the code reads it: each of its blocks is a
    table of 32-byte slots, a slot is a name and an inode number, and the
    number 0 marks a free slot. *)

Definition table : Type := list (list byte * Z).

Definition encode_table (t : table) : list byte :=
  flat_map (fun e => encode_entry (fst e) (snd e)) t.

Fixpoint name_eqb (a b : list byte) : bool :=
  match a, b with
  | [], [] => true
  | x :: a', y :: b' => Byte.eqb x y && name_eqb a' b'
  | _, _ => false
  end.

(** The number of the first slot in use that has the name. *)
Fixpoint lookup (name : list byte) (t : table) : option Z :=
  match t with
  | [] => None
  | e :: t' =>
      if negb (snd e =? 0) && name_eqb (fst e) name then Some (snd e)
      else lookup name t'
  end.

(** The names of the slots in use, in slot order. *)
Definition live_names (t : table) : list (list byte) :=
  map fst (filter (fun e => negb (snd e =? 0)) t).

(** A slot as the code expects it: the name is a C string that fits
    [name[26]] with its terminator, the number is a [uint32_t]. *)
Definition wf_entry (e : list byte * Z) : Prop :=
  ~ In zero_byte (fst e) /\ len (fst e) < DIR_NAME_SIZE /\ is_u32 (snd e).

(** The block [addr] of the device holds the table [t]. *)
Definition holds_table {dev : Device} (s : fs) (addr : Z) (t : table) : Prop :=
  addr <> 0 /\
  Z.of_nat (length t) <= ENTRIES_PER_BLOCK /\
  Forall wf_entry t /\
  disk_read (disk s) (C.to_int addr) = Some (fit (encode_table t)).

(** What [fs_readdir] does with a list of names: it hands them to the
    filler one by one and stops when the filler signals a full buffer. *)
Fixpoint feed {B : Type} (filler : B -> list byte -> B * Z)
  (names : list (list byte)) (buffer : B) : B * bool :=
  match names with
  | [] => (buffer, false)
  | name :: names' =>
      let (buffer', full) := filler buffer name in
      if full =? 0 then feed filler names' buffer' else (buffer', true)
  end.

(** A device of four blocks: it has the superblock and the bitmaps, and no
    room for the inode table. *)
Definition tiny : Device := Build_Device 4096 4.


(** The number of blocks in a list of block addresses. *)
Definition len_blocks (addrs : list Z) : Z := Z.of_nat (length addrs).

(** The blocks in front of the inode table: the superblock and the
    bitmaps. *)
Definition same_metadata {dev : Device} (s s' : fs) : Prop :=
  sb s' = sb s /\
  forall b, b < INODE_TABLE_START_BLOCK ->
            disk_read (disk s') b = disk_read (disk s) b.

(** ** More images and inputs

    A device of zeros under the layout of the format; the sample device
    right after a format at time 1000, whose only inode is the empty root
    directory; the root directory of the sample image as a table; a filler
    that is never full; and a sequence of host requests. *)

Definition blank_fs : fs := mkFs (format_sb (dev := lab)) (fun _ => []).

Definition fresh_fs : fs :=
  mkFs (format_sb (dev := lab))
       (fun n =>
          if n =? 0 then encode_sb (format_sb (dev := lab))
          else if n =? 1 then [Byte.x01]
          else if n =? 4 then encode_inode (root_inode 1000)
          else []).

Definition sample_table : table := [(name_a, 1); (long_name, 2)].

Definition names_filler (buffer : list (list byte)) (name : list byte)
  : list (list byte) * Z :=
  (buffer ++ [name], 0).

Definition sample_requests : list request :=
  [Getattr 0 0 path_a; Readdir 2000 10 path_root; Mkdir path_a;
   Write path_a hello 5 0; Statfs path_root; Unlink path_a].

(** * Properties *)

(** ** C conversions *)

Lemma to_int_small x : C.is_int x -> C.to_int x = x.
Proof.
  unfold C.is_int, C.to_int. intros H.
  rewrite Z.mod_small by lia. lia.
Qed.

Lemma to_size_t_small x : 0 <= x < 2 ^ 64 -> C.to_size_t x = x.
Proof. unfold C.to_size_t. intros H. now rewrite Z.mod_small. Qed.

Lemma to_u32_small x : 0 <= x < 2 ^ 32 -> C.to_u32 x = x.
Proof. unfold C.to_u32. intros H. now rewrite Z.mod_small. Qed.

Lemma to_size_t_neg x : - 2 ^ 64 <= x < 0 -> C.to_size_t x = x + 2 ^ 64.
Proof.
  unfold C.to_size_t. intros H. symmetry.
  apply (Z.mod_unique x (2 ^ 64) (-1) (x + 2 ^ 64)); lia.
Qed.

(** ** Bits of a [char] *)

Ltac bit_index k :=
  let H := fresh in
  assert (H : k = 0 \/ k = 1 \/ k = 2 \/ k = 3 \/ k = 4 \/ k = 5 \/ k = 6 \/ k = 7)
    by lia;
  repeat (destruct H as [H | H]); subst k.

Ltac all_bytes b := destruct b; vm_compute; reflexivity.

(** The test [(c >> k) & 1] reads bit [k] of the byte. *)
Lemma char_test_bit b k :
  0 <= k < 8 ->
  (Z.land (Z.shiftr (C.char_val b) k) 1 =? 0)
  = negb (Z.testbit (byte.unsigned b) k).
Proof. intros Hk. bit_index k; all_bytes b. Qed.

(** [c |= 1 << k], stored back into a [char]. *)
Lemma char_set_bit b k :
  0 <= k < 8 ->
  byte.unsigned (byte.of_Z (Z.lor (C.char_val b) (Z.shiftl 1 k)))
  = Z.lor (byte.unsigned b) (2 ^ k).
Proof. intros Hk. bit_index k; all_bytes b. Qed.

(** [c &= ~(1 << k)], stored back into a [char]. *)
Lemma char_clear_bit b k :
  0 <= k < 8 ->
  byte.unsigned (byte.of_Z (Z.land (C.char_val b) (Z.lnot (Z.shiftl 1 k))))
  = Z.ldiff (byte.unsigned b) (2 ^ k).
Proof. intros Hk. bit_index k; all_bytes b. Qed.

Lemma testbit_set_bit b k j :
  0 <= k < 8 -> 0 <= j ->
  Z.testbit (byte.unsigned (byte.of_Z (Z.lor (C.char_val b) (Z.shiftl 1 k)))) j
  = (j =? k) || Z.testbit (byte.unsigned b) j.
Proof.
  intros Hk Hj. rewrite char_set_bit by assumption.
  rewrite Z.lor_spec, Z.pow2_bits_eqb by lia.
  rewrite (Z.eqb_sym k j). apply orb_comm.
Qed.

Lemma testbit_clear_bit b k j :
  0 <= k < 8 -> 0 <= j ->
  Z.testbit (byte.unsigned (byte.of_Z (Z.land (C.char_val b)
                                             (Z.lnot (Z.shiftl 1 k))))) j
  = negb (j =? k) && Z.testbit (byte.unsigned b) j.
Proof.
  intros Hk Hj. rewrite char_clear_bit by assumption.
  rewrite Z.ldiff_spec, Z.pow2_bits_eqb by lia.
  rewrite (Z.eqb_sym k j). apply andb_comm.
Qed.

(** Clearing a bit that was set by [|=] gives back a byte whose bit was
    clear. *)
Lemma char_set_then_clear b k :
  0 <= k < 8 ->
  Z.testbit (byte.unsigned b) k = false ->
  byte.of_Z (Z.land (C.char_val (byte.of_Z (Z.lor (C.char_val b) (Z.shiftl 1 k))))
                    (Z.lnot (Z.shiftl 1 k))) = b.
Proof.
  intros Hk Hb. apply byte.unsigned_inj. rewrite char_clear_bit by assumption.
  rewrite char_set_bit by assumption.
  apply Z.bits_inj'. intros n Hn.
  rewrite Z.ldiff_spec, Z.lor_spec, Z.pow2_bits_eqb by lia.
  destruct (Z.eqb_spec k n) as [<- | Hne].
  - rewrite Hb. reflexivity.
  - rewrite orb_false_r, andb_true_r. reflexivity.
Qed.

(** ** Buffers *)

Lemma length_zero_buffer n : length (zero_buffer n) = Z.to_nat n.
Proof. apply repeat_length. Qed.

Ltac zcases :=
  repeat match goal with
         | |- context [?a <=? ?b] => destruct (Z.leb_spec a b)
         | |- context [?a <? ?b] => destruct (Z.ltb_spec a b)
         end;
  simpl; try lia.

Lemma get_byte_in buf i :
  0 <= i < len buf -> exists b, get_byte buf i = Some b.
Proof.
  unfold get_byte. intros H. zcases.
  destruct (nth_error buf (Z.to_nat i)) eqn:E; [eauto |].
  apply nth_error_None in E. unfold len in *. lia.
Qed.

Lemma get_byte_range buf i b : get_byte buf i = Some b -> 0 <= i < len buf.
Proof. unfold get_byte. zcases; discriminate. Qed.

Lemma put_byte_len buf i v buf' : put_byte buf i v = Some buf' -> len buf' = len buf.
Proof.
  unfold put_byte. destruct (_ && _); [| discriminate].
  intros [= <-]. unfold len. now rewrite upd_length.
Qed.

Lemma put_byte_in buf i v :
  0 <= i < len buf -> put_byte buf i v = Some (List.upd buf (Z.to_nat i) v).
Proof. unfold put_byte. intros H. zcases. reflexivity. Qed.

Lemma get_put_byte buf i v buf' j :
  put_byte buf i v = Some buf' ->
  get_byte buf' j = if j =? i then Some v else get_byte buf j.
Proof.
  intros H. pose proof (put_byte_len _ _ _ _ H) as L. revert H.
  unfold put_byte, get_byte. rewrite L.
  zcases; try discriminate; intros [= <-];
    destruct (Z.eqb_spec j i) as [-> | Hne]; try lia; try reflexivity.
  - apply nth_error_upd_same. unfold len in *. lia.
  - apply nth_error_upd_diff. lia.
Qed.

(** Replacing byte [k / 8] by one that has bit [k mod 8] set in addition
    sets bit [k] of the bitmap and no other. *)
Lemma bitmap_bit_set bm k b b' bm' :
  0 <= k ->
  get_byte bm (k / 8) = Some b ->
  put_byte bm (k / 8) b' = Some bm' ->
  (forall j, 0 <= j ->
     Z.testbit (byte.unsigned b') j = (j =? k mod 8) || Z.testbit (byte.unsigned b) j) ->
  forall j, bitmap_bit bm' j = (j =? k) || bitmap_bit bm j.
Proof.
  intros Hk Hb Hput Hbits j. unfold bitmap_bit.
  rewrite (get_put_byte _ _ _ _ _ Hput).
  destruct (Z.eqb_spec (j / 8) (k / 8)) as [E | Hne].
  - rewrite E, Hb, Hbits by (apply Z.mod_pos_bound; lia). f_equal.
    destruct (Z.eqb_spec (j mod 8) (k mod 8)), (Z.eqb_spec j k); try reflexivity.
    + pose proof (Z.div_mod j 8). pose proof (Z.div_mod k 8). lia.
    + subst. contradiction.
  - destruct (Z.eqb_spec j k) as [-> | ]; [contradiction | reflexivity].
Qed.

(** Replacing byte [k / 8] by one that has bit [k mod 8] cleared clears bit
    [k] of the bitmap and no other. *)
Lemma bitmap_bit_clear bm k b b' bm' :
  0 <= k ->
  get_byte bm (k / 8) = Some b ->
  put_byte bm (k / 8) b' = Some bm' ->
  (forall j, 0 <= j ->
     Z.testbit (byte.unsigned b') j
     = negb (j =? k mod 8) && Z.testbit (byte.unsigned b) j) ->
  forall j, bitmap_bit bm' j = negb (j =? k) && bitmap_bit bm j.
Proof.
  intros Hk Hb Hput Hbits j. unfold bitmap_bit.
  rewrite (get_put_byte _ _ _ _ _ Hput).
  destruct (Z.eqb_spec (j / 8) (k / 8)) as [E | Hne].
  - rewrite E, Hb, Hbits by (apply Z.mod_pos_bound; lia). f_equal.
    destruct (Z.eqb_spec (j mod 8) (k mod 8)), (Z.eqb_spec j k); try reflexivity.
    + pose proof (Z.div_mod j 8). pose proof (Z.div_mod k 8). lia.
    + subst. contradiction.
  - destruct (Z.eqb_spec j k) as [-> | ]; [contradiction | reflexivity].
Qed.

Section Properties.

Context {dev : Device}.

(** ** The device *)

Lemma length_fit buf : length (fit buf) = Z.to_nat BLOCK_SIZE.
Proof.
  unfold fit. rewrite length_firstn, length_app, length_zero_buffer. lia.
Qed.

Lemma fit_id buf : length buf = Z.to_nat BLOCK_SIZE -> fit buf = buf.
Proof.
  intros H. unfold fit. rewrite firstn_app, H, Nat.sub_diag. simpl.
  rewrite app_nil_r, <- H. apply firstn_all.
Qed.

Lemma length_zero_block : length zero_block = Z.to_nat BLOCK_SIZE.
Proof. apply length_zero_buffer. Qed.

Lemma disk_read_length d n blk :
  disk_read d n = Some blk -> length blk = Z.to_nat BLOCK_SIZE.
Proof.
  unfold disk_read. destruct (on_device n); [| discriminate].
  intros [= <-]. apply length_fit.
Qed.

Lemma disk_read_len d n blk :
  0 <= BLOCK_SIZE -> disk_read d n = Some blk -> len blk = BLOCK_SIZE.
Proof. intros H R. unfold len. rewrite (disk_read_length _ _ _ R). lia. Qed.

Lemma disk_read_on d n blk : disk_read d n = Some blk -> on_device n = true.
Proof. unfold disk_read. destruct (on_device n); [reflexivity | discriminate]. Qed.

Lemma write_block_on n buf s :
  on_device n = true ->
  write_block n buf s
  = Returns 0 (set_disk s (fun m => if m =? n then fit buf else disk s m)).
Proof. intros H. unfold write_block, disk_write. now rewrite H. Qed.

Lemma write_block_off n buf s :
  on_device n = false -> write_block n buf s = Returns 1 s.
Proof. intros H. unfold write_block, disk_write. now rewrite H. Qed.

Lemma disk_read_update d n buf m :
  disk_read (fun k => if k =? n then fit buf else d k) m
  = if m =? n then (if on_device n then Some (fit buf) else None)
    else disk_read d m.
Proof.
  unfold disk_read. destruct (Z.eqb_spec m n) as [-> | Hne]; [| reflexivity].
  destruct (on_device n); [| reflexivity].
  now rewrite fit_id by apply length_fit.
Qed.

(** ** Bitmap allocator *)

Lemma bitmap_bit_byte bitmap i b :
  get_byte bitmap (i / 8) = Some b ->
  bitmap_bit bitmap i = Z.testbit (byte.unsigned b) (i mod 8).
Proof. unfold bitmap_bit. now intros ->. Qed.

Lemma bitmap_bit_true_byte bitmap i :
  bitmap_bit bitmap i = true -> exists b, get_byte bitmap (i / 8) = Some b.
Proof.
  unfold bitmap_bit. destruct (get_byte bitmap (i / 8)); [eauto | discriminate].
Qed.

(** A scan over set bits only runs to the end of the loop. *)
Lemma alloc_inode_loop_full count : forall i bitmap s,
  0 <= i ->
  (forall j, i <= j < i + Z.of_nat count -> bitmap_bit bitmap j = true) ->
  alloc_inode_loop count i bitmap s = Returns (- ENOSPC) s.
Proof.
  induction count as [| count IH]; intros i bitmap s Hi Hset; [reflexivity |].
  cbn [alloc_inode_loop]. unfold bind at 1.
  rewrite Z.quot_div_nonneg, Z.rem_mod_nonneg by lia.
  destruct (bitmap_bit_true_byte bitmap i) as [b Hb]; [apply Hset; lia |].
  rewrite Hb. cbn [lift ret].
  rewrite char_test_bit by (apply Z.mod_pos_bound; lia).
  rewrite <- (bitmap_bit_byte _ _ _ Hb), Hset by lia. cbn [negb].
  apply IH; [lia |]. intros j Hj. apply Hset. lia.
Qed.

(** A scan that meets a clear bit of the buffer stops at the lowest one,
    sets it in the buffer and writes the buffer to the bitmap block. *)
Lemma alloc_inode_loop_found count : forall i bitmap s,
  0 <= i ->
  (exists j, i <= j < i + Z.of_nat count /\ j < 8 * len bitmap /\
             bitmap_bit bitmap j = false) ->
  exists k b,
    i <= k < i + Z.of_nat count /\
    bitmap_bit bitmap k = false /\
    (forall j, i <= j < k -> bitmap_bit bitmap j = true) /\
    get_byte bitmap (k / 8) = Some b /\
    alloc_inode_loop count i bitmap s
    = (write_block INODE_BITMAP_BLOCK
         (List.upd bitmap (Z.to_nat (k / 8))
            (byte.of_Z (Z.lor (C.char_val b) (Z.shiftl 1 (k mod 8))))) ;;;
       ret k) s.
Proof.
  induction count as [| count IH]; intros i bitmap s Hi (j & Hj & Hjlen & Hclear);
    [lia |].
  cbn [alloc_inode_loop]. unfold bind at 1.
  rewrite Z.quot_div_nonneg, Z.rem_mod_nonneg by lia.
  destruct (get_byte_in bitmap (i / 8)) as [b Hb].
  { split; [apply Z.div_pos; lia | apply Z.div_lt_upper_bound; lia]. }
  rewrite Hb. cbn [lift ret].
  rewrite char_test_bit by (apply Z.mod_pos_bound; lia).
  rewrite <- (bitmap_bit_byte _ _ _ Hb).
  destruct (bitmap_bit bitmap i) eqn:Ebit; cbn [negb].
  - destruct (IH (i + 1) bitmap s) as (k & b' & Hk & Hkc & Hlow & Hb' & Hrun).
    + lia.
    + exists j. repeat split; try assumption; try lia.
      assert (j <> i) by (intros ->; congruence). lia.
    + exists k, b'. repeat split; try assumption; try lia.
      intros j' Hj'. destruct (Z.eq_dec j' i) as [-> | ]; [assumption |].
      apply Hlow. lia.
  - exists i, b. repeat split; try assumption; try lia.
    unfold bind at 1. rewrite put_byte_in by (apply (get_byte_range _ _ _ Hb)).
    reflexivity.
Qed.

Lemma alloc_inode_found s bitmap :
  disk_read (disk s) INODE_BITMAP_BLOCK = Some bitmap ->
  (exists j, 0 <= j < num_inodes (sb s) /\ j < 8 * BLOCK_SIZE /\
             bitmap_bit bitmap j = false) ->
  exists k b,
    0 <= k < num_inodes (sb s) /\
    bitmap_bit bitmap k = false /\
    (forall j, 0 <= j < k -> bitmap_bit bitmap j = true) /\
    get_byte bitmap (k / 8) = Some b /\
    alloc_inode s = Returns k (after_alloc s bitmap k b).
Proof.
  intros Hread (j & Hj & Hjlen & Hc).
  assert (Hlen : len bitmap = BLOCK_SIZE) by (apply (disk_read_len _ _ _ ltac:(lia) Hread)).
  destruct (alloc_inode_loop_found (Z.to_nat (num_inodes (sb s))) 0 bitmap s)
    as (k & b & Hk & Hkc & Hlow & Hb & Hrun).
  - lia.
  - exists j. repeat split; try assumption; lia.
  - exists k, b. repeat split; try assumption; try lia.
    unfold alloc_inode, bind at 1 2 3, read_block. rewrite Hread. cbn [lift ret].
    rewrite Hrun. unfold bind.
    rewrite write_block_on by (apply (disk_read_on _ _ _ Hread)).
    reflexivity.
Qed.

Lemma alloc_inode_full s bitmap :
  disk_read (disk s) INODE_BITMAP_BLOCK = Some bitmap ->
  (forall j, 0 <= j < num_inodes (sb s) -> bitmap_bit bitmap j = true) ->
  alloc_inode s = Returns (- ENOSPC) s.
Proof.
  intros Hread Hset.
  unfold alloc_inode, bind, read_block. rewrite Hread. cbn [lift ret].
  apply alloc_inode_loop_full; [lia |].
  intros j Hj. apply Hset. lia.
Qed.

(** What the device holds after [alloc_inode] has set bit [k]. *)
Lemma after_alloc_bitmap s bitmap k b :
  disk_read (disk s) INODE_BITMAP_BLOCK = Some bitmap ->
  0 <= k ->
  get_byte bitmap (k / 8) = Some b ->
  exists bitmap',
    disk_read (disk (after_alloc s bitmap k b)) INODE_BITMAP_BLOCK = Some bitmap' /\
    put_byte bitmap (k / 8)
      (byte.of_Z (Z.lor (C.char_val b) (Z.shiftl 1 (k mod 8)))) = Some bitmap' /\
    (forall j, bitmap_bit bitmap' j = (j =? k) || bitmap_bit bitmap j) /\
    (forall n, n <> INODE_BITMAP_BLOCK ->
       disk_read (disk (after_alloc s bitmap k b)) n = disk_read (disk s) n).
Proof.
  intros Hread Hk Hb.
  pose proof (put_byte_in bitmap (k / 8)
                (byte.of_Z (Z.lor (C.char_val b) (Z.shiftl 1 (k mod 8))))
                (get_byte_range _ _ _ Hb)) as Hput.
  eexists. split; [| split; [exact Hput | split]].
  - unfold after_alloc. cbn [disk set_disk]. rewrite disk_read_update, Z.eqb_refl.
    rewrite (disk_read_on _ _ _ Hread). f_equal. apply fit_id.
    rewrite upd_length. apply (disk_read_length _ _ _ Hread).
  - apply (bitmap_bit_set _ _ _ _ _ Hk Hb Hput).
    intros j Hj. apply testbit_set_bit; [apply Z.mod_pos_bound; lia | assumption].
  - intros n Hn. unfold after_alloc. cbn [disk set_disk]. rewrite disk_read_update.
    destruct (Z.eqb_spec n INODE_BITMAP_BLOCK); [contradiction | reflexivity].
Qed.

(** C8.  On a mounted file system ([sb.num_inodes] is [INODE_COUNT], the
    bitmap block is on the device and holds a bit for every inode):
    when some bit of the inode bitmap is clear, [alloc_inode] returns the
    index of the lowest clear bit and leaves on the device the bitmap with
    exactly that bit newly set, no other block being touched; when all
    [INODE_COUNT] bits are set, it returns [-ENOSPC] and leaves the state as
    it was. *)
Theorem alloc_inode_lowest_clear_bit (s : fs) (bitmap : block) :
  disk_read (disk s) INODE_BITMAP_BLOCK = Some bitmap ->
  num_inodes (sb s) = INODE_COUNT ->
  INODE_COUNT <= 8 * BLOCK_SIZE ->
  ((exists j, 0 <= j < INODE_COUNT /\ bitmap_bit bitmap j = false) ->
   exists i s' bitmap',
     alloc_inode s = Returns i s' /\
     0 <= i < INODE_COUNT /\
     bitmap_bit bitmap i = false /\
     (forall j, 0 <= j < i -> bitmap_bit bitmap j = true) /\
     sb s' = sb s /\
     disk_read (disk s') INODE_BITMAP_BLOCK = Some bitmap' /\
     (forall j, bitmap_bit bitmap' j = (j =? i) || bitmap_bit bitmap j) /\
     (forall n, n <> INODE_BITMAP_BLOCK ->
        disk_read (disk s') n = disk_read (disk s) n))
  /\
  ((forall j, 0 <= j < INODE_COUNT -> bitmap_bit bitmap j = true) ->
   alloc_inode s = Returns (- ENOSPC) s).
Proof.
  intros Hread Hn Hfit. split.
  - intros Hclear.
    destruct (alloc_inode_found s bitmap Hread) as (k & b & Hk & Hkc & Hlow & Hb & Hrun).
    + rewrite Hn. destruct Hclear as (j & Hj & Hc). exists j.
      repeat split; try assumption; lia.
    + destruct (after_alloc_bitmap s bitmap k b Hread (proj1 Hk) Hb)
        as (bitmap' & Hread' & _ & Hbits & Hother).
      exists k, (after_alloc s bitmap k b), bitmap'.
      rewrite Hn in Hk. repeat split; try assumption; lia.
  - intros Hset. apply (alloc_inode_full s bitmap Hread). now rewrite Hn.
Qed.

Lemma get_byte_ext (a b : list byte) :
  (forall j, get_byte a j = get_byte b j) -> len a = len b -> a = b.
Proof.
  intros H L. apply nth_error_ext. intros n.
  specialize (H (Z.of_nat n)). unfold get_byte in H. rewrite L, Nat2Z.id in H.
  destruct (Z.leb_spec 0 (Z.of_nat n)); [| lia].
  destruct (Z.ltb_spec (Z.of_nat n) (len b)); [exact H |].
  transitivity (@None byte); [| symmetry]; apply nth_error_None; unfold len in *; lia.
Qed.

(** C10.  On a mounted file system whose inode bitmap has a clear bit,
    [alloc_inode] returns an index [i] and sets its bit, and [free_inode i]
    right after it leaves the bitmap block, and every other block of the
    device, exactly as it was before the allocation. *)
Theorem alloc_then_free_restores_bitmap (s : fs) (bitmap : block) :
  disk_read (disk s) INODE_BITMAP_BLOCK = Some bitmap ->
  num_inodes (sb s) = INODE_COUNT ->
  INODE_COUNT <= 8 * BLOCK_SIZE ->
  (exists j, 0 <= j < INODE_COUNT /\ bitmap_bit bitmap j = false) ->
  exists i s1 s2 bitmap1,
    alloc_inode s = Returns i s1 /\
    disk_read (disk s1) INODE_BITMAP_BLOCK = Some bitmap1 /\
    bitmap_bit bitmap1 i = true /\
    free_inode i s1 = Returns tt s2 /\
    disk_read (disk s2) INODE_BITMAP_BLOCK = Some bitmap /\
    (forall n, disk_read (disk s2) n = disk_read (disk s) n) /\
    sb s2 = sb s.
Proof.
  intros Hread Hn Hfit Hclear.
  destruct (alloc_inode_found s bitmap Hread) as (k & b & Hk & Hkc & Hlow & Hb & Hrun).
  { rewrite Hn. destruct Hclear as (j & Hj & Hc). exists j.
    repeat split; try assumption; lia. }
  destruct (after_alloc_bitmap s bitmap k b Hread (proj1 Hk) Hb)
    as (bitmap1 & Hread1 & Hput1 & Hbits & Hother).
  set (s1 := after_alloc s bitmap k b) in *.
  assert (Hb1 : get_byte bitmap1 (k / 8)
                = Some (byte.of_Z (Z.lor (C.char_val b) (Z.shiftl 1 (k mod 8))))).
  { rewrite (get_put_byte _ _ _ _ _ Hput1), Z.eqb_refl. reflexivity. }
  assert (Hrestore : put_byte bitmap1 (k / 8) b = Some bitmap).
  { rewrite put_byte_in by (apply (get_byte_range _ _ _ Hb1)).
    apply (f_equal (@Some (list byte))).
    apply get_byte_ext.
    - intros j.
      rewrite (get_put_byte bitmap1 (k / 8) b _ j
                 (put_byte_in _ _ _ (get_byte_range _ _ _ Hb1))).
      rewrite (get_put_byte _ _ _ _ j Hput1).
      destruct (Z.eqb_spec j (k / 8)) as [-> | ]; [now rewrite Hb | reflexivity].
    - unfold len. rewrite upd_length. fold (len bitmap1).
      apply (put_byte_len _ _ _ _ Hput1). }
  assert (Hfree : free_inode k s1
                  = Returns tt (set_disk s1 (fun m => if m =? INODE_BITMAP_BLOCK
                                                      then fit bitmap else disk s1 m))).
  { unfold free_inode, bind at 1 2, read_block. rewrite Hread1. cbn [lift ret].
    destruct (Z.ltb_spec k 0); [lia |].
    rewrite Z.quot_div_nonneg, Z.rem_mod_nonneg by lia.
    unfold bind at 1. rewrite Hb1. cbn [lift ret].
    rewrite char_set_then_clear.
    - unfold bind at 1. rewrite Hrestore. cbn [lift ret]. unfold bind.
      rewrite write_block_on by (apply (disk_read_on _ _ _ Hread1)). reflexivity.
    - apply Z.mod_pos_bound; lia.
    - rewrite <- (bitmap_bit_byte _ _ _ Hb). assumption. }
  exists k, s1, (set_disk s1 (fun m => if m =? INODE_BITMAP_BLOCK
                                       then fit bitmap else disk s1 m)), bitmap1.
  assert (Hfinal : forall n,
             disk_read (fun m => if m =? INODE_BITMAP_BLOCK then fit bitmap else disk s1 m) n
             = disk_read (disk s) n).
  { intros n. rewrite disk_read_update.
    destruct (Z.eqb_spec n INODE_BITMAP_BLOCK) as [-> | Hne].
    - rewrite (disk_read_on _ _ _ Hread), Hread. f_equal. apply fit_id.
      apply (disk_read_length _ _ _ Hread).
    - apply Hother. assumption. }
  repeat split; try assumption.
  - rewrite Hbits, Z.eqb_refl. reflexivity.
  - cbn [disk set_disk]. rewrite Hfinal. assumption.
Qed.

(** ** Slices of a buffer *)

Lemma nth_error_upds (l xs : list byte) (i j : nat) :
  (i + length xs <= length l)%nat ->
  nth_error (List.upds l i xs) j
  = if (i <=? j)%nat && (j <? i + length xs)%nat
    then nth_error xs (j - i) else nth_error l j.
Proof.
  intros H. unfold List.upds.
  rewrite (firstn_all2 (n := length l - i) xs) by lia.
  rewrite !Stdlib.Lists.List.nth_error_app, length_firstn,
    Stdlib.Lists.List.nth_error_firstn, Stdlib.Lists.List.nth_error_skipn.
  replace (Nat.min i (length l)) with i by lia.
  destruct (Nat.ltb_spec j i), (Nat.leb_spec i j); try lia; cbn [andb].
  - reflexivity.
  - destruct (Nat.ltb_spec (j - i) (length xs)), (Nat.ltb_spec j (i + length xs));
      try lia; [reflexivity |].
    f_equal. lia.
Qed.

Lemma nth_error_slice (buf : list byte) (o n j : nat) :
  nth_error (firstn n (skipn o buf)) j
  = if (j <? n)%nat then nth_error buf (o + j) else None.
Proof.
  rewrite Stdlib.Lists.List.nth_error_firstn, Stdlib.Lists.List.nth_error_skipn.
  reflexivity.
Qed.

Lemma memcpy_to_len buf off src buf' :
  memcpy_to buf off src = Some buf' -> len buf' = len buf.
Proof.
  unfold memcpy_to. destruct (_ && _); [| discriminate].
  intros [= <-]. unfold len. now rewrite upds_length.
Qed.

Lemma memcpy_to_in buf off src :
  0 <= off -> off + len src <= len buf ->
  memcpy_to buf off src = Some (List.upds buf (Z.to_nat off) src).
Proof. unfold memcpy_to. intros. zcases. reflexivity. Qed.

Lemma memcpy_to_range buf off src buf' :
  memcpy_to buf off src = Some buf' -> 0 <= off /\ off + len src <= len buf.
Proof. unfold memcpy_to. zcases; discriminate. Qed.

Lemma bytes_at_in buf off n :
  0 <= off -> 0 <= n -> off + n <= len buf ->
  bytes_at buf off n = Some (firstn (Z.to_nat n) (skipn (Z.to_nat off) buf)).
Proof. unfold bytes_at. intros. zcases. reflexivity. Qed.

(** The bytes [memcpy] stored are read back. *)
Lemma bytes_at_memcpy_same buf off src buf' :
  memcpy_to buf off src = Some buf' ->
  bytes_at buf' off (len src) = Some src.
Proof.
  intros H. pose proof (memcpy_to_len _ _ _ _ H) as L.
  pose proof (memcpy_to_range _ _ _ _ H) as [H0 H1].
  rewrite memcpy_to_in in H by assumption. injection H as <-.
  rewrite bytes_at_in by (unfold len in *; lia).
  apply (f_equal (@Some (list byte))). apply Stdlib.Lists.List.nth_error_ext. intros j.
  rewrite nth_error_slice, nth_error_upds by (unfold len in *; lia).
  unfold len. rewrite Nat2Z.id.
  destruct (Nat.ltb_spec j (length src)).
  - destruct (Nat.leb_spec (Z.to_nat off) (Z.to_nat off + j)); [| lia].
    destruct (Nat.ltb_spec (Z.to_nat off + j) (Z.to_nat off + length src)); [| lia].
    cbn [andb]. f_equal. lia.
  - symmetry. apply nth_error_None. lia.
Qed.

(** Bytes outside the destination of [memcpy] keep their values. *)
Lemma bytes_at_memcpy_other buf off src buf' o n :
  memcpy_to buf off src = Some buf' ->
  o + n <= off \/ off + len src <= o ->
  bytes_at buf' o n = bytes_at buf o n.
Proof.
  intros H Hd. pose proof (memcpy_to_len _ _ _ _ H) as L.
  pose proof (memcpy_to_range _ _ _ _ H) as [H0 H1].
  rewrite memcpy_to_in in H by assumption. injection H as <-.
  unfold bytes_at. rewrite L.
  destruct ((0 <=? o) && (0 <=? n) && (o + n <=? len buf)) eqn:E; [| reflexivity].
  apply andb_prop in E as [E E3]. apply andb_prop in E as [E1 E2].
  apply Z.leb_le in E1, E2, E3.
  apply (f_equal (@Some (list byte))). apply Stdlib.Lists.List.nth_error_ext. intros j.
  rewrite !nth_error_slice, nth_error_upds by (unfold len in *; lia).
  destruct (Nat.ltb_spec j (Z.to_nat n)); [| reflexivity].
  destruct (Nat.leb_spec (Z.to_nat off) (Z.to_nat o + j)); cbn [andb]; [| reflexivity].
  destruct (Nat.ltb_spec (Z.to_nat o + j) (Z.to_nat off + length src));
    [| reflexivity].
  unfold len in *. lia.
Qed.

(** ** The representation of an inode *)

Lemma firstn_app_exact {A} (l1 l2 : list A) n :
  length l1 = n -> firstn n (l1 ++ l2) = l1.
Proof.
  intros <-.
  rewrite Stdlib.Lists.List.firstn_app, Nat.sub_diag,
    Stdlib.Lists.List.firstn_all, Stdlib.Lists.List.firstn_O.
  apply app_nil_r.
Qed.

Lemma skipn_app_exact {A} (l1 l2 : list A) n :
  length l1 = n -> skipn n (l1 ++ l2) = l2.
Proof.
  intros <-.
  rewrite Stdlib.Lists.List.skipn_app, Nat.sub_diag, Stdlib.Lists.List.skipn_all.
  reflexivity.
Qed.

Lemma length_store32 v : length (store32 v) = 4%nat.
Proof. apply length_le_split. Qed.

Lemma length_flat_map_store32 ws :
  length (flat_map store32 ws) = (4 * length ws)%nat.
Proof.
  induction ws as [| w ws IH]; [reflexivity |].
  cbn [flat_map]. rewrite length_app, length_store32, IH. cbn [length]. lia.
Qed.

Lemma words_of_flat_map ws : forall rest,
  words_of (length ws) (flat_map store32 ws ++ rest) = map C.to_u32 ws.
Proof.
  induction ws as [| w ws IH]; intros rest; [reflexivity |].
  cbn [length words_of flat_map map]. rewrite <- app_assoc. f_equal.
  - rewrite firstn_app_exact by apply length_store32.
    unfold store32. rewrite le_combine_split. reflexivity.
  - rewrite skipn_app_exact by apply length_store32. apply IH.
Qed.

Lemma map_to_u32_id ws : Forall is_u32 ws -> map C.to_u32 ws = ws.
Proof.
  induction 1 as [| w ws Hw _ IH]; [reflexivity |].
  cbn [map]. rewrite IH, to_u32_small by exact Hw. reflexivity.
Qed.

Lemma fixed_id n ws : length ws = n -> fixed n ws = ws.
Proof.
  intros H. unfold fixed. now apply firstn_app_exact.
Qed.

Lemma length_fixed n ws : length (fixed n ws) = n.
Proof.
  unfold fixed. rewrite length_firstn, length_app, repeat_length. lia.
Qed.

Lemma length_encode_inode ino : length (encode_inode ino) = 76%nat.
Proof.
  unfold encode_inode, inode_words.
  rewrite length_flat_map_store32. cbn [length app].
  rewrite length_app, !length_fixed. reflexivity.
Qed.

Lemma len_encode_inode ino : len (encode_inode ino) = INODE_SIZE.
Proof. unfold len. now rewrite length_encode_inode. Qed.

(** Decoding the representation of a well-formed inode gives it back. *)
Lemma decode_encode_inode ino :
  wf_inode ino -> decode_inode (encode_inode ino) = ino.
Proof.
  destruct ino as [sz at_ mt ct md dp ip]. unfold wf_inode.
  cbn [size atime mtime ctime mode direct_block_pointer indirect_block_pointer].
  intros (Hsz & Hat & Hmt & Hct & Hmd & Ldp & Lip & Fdp & Fip).
  unfold decode_inode, encode_inode, inode_words. cbn [size atime mtime ctime mode
    direct_block_pointer indirect_block_pointer].
  rewrite !fixed_id by assumption.
  set (ws := [sz; at_; mt; ct; md] ++ dp ++ ip).
  assert (Lws : length ws = 19%nat).
  { unfold ws. cbn [app length]. rewrite length_app. lia. }
  rewrite <- (app_nil_r (flat_map store32 ws)), <- Lws, words_of_flat_map.
  rewrite map_to_u32_id.
  2:{ unfold ws. repeat apply Forall_cons; try assumption.
      apply Forall_app. split; assumption. }
  unfold ws. cbn [app nth]. f_equal.
  - change (skipn 5 (sz :: at_ :: mt :: ct :: md :: dp ++ ip)) with (dp ++ ip).
    now apply firstn_app_exact.
  - change (skipn 17 (sz :: at_ :: mt :: ct :: md :: dp ++ ip))
      with (skipn 12 (dp ++ ip)).
    now apply skipn_app_exact.
Qed.

(** ** Inode store *)

Lemma inode_location n :
  INODE_SIZE <= BLOCK_SIZE -> 0 <= n < INODE_COUNT ->
  (INODES_PER_BLOCK =? 0) = false /\
  inode_block_num n = INODE_TABLE_START_BLOCK + n / INODES_PER_BLOCK /\
  inode_offset_in_block n = n mod INODES_PER_BLOCK /\
  C.to_size_t (n mod INODES_PER_BLOCK * INODE_SIZE)
  = n mod INODES_PER_BLOCK * INODE_SIZE /\
  0 <= n mod INODES_PER_BLOCK * INODE_SIZE /\
  n mod INODES_PER_BLOCK * INODE_SIZE + INODE_SIZE <= BLOCK_SIZE.
Proof.
  unfold inode_block_num, inode_offset_in_block, INODES_PER_BLOCK,
    INODE_TABLE_START_BLOCK, INODE_SIZE, INODE_COUNT.
  intros Hb Hn.
  assert (Hp : 1 <= BLOCK_SIZE / 76) by (apply Z.div_le_lower_bound; lia).
  pose proof (Z.mul_div_le BLOCK_SIZE 76 ltac:(lia)) as Hle.
  set (p := BLOCK_SIZE / 76) in *. clearbody p.
  pose proof (Z.mod_pos_bound n p ltac:(lia)) as Hm.
  pose proof (Z.mod_le n p ltac:(lia) ltac:(lia)) as Hm'.
  assert (Hq : 0 <= n / p <= n).
  { split; [apply Z.div_pos; lia |]. apply Z.div_le_upper_bound; [lia |].
    replace n with (1 * n) at 1 by lia. apply Z.mul_le_mono_nonneg_r; lia. }
  rewrite (to_size_t_small n) by lia.
  set (q := n / p) in *. set (r := n mod p) in *. clearbody q r.
  rewrite (to_size_t_small (4 + _)) by lia.
  rewrite !to_int_small by (unfold C.is_int; lia).
  rewrite to_size_t_small by lia.
  repeat split; try lia; try (apply Z.eqb_neq; lia).
Qed.

(** With 4096-byte blocks, a negative inode number, converted to [size_t]
    and divided by the 53 inodes of a block, gives a block number that is
    negative as an [int]. *)
Lemma inode_block_num_negative n :
  BLOCK_SIZE = 4096 -> - 2 ^ 31 <= n < 0 ->
  (INODES_PER_BLOCK =? 0) = false /\ inode_block_num n < 0.
Proof.
  unfold inode_block_num, INODES_PER_BLOCK, INODE_TABLE_START_BLOCK, INODE_SIZE.
  intros -> Hn. change (4096 / 76) with 53. split; [reflexivity |].
  rewrite (to_size_t_neg n) by lia.
  assert (Hq : 348051774935133357 <= (n + 2 ^ 64) / 53 < 348051774975651918).
  { split; [apply Z.div_le_lower_bound | apply Z.div_lt_upper_bound]; lia. }
  rewrite to_size_t_small by lia.
  unfold C.to_int.
  rewrite <- (Z.mod_unique (4 + (n + 2 ^ 64) / 53 + 2 ^ 31) (2 ^ 32) 81037119
             (4 + (n + 2 ^ 64) / 53 + 2 ^ 31 - 81037119 * 2 ^ 32)); lia.
Qed.

Lemma disk_read_negative d n : n < 0 -> disk_read d n = None.
Proof.
  intros H. unfold disk_read, on_device.
  destruct (Z.leb_spec 0 n); [lia | reflexivity].
Qed.

Lemma read_inode_at n s :
  INODE_SIZE <= BLOCK_SIZE -> 0 <= n < INODE_COUNT ->
  read_inode n s
  = match disk_read (disk s) (INODE_TABLE_START_BLOCK + n / INODES_PER_BLOCK) with
    | None => Returns (Err (-1)) s
    | Some blk =>
        match bytes_at blk (n mod INODES_PER_BLOCK * INODE_SIZE) INODE_SIZE with
        | Some bs => Returns (Ok (decode_inode bs)) s
        | None => Undefined
        end
    end.
Proof.
  intros Hb Hn. destruct (inode_location n Hb Hn) as (H0 & Hblk & Hoff & Hsz & _).
  unfold read_inode. destruct (Z.geb_spec n INODE_COUNT); [lia |].
  rewrite H0, Hblk, Hoff, Hsz. unfold bind at 1, read_block.
  destruct (disk_read _ _) as [blk |]; [| reflexivity].
  unfold bind, lift. destruct (bytes_at _ _ _); reflexivity.
Qed.

Lemma write_inode_at n ino s :
  INODE_SIZE <= BLOCK_SIZE -> 0 <= n < INODE_COUNT ->
  write_inode n ino s
  = match disk_read (disk s) (INODE_TABLE_START_BLOCK + n / INODES_PER_BLOCK) with
    | None => Returns (-1) s
    | Some blk =>
        match memcpy_to blk (n mod INODES_PER_BLOCK * INODE_SIZE)
                        (encode_inode ino) with
        | Some blk' =>
            Returns 0
              (set_disk s (fun m =>
                 if m =? INODE_TABLE_START_BLOCK + n / INODES_PER_BLOCK
                 then fit blk' else disk s m))
        | None => Undefined
        end
    end.
Proof.
  intros Hb Hn. destruct (inode_location n Hb Hn) as (H0 & Hblk & Hoff & Hsz & _).
  unfold write_inode. destruct (Z.geb_spec n INODE_COUNT); [lia |].
  rewrite H0, Hblk, Hoff, Hsz. unfold bind at 1, read_block.
  destruct (disk_read _ _) as [blk |] eqn:Hread; [| reflexivity].
  unfold bind at 1, lift. destruct (memcpy_to _ _ _) as [blk' |]; [| reflexivity].
  cbn [ret]. unfold bind. rewrite write_block_on by (apply (disk_read_on _ _ _ Hread)).
  reflexivity.
Qed.




(** ** Block mapper *)

Lemma load32_in buf off :
  0 <= off -> off + 4 <= len buf -> exists v, load32 buf off = Some v.
Proof.
  intros H0 H1. unfold load32. rewrite bytes_at_in by lia. cbn [option_map]. eauto.
Qed.

(** C5.  For a logical block index under 12 the read-only block mapper
    returns [direct[index]].  Otherwise, with [k = index - 12],
    [g = k / (BLOCK_SIZE / 4)] and [o = k mod (BLOCK_SIZE / 4)], it returns 0
    (not allocated) when [g >= 2] and when [indirect[g]] is zero, and else
    the 32-bit slot [o] of the index block [indirect[g]] read from the
    device (0 when the device has no such block).  The state is left as it
    was. *)
Theorem block_mapper_read_only (dir_inode : inode) (index : Z) (s : fs) :
  4 <= BLOCK_SIZE < 2 ^ 31 ->
  is_u32 index ->
  (index < DIRECT_POINTERS ->
   get_directory_block_addr dir_inode index s
   = Returns (array_get (direct_block_pointer dir_inode) index) s)
  /\
  (DIRECT_POINTERS <= index ->
   let k := index - DIRECT_POINTERS in
   let g := k / (BLOCK_SIZE / 4) in
   let o := k mod (BLOCK_SIZE / 4) in
   let addr := array_get (indirect_block_pointer dir_inode) g in
   (2 <= g -> get_directory_block_addr dir_inode index s = Returns 0 s) /\
   (g < 2 -> addr = 0 ->
    get_directory_block_addr dir_inode index s = Returns 0 s) /\
   (g < 2 -> addr <> 0 ->
    match disk_read (disk s) (C.to_int addr) with
    | Some pointers =>
        exists v, load32 pointers (4 * o) = Some v /\
                  get_directory_block_addr dir_inode index s = Returns v s
    | None => get_directory_block_addr dir_inode index s = Returns 0 s
    end)).
Proof.
  intros Hbs Hidx. unfold is_u32, DIRECT_POINTERS in *. split.
  - intros Hlt. unfold get_directory_block_addr, DIRECT_POINTERS.
    destruct (Z.ltb_spec index 12); [reflexivity | lia].
  - intros Hge. cbv zeta.
    set (k := index - 12).
    set (g := k / (BLOCK_SIZE / 4)).
    set (o := k mod (BLOCK_SIZE / 4)).
    set (addr := array_get (indirect_block_pointer dir_inode) g).
    assert (Hp : 1 <= BLOCK_SIZE / 4 < 2 ^ 32).
    { split; [apply Z.div_le_lower_bound; lia | apply Z.div_lt_upper_bound; lia]. }
    assert (Hrun : get_directory_block_addr dir_inode index s
                   = if g <? 2
                     then if addr =? 0 then Returns 0 s
                          else match disk_read (disk s) (C.to_int addr) with
                               | Some pointers =>
                                   lift (load32 pointers (4 * o)) s
                               | None => Returns 0 s
                               end
                     else Returns 0 s).
    { unfold get_directory_block_addr, DIRECT_POINTERS.
      destruct (Z.ltb_spec index 12); [lia |].
      rewrite (to_u32_small (index - 12)), (to_u32_small (BLOCK_SIZE / 4)) by lia.
      destruct (Z.eqb_spec (BLOCK_SIZE / 4) 0); [lia |].
      fold k g o addr. destruct (g <? 2); [| reflexivity].
      destruct (addr =? 0); [reflexivity |].
      unfold bind, read_block. destruct (disk_read _ _); reflexivity. }
    rewrite Hrun. repeat split.
    + intros Hg. destruct (Z.ltb_spec g 2); [lia | reflexivity].
    + intros Hg Ha. destruct (Z.ltb_spec g 2); [| lia].
      rewrite Ha. reflexivity.
    + intros Hg Ha. destruct (Z.ltb_spec g 2); [| lia].
      destruct (Z.eqb_spec addr 0); [contradiction |].
      destruct (disk_read (disk s) (C.to_int addr)) as [pointers |] eqn:Hread;
        [| reflexivity].
      pose proof (disk_read_len _ _ _ ltac:(lia) Hread) as Hlen.
      pose proof (Z.mod_pos_bound k (BLOCK_SIZE / 4)
                    (Z.lt_le_trans 0 1 _ Z.lt_0_1 (proj1 Hp))) as Ho.
      pose proof (Z.mul_div_le BLOCK_SIZE 4 eq_refl) as Hle.
      assert (H4o : 0 <= 4 * o /\ 4 * o + 4 <= len pointers).
      { rewrite Hlen. clear Hrun. unfold o in *. clear o.
        set (p := BLOCK_SIZE / 4) in *. clearbody p.
        set (r := k mod p) in *. clearbody r. lia. }
      destruct (load32_in pointers (4 * o)) as [v Hv]; [tauto | tauto |].
      exists v. rewrite Hv. split; reflexivity.
Qed.

(** ** Mount *)

Lemma bind_returns {A B} (m : M A) (k : A -> M B) s a s' :
  m s = Returns a s' -> bind m k s = k a s'.
Proof. intros H. unfold bind. now rewrite H. Qed.

Lemma on_device_in j : 0 <= j < BLOCK_NUM -> on_device j = true.
Proof. intros H. unfold on_device. zcases; reflexivity. Qed.

Lemma fit_zero_block : fit zero_block = zero_block.
Proof. apply fit_id, length_zero_block. Qed.

Lemma get_byte_zero_buffer n i b :
  get_byte (zero_buffer n) i = Some b -> b = zero_byte.
Proof.
  unfold get_byte, zero_buffer. destruct (_ && _); [| discriminate].
  intros H. apply nth_error_In, repeat_spec in H. exact H.
Qed.

Lemma bitmap_bit_zero_buffer n j : bitmap_bit (zero_buffer n) j = false.
Proof.
  unfold bitmap_bit. destruct (get_byte _ _) as [b |] eqn:E; [| reflexivity].
  apply get_byte_zero_buffer in E. subst b. apply Z.testbit_0_l.
Qed.

(** The layout [fs_mount] computes: the inode table takes
    [ceil(INODE_COUNT * sizeof(inode_t) / BLOCK_SIZE)] blocks from block 4
    on. *)
Lemma format_layout :
  INODE_SIZE <= BLOCK_SIZE < 2 ^ 31 ->
  num_inodes format_sb = INODE_COUNT /\
  inode_table_blocks format_sb
  = (INODE_COUNT * INODE_SIZE + BLOCK_SIZE - 1) / BLOCK_SIZE /\
  data_blocks_start format_sb
  = INODE_TABLE_START_BLOCK + inode_table_blocks format_sb /\
  1 <= inode_table_blocks format_sb <= INODE_COUNT.
Proof.
  unfold format_sb, ceil_div_size_t, INODE_SIZE, INODE_COUNT, INODE_TABLE_START_BLOCK.
  cbn [num_inodes inode_table_blocks data_blocks_start]. intros Hb.
  change (C.to_size_t (C.to_size_t 32768 * 76)) with 2490368.
  change (32768 * 76) with 2490368.
  rewrite to_size_t_small by lia.
  assert (Hq : 1 <= (2490368 + BLOCK_SIZE - 1) / BLOCK_SIZE < 32769).
  { split; [apply Z.div_le_lower_bound | apply Z.div_lt_upper_bound]; lia. }
  rewrite !to_int_small by (unfold C.is_int; lia). repeat split; lia.
Qed.


Lemma len_encode_sb b : len (encode_sb b) = SUPERBLOCK_SIZE.
Proof. unfold len, encode_sb. now rewrite length_flat_map_store32. Qed.

Lemma len_zero_block : 0 <= BLOCK_SIZE -> len zero_block = BLOCK_SIZE.
Proof. intros H. unfold len. rewrite length_zero_block. lia. Qed.

Lemma wf_root_inode now : wf_inode (root_inode now).
Proof.
  assert (Hu : is_u32 (C.to_u32 now)) by (apply Z.mod_pos_bound; lia).
  assert (H0 : is_u32 0) by (unfold is_u32; lia).
  assert (Hm : is_u32 DIRMODE) by (vm_compute; split; congruence).
  unfold wf_inode, root_inode, update_timestamp.
  cbn [size atime mtime ctime mode direct_block_pointer indirect_block_pointer
       repeat].
  refine (conj H0 (conj Hu (conj Hu (conj Hu (conj Hm
            (conj eq_refl (conj eq_refl (conj _ _)))))))).
  - repeat (apply Forall_cons; [exact H0 |]). apply Forall_nil.
  - repeat (apply Forall_cons; [exact H0 |]). apply Forall_nil.
Qed.


(** ** The superblock on the device *)








(** ** Calls that only read *)

Lemma reads_only_ret {A} (a : A) (P : A -> Prop) : P a -> reads_only (ret a) P.
Proof. intros H s. right. exists a. split; [reflexivity | exact H]. Qed.

Lemma reads_only_undefined {A} (P : A -> Prop) : reads_only undefined P.
Proof. intros s. left. reflexivity. Qed.

Lemma reads_only_bind {A B} (m : M A) (k : A -> M B) P Q :
  reads_only m P -> (forall a, P a -> reads_only (k a) Q) ->
  reads_only (bind m k) Q.
Proof.
  intros Hm Hk s. unfold bind. destruct (Hm s) as [-> | (a & -> & Ha)].
  - left. reflexivity.
  - apply (Hk a Ha).
Qed.

Lemma reads_only_weaken {A} (m : M A) (P Q : A -> Prop) :
  reads_only m P -> (forall a, P a -> Q a) -> reads_only m Q.
Proof.
  intros Hm HPQ s. destruct (Hm s) as [-> | (a & -> & Ha)]; [now left |].
  right. exists a. split; [reflexivity | exact (HPQ a Ha)].
Qed.

Lemma reads_only_lift {A} (o : option A) : reads_only (lift o) (fun _ => True).
Proof.
  destruct o; [now apply reads_only_ret | apply reads_only_undefined].
Qed.

Lemma reads_only_read_block n : reads_only (read_block n) (fun _ => True).
Proof. intros s. right. eexists. split; [reflexivity | exact I]. Qed.

Ltac reads_only_step :=
  first
    [ apply reads_only_undefined
    | apply reads_only_ret
    | eapply reads_only_bind; [apply reads_only_read_block | intros ? _]
    | eapply reads_only_bind; [apply reads_only_lift | intros ? _] ].

Lemma reads_only_read_inode n : reads_only (read_inode n) (fun _ => True).
Proof.
  unfold read_inode. destruct (n >=? INODE_COUNT); [now apply reads_only_ret |].
  destruct (INODES_PER_BLOCK =? 0); [apply reads_only_undefined |].
  reads_only_step. destruct a; [| now apply reads_only_ret].
  reads_only_step. now apply reads_only_ret.
Qed.

Lemma reads_only_get_directory_block_addr ino i :
  reads_only (get_directory_block_addr ino i) (fun _ => True).
Proof.
  unfold get_directory_block_addr.
  destruct (i <? DIRECT_POINTERS); [now apply reads_only_ret |].
  destruct (_ =? 0); [apply reads_only_undefined |].
  destruct (_ <? 2); [| now apply reads_only_ret].
  destruct (_ =? 0); [now apply reads_only_ret |].
  reads_only_step. destruct a; [apply reads_only_lift | now apply reads_only_ret].
Qed.

Lemma reads_only_find_entry_blocks ino name count : forall i,
  reads_only (find_entry_blocks count i ino name) resolver_status.
Proof.
  induction count as [| count IH]; intros i; cbn [find_entry_blocks].
  - apply reads_only_ret. now left.
  - eapply reads_only_bind; [apply reads_only_get_directory_block_addr |].
    intros addr _. destruct (addr =? 0); [apply IH |].
    reads_only_step. destruct a as [dir_block |]; [| apply IH].
    reads_only_step. destruct a as [n |]; [| apply IH].
    apply reads_only_ret. right. eauto.
Qed.

Lemma reads_only_find_entry_in_directory ino name :
  reads_only (find_entry_in_directory ino name) resolver_status.
Proof.
  unfold find_entry_in_directory.
  destruct (negb _); [apply reads_only_ret; now left |].
  apply reads_only_find_entry_blocks.
Qed.

Lemma reads_only_walk toks : forall current_ino,
  reads_only (walk toks current_ino) resolver_status.
Proof.
  induction toks as [| token toks IH]; intros current_ino; cbn [walk].
  - apply reads_only_ret. right. eauto.
  - eapply reads_only_bind; [apply reads_only_read_inode |].
    intros [current_inode | code] _; [| apply reads_only_ret; now left].
    eapply reads_only_bind; [apply reads_only_find_entry_in_directory |].
    intros [n | code] _; [apply IH | apply reads_only_ret; now left].
Qed.

Lemma reads_only_find_inode_by_path path :
  reads_only (find_inode_by_path path) resolver_status.
Proof.
  unfold find_inode_by_path. destruct path as [| c rest].
  - apply reads_only_ret. now left.
  - destruct (negb _); [apply reads_only_ret; now left |].
    destruct rest; [apply reads_only_ret; right; eauto | apply reads_only_walk].
Qed.

(** ** Calls that are defined *)

Lemma returns_ret {A} (a : A) (P : A -> Prop) : P a -> returns (ret a) P.
Proof. intros H s. exists a. split; [reflexivity | exact H]. Qed.

Lemma returns_bind {A B} (m : M A) (k : A -> M B) P Q :
  returns m P -> (forall a, P a -> returns (k a) Q) -> returns (bind m k) Q.
Proof.
  intros Hm Hk s. unfold bind. destruct (Hm s) as (a & -> & Ha). apply (Hk a Ha).
Qed.

Lemma returns_lift {A} (o : option A) a : o = Some a -> returns (lift o) (eq a).
Proof. intros ->. now apply returns_ret. Qed.

Lemma returns_read_block n :
  returns (read_block n)
          (fun o => forall blk, o = Some blk -> length blk = Z.to_nat BLOCK_SIZE).
Proof.
  intros s. eexists. split; [reflexivity |].
  intros blk H. apply (disk_read_length _ _ _ H).
Qed.

(** [strcmp] stays inside a buffer that is longer than the name. *)
Lemma strcmp_eq_defined name : forall mem,
  (length name < length mem)%nat -> exists b, strcmp_eq mem name = Some b.
Proof.
  induction name as [| c name IH]; intros [| m mem] H; cbn [length] in H; try lia.
  - cbn [strcmp_eq]. eauto.
  - cbn [strcmp_eq]. destruct (Byte.eqb m c); [apply IH; lia | eauto].
Qed.

Section Defined.

(** A block holds at least one inode, and its size is an [int]. *)
Hypothesis block_size_ok : INODE_SIZE <= BLOCK_SIZE < 2 ^ 31.

Lemma returns_read_inode n : returns (read_inode n) (fun _ => True).
Proof.
  unfold read_inode, INODE_SIZE in *.
  destruct (n >=? INODE_COUNT); [now apply returns_ret |].
  assert (Hp : 1 <= INODES_PER_BLOCK).
  { unfold INODES_PER_BLOCK, INODE_SIZE. apply Z.div_le_lower_bound; lia. }
  destruct (Z.eqb_spec INODES_PER_BLOCK 0); [lia |].
  eapply returns_bind; [apply returns_read_block |].
  intros [blk |] Hlen; [| now apply returns_ret].
  specialize (Hlen blk eq_refl).
  assert (Hoff : 0 <= inode_offset_in_block n < INODES_PER_BLOCK).
  { unfold inode_offset_in_block.
    pose proof (Z.mod_pos_bound (C.to_size_t n) INODES_PER_BLOCK
                  (Z.lt_le_trans 0 1 _ Z.lt_0_1 Hp)) as Hm.
    assert (INODES_PER_BLOCK <= BLOCK_SIZE).
    { unfold INODES_PER_BLOCK, INODE_SIZE. apply Z.div_le_upper_bound; lia. }
    rewrite to_int_small by (unfold C.is_int; lia). exact Hm. }
  assert (Hle : INODES_PER_BLOCK * 76 <= BLOCK_SIZE).
  { unfold INODES_PER_BLOCK, INODE_SIZE. rewrite Z.mul_comm.
    apply Z.mul_div_le. lia. }
  rewrite to_size_t_small by lia.
  rewrite bytes_at_in by (unfold len; lia).
  eapply returns_bind; [now apply returns_lift |].
  intros bs _. now apply returns_ret.
Qed.

Lemma returns_get_directory_block_addr ino i :
  returns (get_directory_block_addr ino i) (fun _ => True).
Proof.
  unfold get_directory_block_addr, INODE_SIZE in *.
  destruct (i <? DIRECT_POINTERS); [now apply returns_ret |].
  assert (Hp : 1 <= BLOCK_SIZE / 4 < 2 ^ 32).
  { split; [apply Z.div_le_lower_bound; lia | apply Z.div_lt_upper_bound; lia]. }
  rewrite (to_u32_small (BLOCK_SIZE / 4)) by lia.
  destruct (Z.eqb_spec (BLOCK_SIZE / 4) 0); [lia |].
  destruct (_ <? 2); [| now apply returns_ret].
  destruct (_ =? 0); [now apply returns_ret |].
  eapply returns_bind; [apply returns_read_block |].
  intros [pointers |] Hlen; [| now apply returns_ret].
  specialize (Hlen pointers eq_refl).
  set (k := C.to_u32 (i - DIRECT_POINTERS)).
  pose proof (Z.mod_pos_bound k (BLOCK_SIZE / 4)
                (Z.lt_le_trans 0 1 _ Z.lt_0_1 (proj1 Hp))) as Ho.
  pose proof (Z.mul_div_le BLOCK_SIZE 4 eq_refl) as Hle.
  set (p := BLOCK_SIZE / 4) in *. clearbody p.
  set (o := k mod p) in *. clearbody o.
  destruct (load32_in pointers (4 * o)) as [v Hv]; [lia | unfold len; lia |].
  rewrite Hv. now apply returns_ret.
Qed.

Lemma find_entry_slots_defined dir_block name count : forall j,
  length dir_block = Z.to_nat BLOCK_SIZE ->
  len name < DIR_ENTRY_SIZE ->
  0 <= j -> j + Z.of_nat count <= ENTRIES_PER_BLOCK ->
  exists r, find_entry_slots count j dir_block name = Some r.
Proof.
  unfold DIR_ENTRY_SIZE, INODE_SIZE in *. intros j Hlen Hname.
  assert (Hle : 32 * ENTRIES_PER_BLOCK <= BLOCK_SIZE).
  { unfold ENTRIES_PER_BLOCK, DIR_ENTRY_SIZE. apply Z.mul_div_le. lia. }
  revert j. induction count as [| count IH]; intros j Hj Hcount;
    cbn [find_entry_slots]; [eauto |].
  unfold entry_inode_num, DIR_ENTRY_SIZE, DIR_INODE_OFFSET.
  destruct (load32_in dir_block (32 * j + 28)) as [n Hn];
    [lia | unfold len; lia |].
  rewrite Hn. destruct (n =? 0); [apply IH; lia |].
  destruct (strcmp_eq_defined name (entry_name_mem dir_block j)) as [b Hb].
  { unfold entry_name_mem, DIR_ENTRY_SIZE. rewrite length_skipn.
    unfold len in Hname. lia. }
  rewrite Hb. destruct b; [eauto | apply IH; lia].
Qed.

Lemma returns_find_entry_blocks ino name count :
  len name < DIR_ENTRY_SIZE ->
  forall i, returns (find_entry_blocks count i ino name) resolver_status.
Proof.
  intros Hname. induction count as [| count IH]; intros i; cbn [find_entry_blocks].
  - apply returns_ret. now left.
  - eapply returns_bind; [apply returns_get_directory_block_addr |].
    intros addr _. destruct (addr =? 0); [apply IH |].
    eapply returns_bind; [apply returns_read_block |].
    intros [dir_block |] Hlen; [| apply IH]. specialize (Hlen dir_block eq_refl).
    destruct (find_entry_slots_defined dir_block name
                (Z.to_nat ENTRIES_PER_BLOCK) 0 Hlen Hname (Z.le_refl 0)) as [r Hr].
    { assert (0 <= ENTRIES_PER_BLOCK).
      { unfold ENTRIES_PER_BLOCK, DIR_ENTRY_SIZE, INODE_SIZE in *.
        apply Z.div_pos; lia. }
      lia. }
    eapply returns_bind; [apply (returns_lift _ _ Hr) |].
    intros a <-. destruct r as [n |]; [| apply IH].
    apply returns_ret. right. eauto.
Qed.

Lemma returns_find_entry_in_directory ino name :
  len name < DIR_ENTRY_SIZE ->
  returns (find_entry_in_directory ino name) resolver_status.
Proof.
  intros Hname. unfold find_entry_in_directory.
  destruct (negb _); [apply returns_ret; now left |].
  now apply returns_find_entry_blocks.
Qed.

Lemma returns_walk toks :
  Forall (fun token => len token < DIR_ENTRY_SIZE) toks ->
  forall current_ino, returns (walk toks current_ino) resolver_status.
Proof.
  induction 1 as [| token toks Htoken _ IH]; intros current_ino; cbn [walk].
  - apply returns_ret. right. eauto.
  - eapply returns_bind; [apply returns_read_inode |].
    intros [current_inode | code] _; [| apply returns_ret; now left].
    eapply returns_bind; [now apply returns_find_entry_in_directory |].
    intros [n | code] _; [apply IH | apply returns_ret; now left].
Qed.

Lemma returns_find_inode_by_path c rest :
  Forall (fun token => len token < DIR_ENTRY_SIZE) (tokens rest) ->
  returns (find_inode_by_path (c :: rest)) resolver_status.
Proof.
  intros Htoks. unfold find_inode_by_path.
  destruct (negb _); [apply returns_ret; now left |].
  destruct rest; [apply returns_ret; right; eauto | now apply returns_walk].
Qed.

End Defined.

(** C7, as amended.  The path resolver has no check on the length of a
    component.  On an absolute path with a component longer than
    [MAX_FILENAME_LEN] it looks that component up like any other: whenever
    it returns, it returns status 0 with an inode number or the status -1,
    never [-ENAMETOOLONG], and leaves the state as it was; and it does return
    when every component is shorter than a directory entry (32 bytes), so
    that [strcmp] stays inside the block buffer. *)
Theorem long_component_never_name_too_long (path : list byte) (s : fs) :
  has_long_component path ->
  (forall r s',
     find_inode_by_path path s = Returns r s' ->
     s' = s /\ resolver_status r /\ r <> Err (- ENAMETOOLONG))
  /\
  (INODE_SIZE <= BLOCK_SIZE < 2 ^ 31 ->
   (forall token, In token (tokens (tl path)) -> len token < DIR_ENTRY_SIZE) ->
   exists r,
     find_inode_by_path path s = Returns r s /\
     resolver_status r /\ r <> Err (- ENAMETOOLONG)).
Proof.
  intros (c & rest & token & -> & Hin & Hlong).
  assert (Hne : forall r, resolver_status r -> r <> Err (- ENAMETOOLONG)).
  { intros r [-> | [n ->]]; discriminate. }
  split.
  - intros r s' Hrun.
    destruct (reads_only_find_inode_by_path (c :: rest) s) as [Hu | (a & Ha & Hst)].
    + rewrite Hu in Hrun. discriminate.
    + rewrite Ha in Hrun. injection Hrun as -> ->. auto.
  - intros Hbs Hshort. cbn [tl] in Hshort.
    destruct (returns_find_inode_by_path Hbs c rest (proj2 (Forall_forall _ _) Hshort) s)
      as (r & Hr & Hst).
    exists r. auto.
Qed.

(** ** Paths *)

Lemma tokens_from_split cur a b :
  tokens_from cur (a ++ slash :: b) = tokens_from cur a ++ tokens b.
Proof.
  revert cur. induction a as [| c a IH]; intros cur; cbn [app tokens_from].
  - unfold tokens. change (Byte.eqb slash slash) with true. cbv iota.
    destruct cur; reflexivity.
  - destruct (Byte.eqb c slash).
    + destruct cur; rewrite IH; reflexivity.
    + apply IH.
Qed.

(** A separator cuts the token list in two. *)
Lemma tokens_split a b : tokens (a ++ slash :: b) = tokens a ++ tokens b.
Proof. apply tokens_from_split. Qed.

Lemma byte_eqb_slash c : Byte.eqb c slash = false <-> c <> slash.
Proof.
  split.
  - intros H ->. discriminate.
  - intros H. destruct (Byte.eqb c slash) eqn:E; [| reflexivity].
    apply Byte.byte_dec_bl in E. contradiction.
Qed.

Lemma tokens_from_component cur c :
  ~ In slash c -> tokens_from cur c
                  = match rev c ++ cur with [] => [] | _ => [rev (rev c ++ cur)] end.
Proof.
  revert cur. induction c as [| x c IH]; intros cur Hc; cbn [tokens_from].
  - cbn [rev app]. destruct cur; reflexivity.
  - assert (Hx : Byte.eqb x slash = false).
    { apply byte_eqb_slash. intros ->. apply Hc. now left. }
    rewrite Hx, IH by (intros H; apply Hc; now right).
    cbn [rev]. rewrite <- app_assoc. reflexivity.
Qed.

(** A component is its own, single token. *)
Lemma tokens_component c : is_component c -> tokens c = [c].
Proof.
  intros [Hne Hc]. unfold tokens. rewrite tokens_from_component by exact Hc.
  rewrite app_nil_r. destruct (rev c) eqn:E.
  - apply (f_equal (@rev byte)) in E. rewrite rev_involutive in E. contradiction.
  - rewrite <- E, rev_involutive. reflexivity.
Qed.

Lemma tokens_slash b : tokens (slash :: b) = tokens b.
Proof. apply (tokens_split [] b). Qed.

(** X1.  Cutting a path into tokens undoes joining components with
    separators: the tokens of [/c1/c2/.../cn] are [c1, ..., cn], when no
    component is empty or contains a separator. *)
Theorem tokens_join (components : list (list byte)) :
  Forall is_component components -> tokens (join components) = components.
Proof.
  induction 1 as [| c components Hc _ IH]; [reflexivity |].
  cbn [join]. rewrite tokens_slash.
  destruct components as [| c' components].
  - cbn [join]. rewrite app_nil_r. now apply tokens_component.
  - cbn [join] in *. rewrite tokens_split, tokens_component by exact Hc.
    rewrite tokens_slash in IH. rewrite IH. reflexivity.
Qed.

(** Every token is a component. *)
Lemma tokens_from_components str : forall cur,
  ~ In slash cur -> Forall is_component (tokens_from cur str).
Proof.
  assert (Hrev : forall cur : list byte,
             cur <> [] -> ~ In slash cur -> is_component (rev cur)).
  { intros cur Hne Hc. split.
    - intros E. apply Hne. apply (f_equal (@rev byte)) in E.
      now rewrite rev_involutive in E.
    - intros H. apply Hc. now apply in_rev. }
  induction str as [| c str IH]; intros cur Hcur; cbn [tokens_from].
  - destruct cur as [| x cur]; [apply Forall_nil |].
    apply Forall_cons; [| apply Forall_nil]. now apply Hrev.
  - destruct (Byte.eqb c slash) eqn:E.
    + destruct cur as [| x cur]; [apply IH; intros [] |].
      apply Forall_cons; [now apply Hrev | apply IH; intros []].
    + apply IH. intros [-> | H]; [| now apply Hcur].
      discriminate.
Qed.

Lemma tokens_components str : Forall is_component (tokens str).
Proof. apply tokens_from_components. intros []. Qed.

Lemma tokens_slashes n : tokens (repeat slash n) = [].
Proof.
  induction n as [| n IH]; [reflexivity |].
  cbn [repeat]. now rewrite tokens_slash.
Qed.

(** The resolver walks the tokens of what follows the first separator. *)
Lemma find_inode_by_path_walk rest s :
  find_inode_by_path (slash :: rest) s = walk (tokens rest) 0 s.
Proof.
  unfold find_inode_by_path. change (Byte.eqb slash slash) with true.
  cbn [negb]. destruct rest; reflexivity.
Qed.

(** Walking a list of tokens is walking its first part and going on from
    the inode reached. *)
Lemma walk_app toks1 toks2 : forall current_ino s,
  walk (toks1 ++ toks2) current_ino s
  = (r <- walk toks1 current_ino ;;
     match r with
     | Ok n => walk toks2 n
     | Err _ => ret (Err (-1))
     end) s.
Proof.
  induction toks1 as [| token toks1 IH]; intros current_ino s; [reflexivity |].
  cbn [app walk]. unfold bind.
  destruct (read_inode (C.to_int current_ino) s) as [[ino | code] s1 |];
    try reflexivity.
  destruct (find_entry_in_directory ino token s1) as [[n | code] s2 |];
    try reflexivity.
  rewrite IH. reflexivity.
Qed.

(** X2.  Doubled separators and a separator at the end change nothing:
    a path made of separators alone resolves to the root, inode 0, without
    any access to the device, and [p//q], [p/q] resolve alike, as do [p/]
    and [p]. *)
Theorem separators_collapse (a b : list byte) (n : nat) (s : fs) :
  find_inode_by_path (slash :: repeat slash n) s = Returns (Ok 0) s /\
  find_inode_by_path (slash :: a ++ slash :: slash :: b) s
  = find_inode_by_path (slash :: a ++ slash :: b) s /\
  find_inode_by_path (slash :: a ++ [slash]) s
  = find_inode_by_path (slash :: a) s.
Proof.
  rewrite !find_inode_by_path_walk. split; [| split].
  - rewrite tokens_slashes. reflexivity.
  - rewrite !tokens_split, tokens_slash. reflexivity.
  - rewrite tokens_split. change (tokens []) with (@nil (list byte)).
    now rewrite app_nil_r.
Qed.

(** X3.  A path that is empty or does not begin with a separator is
    refused with status -1, and the state is not touched. *)
Theorem relative_path_refused (path : list byte) (s : fs) :
  hd_error path <> Some slash ->
  find_inode_by_path path s = Returns (Err (-1)) s.
Proof.
  intros H. unfold find_inode_by_path. destruct path as [| c rest]; [reflexivity |].
  destruct (Byte.eqb c slash) eqn:E; [| reflexivity].
  apply Byte.byte_dec_bl in E. subst c. now contradiction H.
Qed.

Lemma find_inode_by_path_split (a b : list byte) (s : fs) :
  find_inode_by_path (slash :: a ++ slash :: b) s
  = (r <- find_inode_by_path (slash :: a) ;;
     match r with
     | Ok n => walk (tokens b) n
     | Err _ => ret (Err (-1))
     end) s.
Proof.
  rewrite find_inode_by_path_walk, tokens_split, walk_app.
  unfold bind. now rewrite find_inode_by_path_walk.
Qed.

(** X4.  Resolution composes: resolving [p/q] is resolving [p] and walking
    the components of [q] from the inode reached; when [p] does not resolve,
    neither does [p/q], with status -1. *)
Theorem resolution_composes (a b : list byte) (s : fs) :
  find_inode_by_path (slash :: a ++ slash :: b) s
  = (r <- find_inode_by_path (slash :: a) ;;
     match r with
     | Ok n => walk (tokens b) n
     | Err _ => ret (Err (-1))
     end) s.
Proof. apply find_inode_by_path_split. Qed.

(** X5.  A file cannot be used as a directory: when [p] resolves to an
    inode that is not a directory, [p/q] fails with status -1 for every [q]
    that has a component. *)
Theorem regular_file_has_no_children (a b : list byte) (s : fs) (n : Z) (ino : inode) :
  find_inode_by_path (slash :: a) s = Returns (Ok n) s ->
  read_inode (C.to_int n) s = Returns (Ok ino) s ->
  S_ISDIR (mode ino) = false ->
  tokens b <> [] ->
  find_inode_by_path (slash :: a ++ slash :: b) s = Returns (Err (-1)) s.
Proof.
  intros Hfind Hread Hmode Hb. rewrite find_inode_by_path_split.
  rewrite (bind_returns _ _ _ _ _ Hfind). cbv beta iota.
  destruct (tokens b) as [| token toks]; [contradiction |].
  cbn [walk]. rewrite (bind_returns _ _ _ _ _ Hread). cbv beta iota.
  unfold find_entry_in_directory. rewrite Hmode. reflexivity.
Qed.

(** ** More on the inode store *)

Lemma same_block_other_slot n m p :
  0 < p -> m <> n -> m / p = n / p ->
  m mod p * INODE_SIZE + INODE_SIZE <= n mod p * INODE_SIZE \/
  n mod p * INODE_SIZE + INODE_SIZE <= m mod p * INODE_SIZE.
Proof.
  intros Hp Hne Hq. unfold INODE_SIZE.
  pose proof (Z.div_mod m p ltac:(lia)) as Hm.
  pose proof (Z.div_mod n p ltac:(lia)) as Hn.
  rewrite Hq in Hm.
  set (q := n / p) in *. set (rm := m mod p) in *. set (rn := n mod p) in *.
  clearbody q rm rn. lia.
Qed.

(** X6.  [write_inode] of one inode leaves every other inode as it was:
    what [read_inode] returned for another number in range before the
    write, it returns after it; the variable [sb] is not touched. *)
Theorem write_inode_keeps_other_inodes (n m : Z) (ino : inode) (s s' : fs) (st : Z)
  (r : result inode) :
  INODE_SIZE <= BLOCK_SIZE ->
  0 <= n < INODE_COUNT -> 0 <= m < INODE_COUNT -> m <> n ->
  write_inode n ino s = Returns st s' ->
  read_inode m s = Returns r s ->
  read_inode m s' = Returns r s' /\ sb s' = sb s.
Proof.
  intros Hb Hn Hm Hne Hwrite Hread.
  rewrite write_inode_at in Hwrite by assumption.
  rewrite read_inode_at in Hread |- * by assumption.
  set (bn := INODE_TABLE_START_BLOCK + n / INODES_PER_BLOCK) in *.
  set (bm := INODE_TABLE_START_BLOCK + m / INODES_PER_BLOCK) in *.
  destruct (disk_read (disk s) bn) as [blk |] eqn:Hbn.
  2:{ injection Hwrite as <- <-. split; [exact Hread | reflexivity]. }
  destruct (memcpy_to blk _ (encode_inode ino)) as [blk' |] eqn:Hcpy;
    [| discriminate].
  injection Hwrite as <- <-. split; [| reflexivity].
  cbn [disk set_disk]. rewrite disk_read_update.
  destruct (Z.eqb_spec bm bn) as [E | E].
  - rewrite (disk_read_on _ _ _ Hbn). rewrite E, Hbn in Hread.
    assert (Hfit : fit blk' = blk').
    { apply fit_id. pose proof (memcpy_to_len _ _ _ _ Hcpy) as L.
      unfold len in L. apply Nat2Z.inj in L. rewrite L.
      apply (disk_read_length _ _ _ Hbn). }
    rewrite Hfit.
    rewrite (bytes_at_memcpy_other _ _ _ _ _ _ Hcpy).
    + destruct (bytes_at blk _ _); [| discriminate].
      injection Hread as <-. reflexivity.
    + rewrite len_encode_inode. apply same_block_other_slot; try assumption.
      * destruct (inode_location n Hb Hn) as (H0 & _).
        apply Z.eqb_neq in H0.
        assert (0 <= INODES_PER_BLOCK).
        { unfold INODES_PER_BLOCK, INODE_SIZE in *. apply Z.div_pos; lia. }
        lia.
      * unfold bm, bn in E. lia.
  - destruct (disk_read (disk s) bm) as [blkm |]; [| now injection Hread as <-].
    destruct (bytes_at blkm _ _); [| discriminate].
    injection Hread as <-. reflexivity.
Qed.

(** X7.  With 4096-byte blocks [fs_mount] reserves 608 blocks for the
    inode table, so that the data area starts at block 612; but
    [read_inode] and [write_inode] place 53 inodes in a block, and the 608
    blocks hold the inodes 0 to 32223 only.  A successful [write_inode] of
    a number from 32224 on writes the inode into a block of the data
    area. *)
Theorem inode_table_overruns_data_area (n : Z) (ino : inode) (s s' : fs) :
  BLOCK_SIZE = 4096 ->
  32224 <= n < INODE_COUNT ->
  write_inode n ino s = Returns 0 s' ->
  inode_table_blocks format_sb = 608 /\
  data_blocks_start format_sb = 612 /\
  exists b blk',
    b = INODE_TABLE_START_BLOCK + n / 53 /\
    data_blocks_start format_sb <= b /\
    disk_read (disk s') b = Some blk' /\
    bytes_at blk' (n mod 53 * INODE_SIZE) INODE_SIZE = Some (encode_inode ino) /\
    (forall b', b' <> b -> disk_read (disk s') b' = disk_read (disk s) b').
Proof.
  intros Hbs Hn Hwrite.
  assert (Hb : INODE_SIZE <= BLOCK_SIZE < 2 ^ 31)
    by (rewrite Hbs; unfold INODE_SIZE; lia).
  destruct (format_layout Hb) as (_ & Hitb & Hstart & _).
  rewrite Hbs in Hitb. change ((INODE_COUNT * INODE_SIZE + 4096 - 1) / 4096) with 608 in Hitb.
  rewrite Hitb in Hstart. change (INODE_TABLE_START_BLOCK + 608) with 612 in Hstart.
  split; [exact Hitb | split; [exact Hstart |]].
  rewrite write_inode_at in Hwrite by (unfold INODE_COUNT in *; lia).
  assert (Hp : INODES_PER_BLOCK = 53) by (unfold INODES_PER_BLOCK; now rewrite Hbs).
  rewrite Hp in Hwrite.
  set (b := INODE_TABLE_START_BLOCK + n / 53) in *.
  destruct (disk_read (disk s) b) as [blk |] eqn:Hread; [| discriminate].
  destruct (memcpy_to blk _ (encode_inode ino)) as [blk' |] eqn:Hcpy; [| discriminate].
  injection Hwrite as <-. exists b, blk'. cbn [disk set_disk].
  assert (Hfit : fit blk' = blk').
  { apply fit_id. pose proof (memcpy_to_len _ _ _ _ Hcpy) as L.
    unfold len in L. apply Nat2Z.inj in L. rewrite L.
    apply (disk_read_length _ _ _ Hread). }
  split; [reflexivity | split; [| split; [| split]]].
  - rewrite Hstart. unfold b, INODE_TABLE_START_BLOCK.
    assert (608 <= n / 53) by (apply Z.div_le_lower_bound; lia). lia.
  - rewrite disk_read_update, Z.eqb_refl, (disk_read_on _ _ _ Hread), Hfit.
    reflexivity.
  - rewrite <- (len_encode_inode ino) at 2.
    apply (bytes_at_memcpy_same _ _ _ _ Hcpy).
  - intros b' Hb'. rewrite disk_read_update.
    destruct (Z.eqb_spec b' b); [contradiction | reflexivity].
Qed.

(** ** More on the allocator *)

Lemma zrange_S a k : zrange a (S k) = a :: zrange (a + 1) k.
Proof.
  unfold zrange. cbn [seq map]. f_equal; [lia |].
  rewrite <- seq_shift, map_map. apply map_ext. intros i. lia.
Qed.

(** On a bitmap whose set bits are the first [a], [alloc_inode] returns
    [a] and leaves a bitmap whose set bits are the first [a + 1]. *)
Lemma alloc_inode_next s bitmap a :
  disk_read (disk s) INODE_BITMAP_BLOCK = Some bitmap ->
  first_bits_set bitmap (num_inodes (sb s)) a ->
  0 <= a < num_inodes (sb s) -> a < 8 * BLOCK_SIZE ->
  exists s' bitmap',
    alloc_inode s = Returns a s' /\
    sb s' = sb s /\
    disk_read (disk s') INODE_BITMAP_BLOCK = Some bitmap' /\
    first_bits_set bitmap' (num_inodes (sb s)) (a + 1) /\
    (forall n, n <> INODE_BITMAP_BLOCK ->
       disk_read (disk s') n = disk_read (disk s) n).
Proof.
  intros Hread Hbits Ha Hlen.
  destruct (alloc_inode_found s bitmap Hread) as (k & b & Hk & Hkc & Hlow & Hb & Hrun).
  { exists a. repeat split; try lia. rewrite Hbits by lia. apply Z.ltb_irrefl. }
  assert (k = a).
  { rewrite Hbits in Hkc by lia. apply Z.ltb_ge in Hkc.
    destruct (Z.eq_dec k a) as [E | E]; [exact E |].
    specialize (Hlow a ltac:(lia)). rewrite Hbits, Z.ltb_irrefl in Hlow by lia.
    discriminate. }
  subst k.
  destruct (after_alloc_bitmap s bitmap a b Hread (proj1 Ha) Hb)
    as (bitmap' & Hread' & _ & Hbits' & Hother).
  exists (after_alloc s bitmap a b), bitmap'.
  repeat split; try assumption.
  intros j Hj. rewrite Hbits', Hbits by exact Hj.
  destruct (Z.eqb_spec j a), (Z.ltb_spec j a), (Z.ltb_spec j (a + 1));
    try reflexivity; lia.
Qed.

(** X8.  Allocation is sequential.  On a mounted file system whose inode
    bitmap has exactly its first [a] bits set, [k] calls of [alloc_inode] in
    a row return [a], [a + 1], ..., [a + k - 1] and leave exactly the first
    [a + k] bits set, touching no other block; once all [INODE_COUNT] bits
    are set, the next call returns [-ENOSPC]. *)
Theorem alloc_inodes_in_sequence (k : nat) : forall (s : fs) (bitmap : block) (a : Z),
  disk_read (disk s) INODE_BITMAP_BLOCK = Some bitmap ->
  num_inodes (sb s) = INODE_COUNT ->
  INODE_COUNT <= 8 * BLOCK_SIZE ->
  first_bits_set bitmap INODE_COUNT a ->
  0 <= a -> a + Z.of_nat k <= INODE_COUNT ->
  exists s' bitmap',
    alloc_inodes k s = Returns (zrange a k) s' /\
    sb s' = sb s /\
    disk_read (disk s') INODE_BITMAP_BLOCK = Some bitmap' /\
    first_bits_set bitmap' INODE_COUNT (a + Z.of_nat k) /\
    (forall n, n <> INODE_BITMAP_BLOCK ->
       disk_read (disk s') n = disk_read (disk s) n) /\
    (a + Z.of_nat k = INODE_COUNT -> alloc_inode s' = Returns (- ENOSPC) s').
Proof.
  induction k as [| k IH]; intros s bitmap a Hread Hn Hfit Hbits Ha Hk.
  - exists s, bitmap. rewrite Z.add_0_r. repeat split; try assumption.
    intros E. apply (alloc_inode_full s bitmap Hread).
    intros j Hj. rewrite Hn in Hj. rewrite Hbits by exact Hj.
    apply Z.ltb_lt. lia.
  - destruct (alloc_inode_next s bitmap a Hread) as (s1 & bitmap1 & Hrun & Hsb & Hread1 & Hbits1 & Hother1).
    { now rewrite Hn. }
    { rewrite Hn. lia. }
    { lia. }
    rewrite Hn in Hbits1.
    destruct (IH s1 bitmap1 (a + 1) Hread1) as (s' & bitmap' & Hrun' & Hsb' & Hread' & Hbits' & Hother' & Hfull);
      try assumption; try lia.
    { now rewrite Hsb. }
    exists s', bitmap'. replace (a + Z.of_nat (S k)) with (a + 1 + Z.of_nat k) by lia.
    repeat split; try assumption.
    + cbn [alloc_inodes]. rewrite (bind_returns _ _ _ _ _ Hrun).
      rewrite (bind_returns _ _ _ _ _ Hrun'). now rewrite zrange_S.
    + now rewrite Hsb'.
    + intros n Hne. rewrite Hother', Hother1 by exact Hne. reflexivity.
Qed.

Lemma char_clear_clear_bit b k :
  0 <= k < 8 ->
  Z.testbit (byte.unsigned b) k = false ->
  byte.of_Z (Z.land (C.char_val b) (Z.lnot (Z.shiftl 1 k))) = b.
Proof.
  intros Hk Hb. apply byte.unsigned_inj. rewrite char_clear_bit by assumption.
  apply Z.bits_inj'. intros n Hn.
  rewrite Z.ldiff_spec, Z.pow2_bits_eqb by lia.
  destruct (Z.eqb_spec k n) as [<- | Hne].
  - rewrite Hb. reflexivity.
  - apply andb_true_r.
Qed.

Lemma free_inode_at (n : Z) (s : fs) (bitmap : block) :
  disk_read (disk s) INODE_BITMAP_BLOCK = Some bitmap ->
  0 <= n < 8 * BLOCK_SIZE ->
  exists s' bitmap',
    free_inode n s = Returns tt s' /\
    sb s' = sb s /\
    disk_read (disk s') INODE_BITMAP_BLOCK = Some bitmap' /\
    (forall j, bitmap_bit bitmap' j = negb (j =? n) && bitmap_bit bitmap j) /\
    (forall m, m <> INODE_BITMAP_BLOCK ->
       disk_read (disk s') m = disk_read (disk s) m) /\
    (bitmap_bit bitmap n = false -> bitmap' = bitmap).
Proof.
  intros Hread Hn.
  assert (Hlen : len bitmap = BLOCK_SIZE) by (apply (disk_read_len _ _ _ ltac:(lia) Hread)).
  destruct (get_byte_in bitmap (n / 8)) as [b Hb].
  { split; [apply Z.div_pos; lia | apply Z.div_lt_upper_bound; lia]. }
  set (b' := byte.of_Z (Z.land (C.char_val b) (Z.lnot (Z.shiftl 1 (n mod 8))))).
  pose proof (put_byte_in bitmap (n / 8) b' (get_byte_range _ _ _ Hb)) as Hput.
  set (bitmap' := List.upd bitmap (Z.to_nat (n / 8)) b') in *.
  assert (Hfit : fit bitmap' = bitmap').
  { apply fit_id. unfold bitmap'. rewrite upd_length.
    apply (disk_read_length _ _ _ Hread). }
  exists (set_disk s (fun m => if m =? INODE_BITMAP_BLOCK then fit bitmap' else disk s m)),
    bitmap'.
  cbn [sb disk set_disk]. split; [| split; [reflexivity | split; [| split; [| split]]]].
  - unfold free_inode. rewrite (bind_returns _ _ s (Some bitmap) s) by
      (unfold read_block; now rewrite Hread).
    rewrite (bind_returns _ _ s bitmap s) by reflexivity.
    destruct (Z.ltb_spec n 0); [lia |].
    rewrite Z.quot_div_nonneg, Z.rem_mod_nonneg by lia.
    rewrite (bind_returns _ _ s b s) by (now rewrite Hb).
    fold b'. rewrite (bind_returns _ _ s bitmap' s) by (now rewrite Hput).
    unfold bind. rewrite write_block_on by (apply (disk_read_on _ _ _ Hread)).
    reflexivity.
  - rewrite disk_read_update, Z.eqb_refl, (disk_read_on _ _ _ Hread), Hfit.
    reflexivity.
  - apply (bitmap_bit_clear _ _ _ _ _ (proj1 Hn) Hb Hput).
    intros j Hj. apply testbit_clear_bit; [apply Z.mod_pos_bound; lia | assumption].
  - intros m Hm. rewrite disk_read_update.
    destruct (Z.eqb_spec m INODE_BITMAP_BLOCK); [contradiction | reflexivity].
  - intros Hclear. rewrite (bitmap_bit_byte _ _ _ Hb) in Hclear.
    assert (Eb : b' = b).
    { apply char_clear_clear_bit; [apply Z.mod_pos_bound; lia | exact Hclear]. }
    apply get_byte_ext.
    + intros j. rewrite (get_put_byte _ _ _ _ j Hput), Eb.
      destruct (Z.eqb_spec j (n / 8)) as [-> | ]; [now rewrite Hb | reflexivity].
    + apply (put_byte_len _ _ _ _ Hput).
Qed.

(** X9.  [free_inode] of a number inside the bitmap block clears that bit
    and no other, touches no other block and not [sb]; when the bit was
    clear already, the bitmap block is left as it was. *)
Theorem free_inode_clears_one_bit (n : Z) (s : fs) (bitmap : block) :
  disk_read (disk s) INODE_BITMAP_BLOCK = Some bitmap ->
  0 <= n < 8 * BLOCK_SIZE ->
  exists s' bitmap',
    free_inode n s = Returns tt s' /\
    sb s' = sb s /\
    disk_read (disk s') INODE_BITMAP_BLOCK = Some bitmap' /\
    (forall j, bitmap_bit bitmap' j = negb (j =? n) && bitmap_bit bitmap j) /\
    (forall m, m <> INODE_BITMAP_BLOCK ->
       disk_read (disk s') m = disk_read (disk s) m) /\
    (bitmap_bit bitmap n = false -> bitmap' = bitmap).
Proof. intros Hread Hn. exact (free_inode_at n s bitmap Hread Hn). Qed.

(** X10.  A freed inode number is handed out again: on a mounted file
    system where every inode below [n] is in use, [free_inode n] followed by
    [alloc_inode] returns [n], and the bitmap then differs from the one
    before the two calls at most in bit [n], which is set. *)
Theorem free_then_alloc_reuses (n : Z) (s : fs) (bitmap : block) :
  disk_read (disk s) INODE_BITMAP_BLOCK = Some bitmap ->
  num_inodes (sb s) = INODE_COUNT ->
  INODE_COUNT <= 8 * BLOCK_SIZE ->
  0 <= n < INODE_COUNT ->
  (forall j, 0 <= j < n -> bitmap_bit bitmap j = true) ->
  exists s1 s2 bitmap2,
    free_inode n s = Returns tt s1 /\
    alloc_inode s1 = Returns n s2 /\
    disk_read (disk s2) INODE_BITMAP_BLOCK = Some bitmap2 /\
    (forall j, bitmap_bit bitmap2 j = (j =? n) || bitmap_bit bitmap j) /\
    (forall m, m <> INODE_BITMAP_BLOCK ->
       disk_read (disk s2) m = disk_read (disk s) m).
Proof.
  intros Hread Hni Hfit Hn Hlow.
  destruct (free_inode_at n s bitmap Hread ltac:(lia))
    as (s1 & bitmap1 & Hfree & Hsb1 & Hread1 & Hbits1 & Hother1 & _).
  destruct (alloc_inode_found s1 bitmap1 Hread1) as (k & b & Hk & Hkc & Hlowk & Hb & Hrun).
  { exists n. rewrite Hsb1, Hni. repeat split; try lia.
    rewrite Hbits1, Z.eqb_refl. reflexivity. }
  assert (k = n).
  { destruct (Z.lt_trichotomy k n) as [Hlt | [E | Hgt]]; [| exact E |].
    - rewrite Hbits1, Hlow in Hkc by lia.
      destruct (Z.eqb_spec k n); [lia | discriminate].
    - specialize (Hlowk n ltac:(lia)). rewrite Hbits1, Z.eqb_refl in Hlowk.
      discriminate. }
  subst k.
  destruct (after_alloc_bitmap s1 bitmap1 n b Hread1 (proj1 Hn) Hb)
    as (bitmap2 & Hread2 & _ & Hbits2 & Hother2).
  exists s1, (after_alloc s1 bitmap1 n b), bitmap2.
  repeat split; try assumption.
  - intros j. rewrite Hbits2, Hbits1. destruct (j =? n); reflexivity.
  - intros m Hm. rewrite Hother2, Hother1 by exact Hm. reflexivity.
Qed.

(** ** Inodes read from the device *)

Lemma Forall_firstn_of {A} (P : A -> Prop) (l : list A) : forall n,
  Forall P l -> Forall P (firstn n l).
Proof.
  induction l as [| x l IH]; intros [| n] H; cbn [firstn]; try apply Forall_nil.
  inversion H; subst. apply Forall_cons; [assumption | now apply IH].
Qed.

Lemma Forall_skipn_of {A} (P : A -> Prop) (l : list A) : forall n,
  Forall P l -> Forall P (skipn n l).
Proof.
  induction l as [| x l IH]; intros [| n] H; cbn [skipn]; try assumption.
  inversion H; subst. now apply IH.
Qed.

Lemma is_u32_nth ws k : Forall is_u32 ws -> is_u32 (nth k ws 0).
Proof.
  intros H. destruct (nth_in_or_default k ws 0) as [Hin | ->].
  - exact (proj1 (Forall_forall _ _) H _ Hin).
  - unfold is_u32. lia.
Qed.

Lemma words_of_u32 n : forall bs,
  Forall is_u32 (words_of n bs) /\ length (words_of n bs) = n.
Proof.
  induction n as [| n IH]; intros bs; cbn [words_of length].
  - split; [apply Forall_nil | reflexivity].
  - destruct (IH (skipn 4 bs)) as [HF HL]. split; [| now rewrite HL].
    apply Forall_cons; [| exact HF].
    pose proof (le_combine_bound (firstn 4 bs)) as Hb.
    pose proof (firstn_le_length 4 bs) as Hl.
    assert (2 ^ (8 * Z.of_nat (length (firstn 4 bs))) <= 2 ^ 32)
      by (apply Z.pow_le_mono_r; lia).
    unfold is_u32. lia.
Qed.

(** Whatever bytes an inode is read from, its fields are 32-bit values and
    its pointer arrays have their lengths. *)
Lemma wf_decode_inode bs : wf_inode (decode_inode bs).
Proof.
  destruct (words_of_u32 19 bs) as [HF HL].
  unfold wf_inode, decode_inode.
  cbn [size atime mtime ctime mode direct_block_pointer indirect_block_pointer].
  set (w := words_of 19 bs) in *.
  do 5 (split; [now apply is_u32_nth |]).
  split; [| split; [| split]].
  - rewrite length_firstn, length_skipn, HL. reflexivity.
  - rewrite length_skipn, HL. reflexivity.
  - now apply Forall_firstn_of, Forall_skipn_of.
  - now apply Forall_skipn_of.
Qed.

Lemma wf_update_timestamp now ino access modify change :
  wf_inode ino -> wf_inode (update_timestamp now ino access modify change).
Proof.
  assert (Hu : is_u32 (C.to_u32 now)) by (apply Z.mod_pos_bound; lia).
  intros (Hsz & Hat & Hmt & Hct & Hmd & Hrest). unfold wf_inode, update_timestamp.
  cbn [size atime mtime ctime mode direct_block_pointer indirect_block_pointer].
  split; [exact Hsz |].
  split; [destruct access; assumption |].
  split; [destruct modify; assumption |].
  split; [destruct change; assumption |].
  split; [exact Hmd | exact Hrest].
Qed.

(** What [read_inode] returns is well formed, and the state is as it
    was. *)
Lemma read_inode_wf n s ino s' :
  read_inode n s = Returns (Ok ino) s' -> s' = s /\ wf_inode ino.
Proof.
  unfold read_inode. destruct (n >=? INODE_COUNT); [discriminate |].
  destruct (INODES_PER_BLOCK =? 0); [discriminate |].
  unfold bind, read_block. destruct (disk_read _ _); [| discriminate].
  destruct (bytes_at _ _ _); cbn [lift ret]; [| discriminate].
  intros [= <- <-]. split; [reflexivity | apply wf_decode_inode].
Qed.

(** Writing a well-formed inode over one that could be read. *)
Lemma write_inode_over n ino old s :
  INODE_SIZE <= BLOCK_SIZE -> 0 <= n ->
  read_inode n s = Returns (Ok old) s ->
  wf_inode ino ->
  exists s',
    write_inode n ino s = Returns 0 s' /\
    read_inode n s' = Returns (Ok ino) s' /\
    sb s' = sb s /\
    (forall b, b <> INODE_TABLE_START_BLOCK + n / INODES_PER_BLOCK ->
       disk_read (disk s') b = disk_read (disk s) b).
Proof.
  intros Hb Hn0 Hread Hwf.
  assert (Hn : 0 <= n < INODE_COUNT).
  { split; [exact Hn0 |]. unfold read_inode in Hread.
    destruct (Z.geb_spec n INODE_COUNT); [discriminate | assumption]. }
  destruct (inode_location n Hb Hn) as (_ & _ & _ & _ & Hoff0 & Hoff1).
  rewrite read_inode_at in Hread by assumption.
  rewrite write_inode_at by assumption.
  set (b := INODE_TABLE_START_BLOCK + n / INODES_PER_BLOCK) in *.
  set (off := n mod INODES_PER_BLOCK * INODE_SIZE) in *.
  destruct (disk_read (disk s) b) as [blk |] eqn:Hblk; [| discriminate].
  assert (Hlen : len blk = BLOCK_SIZE).
  { apply (disk_read_len _ _ _ ltac:(unfold INODE_SIZE in *; lia) Hblk). }
  pose proof (memcpy_to_in blk off (encode_inode ino) Hoff0) as Hcpy.
  rewrite len_encode_inode in Hcpy. specialize (Hcpy ltac:(lia)).
  rewrite Hcpy. set (blk' := List.upds blk (Z.to_nat off) (encode_inode ino)) in *.
  assert (Hfit : fit blk' = blk').
  { apply fit_id. unfold blk'. rewrite upds_length.
    apply (disk_read_length _ _ _ Hblk). }
  eexists. split; [reflexivity |]. cbn [sb disk set_disk].
  split; [| split; [reflexivity |]].
  - rewrite read_inode_at by assumption. cbn [disk set_disk]. fold b off.
    rewrite disk_read_update, Z.eqb_refl, (disk_read_on _ _ _ Hblk), Hfit.
    pose proof (bytes_at_memcpy_same _ _ _ _ Hcpy) as Hsame.
    rewrite len_encode_inode in Hsame. rewrite Hsame.
    now rewrite decode_encode_inode.
  - intros b' Hb'. rewrite disk_read_update.
    destruct (Z.eqb_spec b' b); [contradiction | reflexivity].
Qed.

(** ** More on [fs_readdir] *)

Lemma reads_only_state {A} (m : M A) P s a s' :
  reads_only m P -> m s = Returns a s' -> s' = s.
Proof.
  intros H Hrun. destruct (H s) as [Hu | (a' & Ha & _)]; rewrite Hrun in *.
  - discriminate.
  - now injection Ha as _ ->.
Qed.

Section Filler.

Context {B : Type} (filler : B -> list byte -> B * Z).

(** The scan of a directory leaves the state as it was. *)
Lemma readdir_blocks_state dir_inode count : forall i buffer s r s',
  readdir_blocks filler count i dir_inode buffer s = Returns r s' -> s' = s.
Proof.
  induction count as [| count IH]; intros i buffer s r s'; cbn [readdir_blocks].
  - now intros [= _ <-].
  - unfold bind at 1.
    destruct (get_directory_block_addr dir_inode i s) as [addr s1 |] eqn:Haddr;
      [| discriminate].
    apply (reads_only_state _ _ _ _ _ (reads_only_get_directory_block_addr _ _))
      in Haddr. subst s1.
    destruct (addr =? 0); [apply IH |].
    unfold bind at 1, read_block.
    destruct (disk_read (disk s) (C.to_int addr)); [| apply IH].
    unfold bind, lift.
    destruct (readdir_slots filler _ 0 _ buffer) as [[b' full] |]; [| discriminate].
    cbn [ret snd fst]. destruct full; [now intros [= _ <-] | apply IH].
Qed.

(** A filler that never reports a full buffer. *)
Hypothesis never_full : forall buffer name, snd (filler buffer name) = 0.

Lemma readdir_slots_never_full entries count : forall j buffer r,
  readdir_slots filler count j entries buffer = Some r -> snd r = false.
Proof.
  induction count as [| count IH]; intros j buffer r; cbn [readdir_slots].
  - now intros [= <-].
  - destruct (entry_inode_num entries j) as [n |]; [| discriminate].
    destruct (n =? 0); [apply IH |].
    destruct (cstring_at _) as [name |]; [| discriminate].
    pose proof (never_full buffer name) as Hf.
    destruct (filler buffer name) as [buffer' full]. cbn [snd] in Hf. subst full.
    cbn [Z.eqb]. apply IH.
Qed.

Lemma readdir_blocks_never_full dir_inode count : forall i buffer s r s',
  readdir_blocks filler count i dir_inode buffer s = Returns r s' ->
  snd r = false.
Proof.
  induction count as [| count IH]; intros i buffer s r s'; cbn [readdir_blocks].
  - now intros [= <- _].
  - unfold bind at 1.
    destruct (get_directory_block_addr dir_inode i s) as [addr s1 |];
      [| discriminate].
    destruct (addr =? 0); [apply IH |].
    unfold bind at 1, read_block.
    destruct (disk_read (disk s1) (C.to_int addr)); [| apply IH].
    unfold bind, lift.
    destruct (readdir_slots filler _ 0 _ buffer) as [r1 |] eqn:Hslots;
      [| discriminate].
    cbn [ret]. rewrite (readdir_slots_never_full _ _ _ _ _ Hslots). apply IH.
Qed.

(** X11.  When the filler never reports a full buffer, a [fs_readdir] of a
    directory that returns has status 0 and has stored the time of the call
    as the access time of the directory: reading the inode back gives the
    old inode with [atime] replaced and every other field as before.  The
    variable [sb] and every block but the one that holds the inode are as
    before. *)
Theorem readdir_stores_atime (now : Z) (path : list byte) (buffer : B) (s s' : fs)
  (i : Z) (dir_inode : inode) (r : Z * B) :
  INODE_SIZE <= BLOCK_SIZE ->
  find_inode_by_path path s = Returns (Ok i) s ->
  0 <= C.to_int i ->
  read_inode (C.to_int i) s = Returns (Ok dir_inode) s ->
  S_ISDIR (mode dir_inode) = true ->
  fs_readdir filler now path buffer s = Returns r s' ->
  fst r = 0 /\
  read_inode (C.to_int i) s'
  = Returns (Ok (update_timestamp now dir_inode true false false)) s' /\
  sb s' = sb s /\
  (forall b, b <> INODE_TABLE_START_BLOCK + C.to_int i / INODES_PER_BLOCK ->
     disk_read (disk s') b = disk_read (disk s) b).
Proof.
  intros Hb Hfind Hi Hread Hdir Hrun.
  destruct (read_inode_wf _ _ _ _ Hread) as [_ Hwf].
  unfold fs_readdir in Hrun.
  rewrite (bind_returns _ _ _ _ _ Hfind) in Hrun. cbv beta iota in Hrun.
  rewrite (bind_returns _ _ _ _ _ Hread) in Hrun. cbv beta iota in Hrun.
  rewrite Hdir in Hrun. cbn [negb] in Hrun. cbv zeta in Hrun.
  unfold bind at 1 in Hrun.
  destruct (readdir_blocks filler _ 0 dir_inode _ s) as [r'' s1 |] eqn:Hscan;
    [| discriminate].
  pose proof (readdir_blocks_state _ _ _ _ _ _ _ Hscan). subst s1.
  rewrite (readdir_blocks_never_full _ _ _ _ _ _ _ Hscan) in Hrun.
  destruct (write_inode_over (C.to_int i)
              (update_timestamp now dir_inode true false false) dir_inode s
              Hb Hi Hread (wf_update_timestamp _ _ _ _ _ Hwf))
    as (s2 & Hwrite & Hback & Hsb & Hother).
  rewrite (bind_returns _ _ _ _ _ Hwrite) in Hrun.
  injection Hrun as <- <-. cbn [fst]. auto.
Qed.

End Filler.

(** ** Directories *)

Lemma ceil_div_u32_zero : 0 < BLOCK_SIZE < 2 ^ 32 -> ceil_div_u32 0 BLOCK_SIZE = 0.
Proof.
  intros H. unfold ceil_div_u32. rewrite to_u32_small by lia.
  apply Z.div_small. lia.
Qed.

(** X12.  An empty directory (size 0): every lookup in it fails with status
    -1 without a look at its blocks, so that no path below it resolves; and
    [fs_readdir] hands [.] and [..] to the filler and nothing else, returns 0
    whatever the filler answers, and stores the access time. *)
Theorem empty_directory {B : Type} (filler : B -> list byte -> B * Z)
  (now : Z) (a : list byte) (buffer : B) (s : fs) (i : Z) (dir_inode : inode) :
  INODE_SIZE <= BLOCK_SIZE < 2 ^ 31 ->
  find_inode_by_path (slash :: a) s = Returns (Ok i) s ->
  0 <= C.to_int i ->
  read_inode (C.to_int i) s = Returns (Ok dir_inode) s ->
  S_ISDIR (mode dir_inode) = true ->
  size dir_inode = 0 ->
  (forall name, find_entry_in_directory dir_inode name s = Returns (Err (-1)) s) /\
  (forall b, tokens b <> [] ->
     find_inode_by_path (slash :: a ++ slash :: b) s = Returns (Err (-1)) s) /\
  exists s',
    fs_readdir filler now (slash :: a) buffer s
    = Returns (0, fst (filler (fst (filler buffer dot)) dotdot)) s' /\
    read_inode (C.to_int i) s'
    = Returns (Ok (update_timestamp now dir_inode true false false)) s'.
Proof.
  intros Hb Hfind Hi Hread Hdir Hsize.
  assert (Hz : ceil_div_u32 (size dir_inode) BLOCK_SIZE = 0).
  { rewrite Hsize. apply ceil_div_u32_zero. unfold INODE_SIZE in Hb. lia. }
  assert (Hlookup : forall name,
             find_entry_in_directory dir_inode name s = Returns (Err (-1)) s).
  { intros name. unfold find_entry_in_directory. rewrite Hdir, Hz. reflexivity. }
  split; [exact Hlookup | split].
  - intros b Htok. rewrite find_inode_by_path_split.
    rewrite (bind_returns _ _ _ _ _ Hfind). cbv beta iota.
    destruct (tokens b) as [| token toks]; [contradiction |].
    cbn [walk]. rewrite (bind_returns _ _ _ _ _ Hread). cbv beta iota.
    rewrite (bind_returns _ _ _ _ _ (Hlookup token)). reflexivity.
  - destruct (read_inode_wf _ _ _ _ Hread) as [_ Hwf].
    destruct (write_inode_over (C.to_int i)
                (update_timestamp now dir_inode true false false) dir_inode s
                (proj1 Hb) Hi Hread (wf_update_timestamp _ _ _ _ _ Hwf))
      as (s' & Hwrite & Hback & _).
    exists s'. split; [| exact Hback].
    unfold fs_readdir.
    rewrite (bind_returns _ _ _ _ _ Hfind). cbv beta iota.
    rewrite (bind_returns _ _ _ _ _ Hread). cbv beta iota.
    rewrite Hdir, Hz. cbn [negb Z.to_nat readdir_blocks]. cbv zeta.
    unfold bind at 1. cbn [ret snd fst].
    rewrite (bind_returns _ _ _ _ _ Hwrite). reflexivity.
Qed.

(** [strcmp] finds equal the string that starts where it compares. *)
Lemma cstring_at_strcmp_eq mem : forall name,
  cstring_at mem = Some name -> strcmp_eq mem name = Some true.
Proof.
  induction mem as [| m mem IH]; intros name; cbn [cstring_at]; [discriminate |].
  destruct (Byte.eqb m zero_byte) eqn:E.
  - intros [= <-]. cbn [strcmp_eq]. now rewrite E.
  - destruct (cstring_at mem) as [name' |]; [| discriminate].
    intros [= <-]. cbn [strcmp_eq].
    rewrite (Byte.byte_dec_lb eq_refl). now apply IH.
Qed.

Lemma find_entry_slots_nonzero dir_block name count : forall j n,
  find_entry_slots count j dir_block name = Some (Some n) -> n <> 0.
Proof.
  induction count as [| count IH]; intros j n; cbn [find_entry_slots];
    [discriminate |].
  destruct (entry_inode_num dir_block j) as [n0 |]; [| discriminate].
  destruct (Z.eqb_spec n0 0); [apply IH |].
  destruct (strcmp_eq _ name) as [[|] |]; [| apply IH | discriminate].
  now intros [= <-].
Qed.

Lemma capped_filler_names cap buffer name x :
  In x (fst (capped_filler cap buffer name)) -> In x buffer \/ x = name.
Proof.
  unfold capped_filler. destruct (_ <? _)%nat; cbn [fst]; [| now left].
  intros H. apply in_app_or in H. destruct H as [H | [<- | []]]; auto.
Qed.

(** One turn of the outer loops of the lookup and of the listing. *)
Lemma find_entry_blocks_step dir_inode name count i s addr :
  get_directory_block_addr dir_inode i s = Returns addr s ->
  find_entry_blocks (S count) i dir_inode name s
  = if addr =? 0 then find_entry_blocks count (i + 1) dir_inode name s
    else match disk_read (disk s) (C.to_int addr) with
         | None => find_entry_blocks count (i + 1) dir_inode name s
         | Some dir_block =>
             match find_entry_slots (Z.to_nat ENTRIES_PER_BLOCK) 0 dir_block name with
             | None => Undefined
             | Some (Some n) => Returns (Ok n) s
             | Some None => find_entry_blocks count (i + 1) dir_inode name s
             end
         end.
Proof.
  intros Haddr. cbn [find_entry_blocks]. rewrite (bind_returns _ _ _ _ _ Haddr).
  destruct (addr =? 0); [reflexivity |].
  unfold bind at 1, read_block. destruct (disk_read _ _); [| reflexivity].
  unfold bind, lift. destruct (find_entry_slots _ _ _ _) as [[n |] |]; reflexivity.
Qed.

Lemma readdir_blocks_step {B} (filler : B -> list byte -> B * Z)
  dir_inode count i buffer s addr :
  get_directory_block_addr dir_inode i s = Returns addr s ->
  readdir_blocks filler (S count) i dir_inode buffer s
  = if addr =? 0 then readdir_blocks filler count (i + 1) dir_inode buffer s
    else match disk_read (disk s) (C.to_int addr) with
         | None => readdir_blocks filler count (i + 1) dir_inode buffer s
         | Some entries =>
             match readdir_slots filler (Z.to_nat ENTRIES_PER_BLOCK) 0 entries buffer with
             | None => Undefined
             | Some r =>
                 if snd r then Returns r s
                 else readdir_blocks filler count (i + 1) dir_inode (fst r) s
             end
         end.
Proof.
  intros Haddr. cbn [readdir_blocks]. rewrite (bind_returns _ _ _ _ _ Haddr).
  destruct (addr =? 0); [reflexivity |].
  unfold bind at 1, read_block. destruct (disk_read _ _); [| reflexivity].
  unfold bind, lift. destruct (readdir_slots _ _ _ _ _) as [r |]; [| reflexivity].
  cbn [ret]. destruct (snd r); reflexivity.
Qed.

Section Listing.

Hypothesis block_size_ok : INODE_SIZE <= BLOCK_SIZE < 2 ^ 31.

Variable cap : nat.
Variable name : list byte.
Hypothesis name_short : len name < DIR_ENTRY_SIZE.

(** A name the scan of a block adds to the host's buffer is one the lookup
    finds in that block. *)
Lemma readdir_slots_found entries count : forall j buffer r,
  length entries = Z.to_nat BLOCK_SIZE ->
  0 <= j -> j + Z.of_nat count <= ENTRIES_PER_BLOCK ->
  readdir_slots (capped_filler cap) count j entries buffer = Some r ->
  In name (fst r) ->
  In name buffer \/
  exists n, find_entry_slots count j entries name = Some (Some n).
Proof.
  intros j buffer r Hlen. revert j buffer r.
  assert (Hle : 32 * ENTRIES_PER_BLOCK <= BLOCK_SIZE).
  { unfold ENTRIES_PER_BLOCK, DIR_ENTRY_SIZE. apply Z.mul_div_le. lia. }
  induction count as [| count IH]; intros j buffer r Hj Hcount;
    cbn [readdir_slots find_entry_slots].
  - intros [= <-]. now left.
  - destruct (entry_inode_num entries j) as [n0 |]; [| discriminate].
    destruct (n0 =? 0); [apply IH; lia |].
    destruct (cstring_at (entry_name_mem entries j)) as [name0 |] eqn:Hname0;
      [| discriminate].
    destruct (strcmp_eq_defined name (entry_name_mem entries j)) as [b Hb].
    { unfold entry_name_mem, DIR_ENTRY_SIZE in *. rewrite length_skipn.
      unfold len in name_short. lia. }
    rewrite Hb.
    destruct (capped_filler cap buffer name0) as [buffer' full] eqn:Hfill.
    destruct (Z.eqb_spec full 0) as [-> | Hfull].
    + intros Hrun Hin. destruct b; [right; eauto |].
      destruct (IH (j + 1) buffer' r ltac:(lia) ltac:(lia) Hrun Hin) as [Hin' | Hfound];
        [| now right].
      pose proof (capped_filler_names cap buffer name0 name) as Hc.
      rewrite Hfill in Hc. destruct (Hc Hin') as [Hold | ->]; [now left |].
      rewrite (cstring_at_strcmp_eq _ _ Hname0) in Hb. discriminate.
    + intros [= <-] Hin. cbn [fst] in Hin.
      pose proof (capped_filler_names cap buffer name0 name) as Hc.
      rewrite Hfill in Hc. cbn [fst] in Hc.
      unfold capped_filler in Hfill. destruct (_ <? _)%nat.
      * injection Hfill as _ <-. contradiction.
      * injection Hfill as <- _. now left.
Qed.

(** The same for the scan of a whole directory. *)
Lemma readdir_blocks_found dir_inode count : forall i buffer s r s',
  readdir_blocks (capped_filler cap) count i dir_inode buffer s = Returns r s' ->
  In name (fst r) ->
  In name buffer \/
  exists n, n <> 0 /\ find_entry_blocks count i dir_inode name s = Returns (Ok n) s.
Proof.
  induction count as [| count IH]; intros i buffer s r s'.
  - cbn [readdir_blocks]. intros [= <- _]. now left.
  - destruct (get_directory_block_addr dir_inode i s) as [addr s1 |] eqn:Haddr.
    2:{ cbn [readdir_blocks]. unfold bind. rewrite Haddr. discriminate. }
    pose proof (reads_only_state _ _ _ _ _
                  (reads_only_get_directory_block_addr _ _) Haddr). subst s1.
    rewrite (readdir_blocks_step _ _ _ _ _ _ _ Haddr).
    rewrite (find_entry_blocks_step _ _ _ _ _ _ Haddr).
    destruct (addr =? 0); [apply IH |].
    destruct (disk_read (disk s) (C.to_int addr)) as [entries |] eqn:Hread;
      [| apply IH].
    pose proof (disk_read_length _ _ _ Hread) as Hlen.
    assert (Hepb : 0 + Z.of_nat (Z.to_nat ENTRIES_PER_BLOCK) <= ENTRIES_PER_BLOCK).
    { assert (0 <= ENTRIES_PER_BLOCK); [| lia].
      unfold ENTRIES_PER_BLOCK, DIR_ENTRY_SIZE, INODE_SIZE in *.
      apply Z.div_pos; lia. }
    destruct (find_entry_slots_defined block_size_ok entries name
                (Z.to_nat ENTRIES_PER_BLOCK) 0 Hlen name_short (Z.le_refl 0)
                Hepb) as [fr Hfr].
    rewrite Hfr.
    destruct (readdir_slots (capped_filler cap) _ 0 entries buffer) as [r1 |] eqn:Hslots;
      [| discriminate].
    assert (Hhere : In name (fst r1) ->
                    In name buffer \/
                    exists n, n <> 0 /\
                      match fr with
                      | Some n0 => Returns (Ok n0) s
                      | None => find_entry_blocks count (i + 1) dir_inode name s
                      end = Returns (Ok n) s).
    { intros Hin.
      destruct (readdir_slots_found entries _ 0 buffer r1 Hlen (Z.le_refl 0)
                  Hepb Hslots Hin) as [Hold | [n Hn]]; [now left |].
      right. exists n. rewrite Hfr in Hn. injection Hn as ->.
      split; [| reflexivity].
      apply (find_entry_slots_nonzero _ _ _ _ _ Hfr). }
    destruct (snd r1).
    + intros [= <- _]. exact Hhere.
    + intros Hrun Hin.
      destruct (IH _ _ _ _ _ Hrun Hin) as [Hin1 | (n & Hn & Hlater)];
        [now apply Hhere |].
      right. destruct fr as [n0 |].
      * exists n0. split; [| reflexivity].
        apply (find_entry_slots_nonzero _ _ _ _ _ Hfr).
      * exists n. auto.
Qed.

End Listing.

(** X13.  Listing and lookup agree: every name that [fs_readdir] hands to
    the host, other than [.] and [..], is found by
    [find_entry_in_directory] in the same directory, with a nonzero inode
    number (for names shorter than a directory entry, as all names that fit
    the name field are). *)
Theorem listed_names_are_found (cap : nat) (now : Z) (path name : list byte)
  (s s' : fs) (i : Z) (dir_inode : inode) (r : Z * list (list byte)) :
  INODE_SIZE <= BLOCK_SIZE < 2 ^ 31 ->
  find_inode_by_path path s = Returns (Ok i) s ->
  read_inode (C.to_int i) s = Returns (Ok dir_inode) s ->
  fs_readdir (capped_filler cap) now path [] s = Returns r s' ->
  In name (snd r) ->
  len name < DIR_ENTRY_SIZE ->
  name = dot \/ name = dotdot \/
  exists n, n <> 0 /\
            find_entry_in_directory dir_inode name s = Returns (Ok n) s.
Proof.
  intros Hb Hfind Hread Hrun Hin Hshort. unfold fs_readdir in Hrun.
  rewrite (bind_returns _ _ _ _ _ Hfind) in Hrun. cbv beta iota in Hrun.
  rewrite (bind_returns _ _ _ _ _ Hread) in Hrun. cbv beta iota in Hrun.
  destruct (S_ISDIR (mode dir_inode)) eqn:Hdir; cbn [negb] in Hrun.
  2:{ injection Hrun as <- _. destruct Hin. }
  cbv zeta in Hrun. unfold bind at 1 in Hrun.
  destruct (readdir_blocks (capped_filler cap) _ 0 dir_inode _ s)
    as [r'' s1 |] eqn:Hscan; [| discriminate].
  assert (Hnames : snd r = fst r'').
  { destruct (snd r'').
    - now injection Hrun as <- _.
    - unfold bind in Hrun. destruct (write_inode _ _ s1); [| discriminate].
      now injection Hrun as <- _. }
  rewrite Hnames in Hin.
  destruct (readdir_blocks_found Hb cap name Hshort _ _ _ _ _ _ _ Hscan Hin)
    as [Hfirst | (n & Hn & Hfound)].
  - apply capped_filler_names in Hfirst. destruct Hfirst as [Hfirst | ->]; [| auto].
    apply capped_filler_names in Hfirst. destruct Hfirst as [[] | ->]. auto.
  - right. right. exists n. split; [exact Hn |].
    unfold find_entry_in_directory. rewrite Hdir. exact Hfound.
Qed.

(** ** What the operations leave alone *)

Lemma to_int_is_int x : C.is_int (C.to_int x).
Proof.
  unfold C.is_int, C.to_int.
  pose proof (Z.mod_pos_bound (x + 2 ^ 31) (2 ^ 32) ltac:(lia)). lia.
Qed.

Lemma same_metadata_refl s : same_metadata s s.
Proof. split; reflexivity. Qed.

Lemma same_metadata_trans s1 s2 s3 :
  same_metadata s1 s2 -> same_metadata s2 s3 -> same_metadata s1 s3.
Proof.
  intros [Hsb Hd] [Hsb' Hd']. split; [congruence |].
  intros b Hb. rewrite Hd', Hd by exact Hb. reflexivity.
Qed.

(** With 4096-byte blocks, [write_inode] never writes in front of the
    inode table, whatever the inode number. *)
Lemma write_inode_metadata n ino s st s' :
  BLOCK_SIZE = 4096 -> C.is_int n ->
  write_inode n ino s = Returns st s' -> same_metadata s s'.
Proof.
  intros Hbs Hint Hrun.
  destruct (Z.le_gt_cases INODE_COUNT n) as [Hbig | Hsmall].
  { unfold write_inode in Hrun. destruct (Z.geb_spec n INODE_COUNT); [| lia].
    injection Hrun as _ <-. apply same_metadata_refl. }
  destruct (Z.lt_ge_cases n 0) as [Hneg | Hpos].
  { destruct (inode_block_num_negative n Hbs) as [H0 Hblk];
      [unfold C.is_int in Hint; lia |].
    unfold write_inode in Hrun. destruct (Z.geb_spec n INODE_COUNT); [lia |].
    rewrite H0 in Hrun. unfold bind, read_block in Hrun.
    rewrite disk_read_negative in Hrun by exact Hblk.
    injection Hrun as _ <-. apply same_metadata_refl. }
  rewrite write_inode_at in Hrun by (rewrite ?Hbs; unfold INODE_SIZE; lia).
  assert (Hq : INODE_TABLE_START_BLOCK
               <= INODE_TABLE_START_BLOCK + n / INODES_PER_BLOCK).
  { assert (0 <= n / INODES_PER_BLOCK); [| lia].
    apply Z.div_pos; [lia |]. unfold INODES_PER_BLOCK. rewrite Hbs. reflexivity. }
  set (block_num := INODE_TABLE_START_BLOCK + n / INODES_PER_BLOCK) in *.
  clearbody block_num.
  destruct (disk_read (disk s) block_num) as [blk |] eqn:Hread.
  2:{ injection Hrun as _ <-. apply same_metadata_refl. }
  destruct (memcpy_to blk _ _); [| discriminate].
  injection Hrun as _ <-. split; [reflexivity |].
  intros b Hb. cbn [disk set_disk]. rewrite disk_read_update.
  destruct (Z.eqb_spec b block_num); [lia | reflexivity].
Qed.

Lemma fs_readdir_metadata {B} (filler : B -> list byte -> B * Z)
  now path buffer s r s' :
  BLOCK_SIZE = 4096 ->
  fs_readdir filler now path buffer s = Returns r s' -> same_metadata s s'.
Proof.
  intros Hbs Hrun. unfold fs_readdir in Hrun. unfold bind at 1 in Hrun.
  destruct (find_inode_by_path path s) as [[inode_num | code] s1 |] eqn:Hfind;
    try discriminate;
    pose proof (reads_only_state _ _ _ _ _
                  (reads_only_find_inode_by_path _) Hfind); subst s1.
  2:{ injection Hrun as _ <-. apply same_metadata_refl. }
  unfold bind at 1 in Hrun.
  destruct (read_inode (C.to_int inode_num) s) as [[dir_inode | code] s1 |] eqn:Hread;
    try discriminate;
    pose proof (reads_only_state _ _ _ _ _ (reads_only_read_inode _) Hread);
    subst s1.
  2:{ injection Hrun as _ <-. apply same_metadata_refl. }
  destruct (negb _).
  { injection Hrun as _ <-. apply same_metadata_refl. }
  cbv zeta in Hrun. unfold bind at 1 in Hrun.
  destruct (readdir_blocks filler _ 0 dir_inode _ s) as [r'' s1 |] eqn:Hscan;
    [| discriminate].
  pose proof (readdir_blocks_state _ _ _ _ _ _ _ _ Hscan). subst s1.
  destruct (snd r'').
  { injection Hrun as _ <-. apply same_metadata_refl. }
  unfold bind in Hrun.
  destruct (write_inode _ _ s) as [st s2 |] eqn:Hwrite; [| discriminate].
  injection Hrun as _ <-.
  apply (write_inode_metadata _ _ _ _ _ Hbs (to_int_is_int _) Hwrite).
Qed.

Lemma reads_only_fs_getattr uid gid path :
  reads_only (fs_getattr uid gid path) (fun _ => True).
Proof.
  unfold fs_getattr.
  eapply reads_only_bind; [apply reads_only_find_inode_by_path |].
  intros [inode_index | code] _; [| now apply reads_only_ret].
  eapply reads_only_bind; [apply reads_only_read_inode |].
  intros [target | code] _; now apply reads_only_ret.
Qed.

Lemma dispatch_metadata req s st s' :
  BLOCK_SIZE = 4096 -> dispatch req s = Returns st s' -> same_metadata s s'.
Proof.
  intros Hbs Hrun.
  destruct req; cbn [dispatch] in Hrun;
    try (injection Hrun as _ <-; apply same_metadata_refl).
  - unfold bind in Hrun.
    destruct (fs_getattr uid gid path s) as [r s1 |] eqn:Hget; [| discriminate].
    pose proof (reads_only_state _ _ _ _ _ (reads_only_fs_getattr _ _ _) Hget).
    subst s1. injection Hrun as _ <-. apply same_metadata_refl.
  - unfold bind in Hrun.
    destruct (fs_readdir _ now path [] s) as [r s1 |] eqn:Hdir; [| discriminate].
    injection Hrun as _ <-. apply (fs_readdir_metadata _ _ _ _ _ _ _ Hbs Hdir).
Qed.

(** X14.  However the host drives the operations of [fs_operations], with
    4096-byte blocks they leave alone the variable [sb], the superblock
    block and the inode and data bitmaps (blocks 0 to 3): no request
    allocates or frees anything.  One status is returned per request. *)
Theorem serve_keeps_metadata (reqs : list request) : forall (s s' : fs) (sts : list Z),
  BLOCK_SIZE = 4096 ->
  serve reqs s = Returns sts s' ->
  length sts = length reqs /\
  sb s' = sb s /\
  (forall b, b < INODE_TABLE_START_BLOCK ->
     disk_read (disk s') b = disk_read (disk s) b).
Proof.
  induction reqs as [| req reqs IH]; intros s s' sts Hbs Hrun; cbn [serve] in Hrun.
  - injection Hrun as <- <-. repeat split.
  - unfold bind at 1 in Hrun.
    destruct (dispatch req s) as [st s1 |] eqn:Hreq; [| discriminate].
    unfold bind in Hrun.
    destruct (serve reqs s1) as [sts1 s2 |] eqn:Hrest; [| discriminate].
    injection Hrun as <- <-.
    destruct (IH _ _ _ Hbs Hrest) as (Hlen & Hsb & Hd).
    destruct (dispatch_metadata _ _ _ _ Hbs Hreq) as [Hsb1 Hd1].
    cbn [length]. split; [now rewrite Hlen | split; [congruence |]].
    intros b Hb. rewrite Hd, Hd1 by exact Hb. reflexivity.
Qed.

(** X15.  [fs_getattr] never changes the state, and its only error is
    [-ENOENT]: it returns it when the path does not resolve and when the
    inode resolved to cannot be read, and otherwise the attributes of the
    inode with link count 1, the caller's [uid] and [gid] and
    [st_blksize = BLOCK_SIZE]. *)
Theorem getattr_reads_only (uid gid : Z) (path : list byte) (s s' : fs)
  (r : result stat) :
  fs_getattr uid gid path s = Returns r s' ->
  s' = s /\
  ((r = Err (- ENOENT) /\
    ((exists code, find_inode_by_path path s = Returns (Err code) s) \/
     (exists i code, find_inode_by_path path s = Returns (Ok i) s /\
                     read_inode (C.to_int i) s = Returns (Err code) s)))
   \/
   (exists i target st,
      find_inode_by_path path s = Returns (Ok i) s /\
      read_inode (C.to_int i) s = Returns (Ok target) s /\
      r = Ok st /\
      st_mode st = mode target /\ st_size st = size target /\
      st_atim st = atime target /\ st_mtim st = mtime target /\
      st_ctim st = ctime target /\
      st_nlink st = 1 /\ st_uid st = uid /\ st_gid st = gid /\
      st_blksize st = BLOCK_SIZE)).
Proof.
  intros Hrun. unfold fs_getattr in Hrun. unfold bind at 1 in Hrun.
  destruct (find_inode_by_path path s) as [[i | code] s1 |] eqn:Hfind;
    try discriminate;
    pose proof (reads_only_state _ _ _ _ _
                  (reads_only_find_inode_by_path _) Hfind); subst s1.
  2:{ injection Hrun as <- <-. split; [reflexivity |]. left. eauto. }
  unfold bind in Hrun.
  destruct (read_inode (C.to_int i) s) as [[target | code] s1 |] eqn:Hread;
    try discriminate;
    pose proof (reads_only_state _ _ _ _ _ (reads_only_read_inode _) Hread);
    subst s1; injection Hrun as <- <-; (split; [reflexivity |]).
  - right. exists i, target. eexists.
    split; [reflexivity | split; [exact Hread | split; [reflexivity |]]].
    repeat split.
  - left. split; [reflexivity |]. right. eauto.
Qed.

(** ** Mount on a device that is too small *)

Lemma write_block_any n buf s :
  exists st s',
    write_block n buf s = Returns st s' /\
    sb s' = sb s /\
    forall m, disk_read (disk s') m
              = if (m =? n) && on_device m then Some (fit buf)
                else disk_read (disk s) m.
Proof.
  destruct (on_device n) eqn:Hon.
  - rewrite (write_block_on _ _ _ Hon). eexists. eexists.
    split; [reflexivity | split; [reflexivity |]].
    intros m. cbn [disk set_disk]. rewrite disk_read_update.
    destruct (Z.eqb_spec m n) as [-> | ]; [now rewrite Hon | reflexivity].
  - rewrite (write_block_off _ _ _ Hon). exists 1, s.
    split; [reflexivity | split; [reflexivity |]].
    intros m. destruct (Z.eqb_spec m n) as [-> | ]; [| reflexivity].
    rewrite Hon. reflexivity.
Qed.

(** The loop that clears the metadata blocks, on any device: the writes
    that fail are passed over. *)
Lemma zero_blocks_any blk count : forall i s,
  exists s',
    zero_blocks count i blk s = Returns tt s' /\
    sb s' = sb s /\
    forall m, disk_read (disk s') m
              = if (i <=? m) && (m <? i + Z.of_nat count) && on_device m
                then Some (fit blk) else disk_read (disk s) m.
Proof.
  induction count as [| count IH]; intros i s.
  - exists s. repeat split. intros m.
    destruct (Z.leb_spec i m), (Z.ltb_spec m (i + Z.of_nat 0)); try reflexivity; lia.
  - cbn [zero_blocks].
    destruct (write_block_any i blk s) as (st & s1 & Hw & Hsb1 & Hd1).
    rewrite (bind_returns _ _ _ _ _ Hw).
    destruct (IH (i + 1) s1) as (s' & Hrun & Hsb & Hd).
    exists s'. split; [exact Hrun | split; [congruence |]].
    intros m. rewrite Hd, Hd1.
    destruct (on_device m); destruct (Z.eqb_spec m i) as [Heq | Hne];
      cbn [andb];
      destruct (Z.leb_spec i m), (Z.ltb_spec m (i + Z.of_nat (S count))),
        (Z.leb_spec (i + 1) m), (Z.ltb_spec m (i + 1 + Z.of_nat count));
      try reflexivity; lia.
Qed.

(** The steps of a format up to the store of the root inode: the state
    [s4] after the allocation of inode 0, from which [write_inode] stores
    the root inode, whatever its status. *)
Lemma fs_mount_steps (now init_flag : Z) (s : fs) :
  init_flag <> 0 ->
  INODE_SIZE <= BLOCK_SIZE < 2 ^ 31 ->
  2 <= BLOCK_NUM ->
  exists s4,
    sb s4 = format_sb /\
    forall st s5, write_inode 0 (root_inode now) s4 = Returns st s5 ->
                  fs_mount now init_flag s = Returns 0 s5.
Proof.
  intros Hflag Hbs Hnum.
  destruct (format_layout Hbs) as (Hni & _ & Hstart & Hitb).
  set (start := data_blocks_start format_sb) in *.
  assert (Hs : 5 <= start) by (unfold INODE_TABLE_START_BLOCK in *; lia).
  unfold INODE_SIZE, INODE_BITMAP_BLOCK, INODE_TABLE_START_BLOCK, SUPERBLOCK_BLOCK in *.
  pose proof (len_zero_block ltac:(lia)) as Lz.
  set (s1 := set_sb s format_sb).
  pose proof (memcpy_to_in zero_block 0 (encode_sb format_sb) (Z.le_refl 0)) as Hcpy0.
  rewrite len_encode_sb in Hcpy0. specialize (Hcpy0 ltac:(unfold SUPERBLOCK_SIZE; lia)).
  set (block0 := List.upds zero_block (Z.to_nat 0) (encode_sb format_sb)) in *.
  destruct (write_block_any 0 block0 s1) as (st0 & s2 & Hw0 & Hsb2 & Hd2).
  destruct (zero_blocks_any zero_block (Z.to_nat (start - 1)) 1 s2)
    as (s3 & Hzero & Hsb3 & Hd3).
  rewrite fit_zero_block in Hd3.
  assert (Hon1 : on_device 1 = true) by (apply on_device_in; lia).
  assert (Hr1 : disk_read (disk s3) 1 = Some zero_block).
  { rewrite Hd3, Hon1.
    destruct (Z.leb_spec 1 1), (Z.ltb_spec 1 (1 + Z.of_nat (Z.to_nat (start - 1))));
      try reflexivity; lia. }
  destruct (alloc_inode_found s3 zero_block Hr1)
    as (k & b & Hk & Hkc & Hlow & Hb & Halloc).
  { exists 0. rewrite Hsb3, Hsb2. cbn [sb s1 set_sb]. rewrite Hni.
    unfold INODE_COUNT. repeat split; try lia. apply bitmap_bit_zero_buffer. }
  assert (k = 0).
  { destruct (Z.eq_dec k 0) as [E | E]; [exact E |].
    specialize (Hlow 0 ltac:(lia)). unfold zero_block in Hlow.
    rewrite bitmap_bit_zero_buffer in Hlow. discriminate. }
  subst k.
  exists (after_alloc s3 zero_block 0 b). split.
  - unfold after_alloc. cbn [sb set_disk]. rewrite Hsb3, Hsb2. reflexivity.
  - intros st s5 Hwrite. unfold fs_mount. rewrite (proj2 (Z.eqb_neq _ _) Hflag).
    rewrite (bind_returns _ _ s tt s1) by reflexivity.
    rewrite (bind_returns _ _ s1 block0 s1) by (fold zero_block; now rewrite Hcpy0).
    rewrite (bind_returns _ _ _ _ _ Hw0).
    rewrite (bind_returns _ _ _ _ _ Hzero).
    rewrite (bind_returns _ _ _ _ _ Halloc). cbn [Z.eqb negb].
    rewrite (bind_returns _ _ _ _ _ Hwrite). reflexivity.
Qed.

(** X16.  [fs_mount] ignores the status of every device call and of
    [write_inode].  As soon as the device has the bitmap block (two blocks
    or more), formatting returns 0; on a device of four blocks or fewer,
    which has no room for the inode table, it still returns 0, although the
    root inode was not stored and cannot be read, so that no path with a
    component resolves. *)
Theorem fs_mount_ignores_failures (now init_flag : Z) (s : fs) :
  init_flag <> 0 ->
  INODE_SIZE <= BLOCK_SIZE < 2 ^ 31 ->
  2 <= BLOCK_NUM ->
  exists s',
    fs_mount now init_flag s = Returns 0 s' /\
    sb s' = format_sb /\
    (BLOCK_NUM <= INODE_TABLE_START_BLOCK ->
     read_inode 0 s' = Returns (Err (-1)) s' /\
     forall path, tokens (tl path) <> [] ->
                  find_inode_by_path path s' = Returns (Err (-1)) s').
Proof.
  intros Hflag Hbs Hnum.
  destruct (fs_mount_steps now init_flag s Hflag Hbs Hnum) as (s4 & Hsb4 & Hmount).
  assert (Hin0 : 0 <= 0 < INODE_COUNT) by (unfold INODE_COUNT; lia).
  pose proof (write_inode_at 0 (root_inode now) s4 (proj1 Hbs) Hin0) as Hwi.
  pose proof (read_inode_at 0 s4 (proj1 Hbs) Hin0) as Hri.
  rewrite Zdiv_0_l, Zmod_0_l in Hwi, Hri.
  unfold INODE_TABLE_START_BLOCK, INODE_SIZE in *.
  change (4 + 0) with 4 in Hwi, Hri. change (0 * 76) with 0 in Hwi, Hri.
  destruct (disk_read (disk s4) 4) as [blk4 |] eqn:Hr4.
  - assert (Hon4 : BLOCK_NUM > 4).
    { apply disk_read_on in Hr4. unfold on_device in Hr4.
      destruct (Z.ltb_spec 4 BLOCK_NUM); [lia |].
      rewrite andb_false_r in Hr4. discriminate. }
    pose proof (disk_read_len _ _ _ ltac:(lia) Hr4) as Hlen.
    pose proof (memcpy_to_in blk4 0 (encode_inode (root_inode now)) (Z.le_refl 0))
      as Hcpy4.
    rewrite len_encode_inode in Hcpy4. specialize (Hcpy4 ltac:(unfold INODE_SIZE; lia)).
    rewrite Hcpy4 in Hwi. eexists. split; [apply (Hmount _ _ Hwi) |].
    split; [exact Hsb4 | lia].
  - exists s4. split; [apply (Hmount _ _ Hwi) | split; [exact Hsb4 |]].
    intros _. split; [exact Hri |].
    intros path Htok. destruct path as [| c rest]; [reflexivity |].
    cbn [tl] in Htok. unfold find_inode_by_path.
    destruct (Byte.eqb c slash); [| reflexivity]. cbn [negb].
    destruct rest as [| x rest]; [now contradiction Htok |].
    destruct (tokens (x :: rest)) as [| token toks]; [contradiction |].
    cbn [walk]. change (C.to_int 0) with 0.
    rewrite (bind_returns _ _ _ _ _ Hri). reflexivity.
Qed.

(** X19.  Format, then use: on a device that has the first block of the
    inode table, the state a format leaves has the root directory and
    nothing else.  [/] resolves to inode 0, [getattr] of it reports an empty
    directory of mode [DIRMODE] with the three times set to the time of the
    format, every path with a component fails to resolve, and [getattr] of
    such a path reports [-ENOENT]. *)
Theorem format_gives_empty_root (now init_flag uid gid : Z) (s : fs) :
  init_flag <> 0 ->
  INODE_SIZE <= BLOCK_SIZE < 2 ^ 31 ->
  INODE_TABLE_START_BLOCK < BLOCK_NUM ->
  exists s',
    fs_mount now init_flag s = Returns 0 s' /\
    find_inode_by_path [slash] s' = Returns (Ok 0) s' /\
    fs_getattr uid gid [slash] s'
    = Returns (Ok (mkStat DIRMODE 1 uid gid 0 (C.to_u32 now) (C.to_u32 now)
                          (C.to_u32 now) BLOCK_SIZE 0)) s' /\
    (forall path, tokens (tl path) <> [] ->
       find_inode_by_path path s' = Returns (Err (-1)) s' /\
       fs_getattr uid gid path s' = Returns (Err (- ENOENT)) s').
Proof.
  intros Hflag Hbs Hnum. unfold INODE_TABLE_START_BLOCK in Hnum.
  destruct (fs_mount_steps now init_flag s Hflag Hbs ltac:(lia))
    as (s4 & Hsb4 & Hmount).
  assert (Hin0 : 0 <= 0 < INODE_COUNT) by (unfold INODE_COUNT; lia).
  pose proof (read_inode_at 0 s4 (proj1 Hbs) Hin0) as Hri.
  rewrite Zdiv_0_l, Zmod_0_l in Hri.
  unfold INODE_TABLE_START_BLOCK, INODE_SIZE in Hri, Hbs.
  change (4 + 0) with 4 in Hri. change (0 * 76) with 0 in Hri.
  assert (Hon4 : on_device 4 = true) by (apply on_device_in; lia).
  unfold disk_read in Hri at 1. rewrite Hon4 in Hri.
  assert (Hlen : len (fit (disk s4 4)) = BLOCK_SIZE)
    by (unfold len; rewrite length_fit; lia).
  rewrite bytes_at_in in Hri by lia.
  destruct (write_inode_over 0 (root_inode now) _ s4
              ltac:(unfold INODE_SIZE; lia) (Z.le_refl 0) Hri (wf_root_inode now))
    as (s' & Hwrite & Hroot & _).
  assert (Hslash : find_inode_by_path [slash] s' = Returns (Ok 0) s')
    by reflexivity.
  assert (Hempty : forall name,
             find_entry_in_directory (root_inode now) name s'
             = Returns (Err (-1)) s').
  { intros name. unfold find_entry_in_directory.
    change (S_ISDIR (mode (root_inode now))) with true. cbn [negb].
    change (size (root_inode now)) with 0.
    rewrite ceil_div_u32_zero by lia. reflexivity. }
  assert (Hpaths : forall path, tokens (tl path) <> [] ->
                                find_inode_by_path path s' = Returns (Err (-1)) s').
  { intros path Htok. destruct path as [| c rest]; [reflexivity |].
    cbn [tl] in Htok. unfold find_inode_by_path.
    destruct (Byte.eqb c slash); [| reflexivity]. cbn [negb].
    destruct rest as [| x rest]; [now contradiction Htok |].
    destruct (tokens (x :: rest)) as [| token toks]; [contradiction |].
    cbn [walk]. change (C.to_int 0) with 0.
    rewrite (bind_returns _ _ _ _ _ Hroot). cbv beta iota.
    rewrite (bind_returns _ _ _ _ _ (Hempty token)). reflexivity. }
  exists s'. split; [apply (Hmount _ _ Hwrite) | split; [exact Hslash | split]].
  - unfold fs_getattr. rewrite (bind_returns _ _ _ _ _ Hslash). cbv beta iota.
    change (C.to_int 0) with 0.
    rewrite (bind_returns _ _ _ _ _ Hroot). reflexivity.
  - intros path Htok. split; [apply (Hpaths path Htok) |].
    unfold fs_getattr. rewrite (bind_returns _ _ _ _ _ (Hpaths path Htok)).
    reflexivity.
Qed.

(** ** Directories as tables *)

Lemma name_eqb_eq a : forall b, name_eqb a b = true <-> a = b.
Proof.
  induction a as [| x a IH]; intros [| y b]; cbn [name_eqb];
    try (split; [discriminate | discriminate]); [tauto |].
  rewrite andb_true_iff, IH. split.
  - intros [E ->]. apply Byte.byte_dec_bl in E. now subst.
  - intros [= -> ->]. split; [now apply Byte.byte_dec_lb | reflexivity].
Qed.

Lemma byte_eqb_neq (a b : byte) : a <> b -> Byte.eqb a b = false.
Proof.
  intros H. destruct (Byte.eqb a b) eqn:E; [| reflexivity].
  apply Byte.byte_dec_bl in E. contradiction.
Qed.

Lemma length_encode_entry n i : length (encode_entry n i) = 32%nat.
Proof.
  unfold encode_entry.
  rewrite length_app, length_firstn, length_app, length_zero_buffer, length_store32.
  change (Z.to_nat 28) with 28%nat. lia.
Qed.

Lemma encode_entry_name n i :
  len n < DIR_NAME_SIZE -> exists pad, encode_entry n i = n ++ zero_byte :: pad.
Proof.
  unfold len, DIR_NAME_SIZE, encode_entry. intros H.
  rewrite Stdlib.Lists.List.firstn_app, firstn_all2 by lia.
  destruct (28 - length n)%nat as [| k] eqn:E; [lia |].
  change (zero_buffer 28) with (zero_byte :: repeat zero_byte 27).
  cbn [firstn]. rewrite <- app_assoc. cbn [app]. eauto.
Qed.

Lemma cstring_at_name n rest :
  ~ In zero_byte n -> cstring_at (n ++ zero_byte :: rest) = Some n.
Proof.
  induction n as [| c n IH]; intros H; cbn [app cstring_at].
  - reflexivity.
  - rewrite byte_eqb_neq by (intros ->; apply H; now left).
    rewrite IH by (intros Hin; apply H; now right). reflexivity.
Qed.

Lemma strcmp_eq_name n rest : forall name,
  ~ In zero_byte n -> ~ In zero_byte name ->
  strcmp_eq (n ++ zero_byte :: rest) name = Some (name_eqb n name).
Proof.
  induction n as [| c n IH]; intros [| d name] Hn Hname;
    cbn [app strcmp_eq name_eqb].
  - reflexivity.
  - rewrite byte_eqb_neq; [reflexivity |].
    intros <-. apply Hname. now left.
  - rewrite byte_eqb_neq; [reflexivity |].
    intros ->. apply Hn. now left.
  - destruct (Byte.eqb c d); [| reflexivity].
    apply IH; intros Hin; [apply Hn | apply Hname]; now right.
Qed.

(** Slot [j] of a block whose bytes from [32 * j] on start with an encoded
    entry. *)
Lemma entry_at blk j n i rest :
  0 <= j ->
  skipn (Z.to_nat (32 * j)) blk = encode_entry n i ++ rest ->
  is_u32 i ->
  entry_inode_num blk j = Some i /\
  entry_name_mem blk j = encode_entry n i ++ rest /\
  skipn (Z.to_nat (32 * (j + 1))) blk = rest.
Proof.
  intros Hj Hskip Hi.
  assert (Hlen : 32 * j + 32 <= len blk).
  { pose proof (f_equal (@length byte) Hskip) as L.
    rewrite length_skipn, length_app, length_encode_entry in L.
    unfold len. lia. }
  split; [| split].
  - unfold entry_inode_num, load32, DIR_ENTRY_SIZE, DIR_INODE_OFFSET.
    rewrite bytes_at_in by lia. cbn [option_map]. f_equal.
    replace (Z.to_nat (32 * j + 28)) with (28 + Z.to_nat (32 * j))%nat by lia.
    rewrite <- skipn_skipn, Hskip. unfold encode_entry.
    rewrite <- app_assoc.
    rewrite skipn_app_exact
      by (rewrite length_firstn, length_app, length_zero_buffer;
          change (Z.to_nat 28) with 28%nat; lia).
    change (Z.to_nat 4) with 4%nat.
    rewrite firstn_app_exact by apply length_store32.
    unfold store32. rewrite le_combine_split.
    apply Z.mod_small. exact Hi.
  - unfold entry_name_mem, DIR_ENTRY_SIZE. exact Hskip.
  - replace (Z.to_nat (32 * (j + 1))) with (32 + Z.to_nat (32 * j))%nat by lia.
    rewrite <- skipn_skipn, Hskip.
    apply skipn_app_exact, length_encode_entry.
Qed.

(** Slot [j] of a block whose bytes from [32 * j] on are zero. *)
Lemma entry_at_zero blk j z :
  0 <= j -> 32 <= z ->
  skipn (Z.to_nat (32 * j)) blk = zero_buffer z ->
  entry_inode_num blk j = Some 0 /\
  skipn (Z.to_nat (32 * (j + 1))) blk = zero_buffer (z - 32).
Proof.
  intros Hj Hz Hskip.
  assert (Hlen : 32 * j + 32 <= len blk).
  { pose proof (f_equal (@length byte) Hskip) as L.
    rewrite length_skipn, length_zero_buffer in L. unfold len. lia. }
  assert (Hsk : forall k, (k <= Z.to_nat z)%nat ->
                          skipn k (zero_buffer z) = zero_buffer (z - Z.of_nat k)).
  { intros k Hk. unfold zero_buffer.
    replace (Z.to_nat z) with (k + Z.to_nat (z - Z.of_nat k))%nat at 1 by lia.
    rewrite repeat_app. apply skipn_app_exact, repeat_length. }
  split.
  - unfold entry_inode_num, load32, DIR_ENTRY_SIZE, DIR_INODE_OFFSET.
    rewrite bytes_at_in by lia. cbn [option_map]. f_equal.
    replace (Z.to_nat (32 * j + 28)) with (28 + Z.to_nat (32 * j))%nat by lia.
    rewrite <- skipn_skipn, Hskip, Hsk by lia. unfold zero_buffer.
    replace (Z.to_nat (z - Z.of_nat 28)) with (4 + Z.to_nat (z - 32))%nat by lia.
    reflexivity.
  - replace (Z.to_nat (32 * (j + 1))) with (32 + Z.to_nat (32 * j))%nat by lia.
    rewrite <- skipn_skipn, Hskip, Hsk by lia. reflexivity.
Qed.

Lemma find_entry_slots_zero blk name count : forall j z,
  0 <= j -> 32 * Z.of_nat count <= z ->
  skipn (Z.to_nat (32 * j)) blk = zero_buffer z ->
  find_entry_slots count j blk name = Some None.
Proof.
  induction count as [| count IH]; intros j z Hj Hz Hskip;
    cbn [find_entry_slots]; [reflexivity |].
  destruct (entry_at_zero blk j z Hj ltac:(lia) Hskip) as [-> Hnext].
  cbn [Z.eqb]. apply (IH (j + 1) (z - 32)); [lia | lia | exact Hnext].
Qed.

Lemma find_entry_slots_table blk name (t : table) : forall count j rest,
  0 <= j ->
  skipn (Z.to_nat (32 * j)) blk = encode_table t ++ rest ->
  Forall wf_entry t ->
  ~ In zero_byte name ->
  find_entry_slots (length t + count) j blk name
  = match lookup name t with
    | Some i => Some (Some i)
    | None => find_entry_slots count (j + Z.of_nat (length t)) blk name
    end.
Proof.
  induction t as [| [n i] t IH]; intros count j rest Hj Hskip Hwf Hname.
  - cbn [length lookup Nat.add]. now rewrite Z.add_0_r.
  - apply Forall_cons_iff in Hwf. destruct Hwf as [(Hn & Hlen & Hi) Hwf].
    cbn [fst snd] in Hn, Hlen, Hi.
    cbn [encode_table flat_map fst snd] in Hskip. rewrite <- app_assoc in Hskip.
    destruct (entry_at blk j n i _ Hj Hskip Hi) as (Hnum & Hmem & Hnext).
    cbn [length Nat.add find_entry_slots lookup fst snd].
    rewrite Hnum, Hmem.
    destruct (encode_entry_name n i Hlen) as [pad ->].
    rewrite <- app_assoc. cbn [app].
    rewrite (strcmp_eq_name n _ name Hn Hname).
    replace (j + Z.of_nat (S (length t))) with (j + 1 + Z.of_nat (length t)) by lia.
    destruct (i =? 0); cbn [negb andb];
      [apply (IH count (j + 1) rest); [lia | exact Hnext | exact Hwf | exact Hname] |].
    destruct (name_eqb n name); [reflexivity |].
    apply (IH count (j + 1) rest); [lia | exact Hnext | exact Hwf | exact Hname].
Qed.

Lemma fit_encode_table (t : table) :
  0 <= BLOCK_SIZE ->
  32 * Z.of_nat (length t) <= BLOCK_SIZE ->
  fit (encode_table t)
  = encode_table t ++ zero_buffer (BLOCK_SIZE - 32 * Z.of_nat (length t)).
Proof.
  intros Hb Hlen.
  assert (L : length (encode_table t) = (32 * length t)%nat).
  { induction t as [| e t IH]; [reflexivity |].
    cbn [encode_table flat_map length]. rewrite length_app, length_encode_entry.
    cbn [length] in Hlen. fold (encode_table t). rewrite IH by lia. lia. }
  unfold fit.
  rewrite Stdlib.Lists.List.firstn_app, firstn_all2 by lia. f_equal.
  unfold zero_buffer. rewrite L.
  replace (Z.to_nat BLOCK_SIZE)
    with ((Z.to_nat BLOCK_SIZE - 32 * length t) + 32 * length t)%nat at 2 by lia.
  rewrite repeat_app, firstn_app_exact by apply repeat_length.
  f_equal. lia.
Qed.

(** The inner loop of the lookup on a block that holds a table. *)
Lemma find_entry_slots_block (t : table) name :
  32 <= BLOCK_SIZE ->
  Z.of_nat (length t) <= ENTRIES_PER_BLOCK ->
  Forall wf_entry t ->
  ~ In zero_byte name ->
  find_entry_slots (Z.to_nat ENTRIES_PER_BLOCK) 0 (fit (encode_table t)) name
  = Some (lookup name t).
Proof.
  intros Hb Hlen Hwf Hname.
  assert (Hle : 32 * ENTRIES_PER_BLOCK <= BLOCK_SIZE).
  { unfold ENTRIES_PER_BLOCK, DIR_ENTRY_SIZE. apply Z.mul_div_le. lia. }
  set (epb := ENTRIES_PER_BLOCK) in *. clearbody epb.
  rewrite fit_encode_table by lia.
  replace (Z.to_nat epb)
    with (length t + (Z.to_nat epb - length t))%nat by lia.
  rewrite (find_entry_slots_table _ name t _ 0 _ (Z.le_refl 0) eq_refl Hwf Hname).
  destruct (lookup name t); [reflexivity |].
  apply (find_entry_slots_zero _ name _ _
           (BLOCK_SIZE - 32 * Z.of_nat (length t))); [lia | lia |].
  replace (Z.to_nat (32 * (0 + Z.of_nat (length t)))) with (32 * length t)%nat by lia.
  apply skipn_app_exact.
  clear. induction t as [| e t IH]; [reflexivity |].
  cbn [encode_table flat_map length]. rewrite length_app, length_encode_entry.
  fold (encode_table t). rewrite IH. lia.
Qed.

Lemma lookup_app name (t1 t2 : table) :
  lookup name (t1 ++ t2)
  = match lookup name t1 with Some i => Some i | None => lookup name t2 end.
Proof.
  induction t1 as [| e t1 IH]; [reflexivity |].
  cbn [app lookup]. destruct (_ && _); [reflexivity | exact IH].
Qed.

Lemma live_names_app (t1 t2 : table) :
  live_names (t1 ++ t2) = live_names t1 ++ live_names t2.
Proof. unfold live_names. now rewrite filter_app, map_app. Qed.

Lemma array_get_skipn (a : list Z) i x rest :
  0 <= i -> skipn (Z.to_nat i) a = x :: rest ->
  array_get a i = x /\ skipn (Z.to_nat (i + 1)) a = rest.
Proof.
  intros Hi Hskip. unfold array_get.
  replace (Z.to_nat (i + 1)) with (1 + Z.to_nat i)%nat by lia.
  rewrite <- skipn_skipn, Hskip. split; [| reflexivity].
  rewrite <- (firstn_skipn (Z.to_nat i) a) at 1. rewrite Hskip.
  assert (L : length (firstn (Z.to_nat i) a) = Z.to_nat i).
  { apply firstn_length_le.
    pose proof (f_equal (@length Z) Hskip) as L.
    rewrite length_skipn in L. cbn [length] in L. lia. }
  rewrite app_nth2 by lia. rewrite L, Nat.sub_diag. reflexivity.
Qed.

Lemma get_directory_block_addr_direct dir_inode i s :
  i < DIRECT_POINTERS ->
  get_directory_block_addr dir_inode i s
  = Returns (array_get (direct_block_pointer dir_inode) i) s.
Proof.
  intros H. unfold get_directory_block_addr.
  destruct (Z.ltb_spec i DIRECT_POINTERS); [reflexivity | lia].
Qed.

Lemma ceil_div_u32_blocks size k :
  0 < BLOCK_SIZE ->
  BLOCK_SIZE * (k - 1) < size <= BLOCK_SIZE * k ->
  0 <= k -> size + BLOCK_SIZE <= 2 ^ 32 ->
  ceil_div_u32 size BLOCK_SIZE = k.
Proof.
  intros Hb Hsize Hk Hmax. unfold ceil_div_u32.
  rewrite to_u32_small by nia. symmetry.
  apply (Z.div_unique _ _ _ (size + BLOCK_SIZE - 1 - BLOCK_SIZE * k)); lia.
Qed.

(** The outer loop of the lookup on direct blocks that hold tables. *)
Lemma find_entry_blocks_tables dir_inode name s :
  forall (addrs : list Z) (tables : list table) i rest,
  32 <= BLOCK_SIZE ->
  0 <= i -> i + Z.of_nat (length addrs) <= DIRECT_POINTERS ->
  skipn (Z.to_nat i) (direct_block_pointer dir_inode) = addrs ++ rest ->
  Forall2 (holds_table s) addrs tables ->
  ~ In zero_byte name ->
  find_entry_blocks (length addrs) i dir_inode name s
  = Returns (match lookup name (concat tables) with
             | Some n => Ok n
             | None => Err (-1)
             end) s.
Proof.
  intros addrs tables i rest Hb Hi Hmax Hskip Hall Hname.
  revert i Hi Hmax Hskip.
  induction Hall as [| addr t addrs tables (Haddr & Hlen & Hwf & Hread) Hall IH];
    intros i Hi Hmax Hskip; [reflexivity |].
  cbn [length] in *. cbn [app] in Hskip.
  destruct (array_get_skipn _ i _ _ Hi Hskip) as [Hget Hnext].
  rewrite (find_entry_blocks_step _ _ _ _ _ addr)
    by (rewrite get_directory_block_addr_direct by lia; now rewrite Hget).
  rewrite (proj2 (Z.eqb_neq _ _) Haddr), Hread.
  rewrite (find_entry_slots_block t name Hb Hlen Hwf Hname).
  cbn [concat]. rewrite lookup_app.
  destruct (lookup name t); [reflexivity |].
  apply IH; [lia | lia | exact Hnext].
Qed.

(** X17.  A directory whose blocks are direct blocks that hold tables of
    entries: the lookup returns the inode number of the first slot in use
    with the given name, in block order and then slot order, and status -1
    when there is none.  Free slots (number 0) are passed over whatever
    their name, and the state is left as it was. *)
Theorem lookup_finds_first_live_entry (dir_inode : inode) (name : list byte)
  (addrs rest : list Z) (tables : list table) (s : fs) :
  32 <= BLOCK_SIZE ->
  S_ISDIR (mode dir_inode) = true ->
  direct_block_pointer dir_inode = addrs ++ rest ->
  len_blocks addrs <= DIRECT_POINTERS ->
  Forall2 (holds_table s) addrs tables ->
  BLOCK_SIZE * (len_blocks addrs - 1) < size dir_inode
    <= BLOCK_SIZE * len_blocks addrs ->
  size dir_inode + BLOCK_SIZE <= 2 ^ 32 ->
  ~ In zero_byte name ->
  find_entry_in_directory dir_inode name s
  = Returns (match lookup name (concat tables) with
             | Some n => Ok n
             | None => Err (-1)
             end) s.
Proof.
  unfold len_blocks. intros Hb Hdir Hptr Hmax Hall Hsize Hwrap Hname.
  unfold find_entry_in_directory. rewrite Hdir. cbn [negb].
  rewrite (ceil_div_u32_blocks _ (Z.of_nat (length addrs))) by lia.
  rewrite Nat2Z.id.
  apply (find_entry_blocks_tables _ _ _ addrs tables 0 rest);
    [exact Hb | lia | lia | exact Hptr | exact Hall | exact Hname].
Qed.

Section Feed.

Context {B : Type} (filler : B -> list byte -> B * Z).

Lemma feed_app (a b : list (list byte)) : forall buffer,
  feed filler (a ++ b) buffer
  = if snd (feed filler a buffer) then feed filler a buffer
    else feed filler b (fst (feed filler a buffer)).
Proof.
  induction a as [| name a IH]; intros buffer; [reflexivity |].
  cbn [app feed]. destruct (filler buffer name) as [buffer' full].
  destruct (full =? 0); [apply IH | reflexivity].
Qed.

Lemma readdir_slots_zero blk count : forall j z buffer,
  0 <= j -> 32 * Z.of_nat count <= z ->
  skipn (Z.to_nat (32 * j)) blk = zero_buffer z ->
  readdir_slots filler count j blk buffer = Some (buffer, false).
Proof.
  induction count as [| count IH]; intros j z buffer Hj Hz Hskip;
    cbn [readdir_slots]; [reflexivity |].
  destruct (entry_at_zero blk j z Hj ltac:(lia) Hskip) as [-> Hnext].
  cbn [Z.eqb]. apply (IH (j + 1) (z - 32)); [lia | lia | exact Hnext].
Qed.

Lemma readdir_slots_table blk (t : table) : forall count j rest buffer,
  0 <= j ->
  skipn (Z.to_nat (32 * j)) blk = encode_table t ++ rest ->
  Forall wf_entry t ->
  readdir_slots filler (length t + count) j blk buffer
  = if snd (feed filler (live_names t) buffer)
    then Some (feed filler (live_names t) buffer)
    else readdir_slots filler count (j + Z.of_nat (length t)) blk
                       (fst (feed filler (live_names t) buffer)).
Proof.
  induction t as [| [n i] t IH]; intros count j rest buffer Hj Hskip Hwf.
  - cbn [length live_names filter map feed snd fst Nat.add].
    now rewrite Z.add_0_r.
  - apply Forall_cons_iff in Hwf. destruct Hwf as [(Hn & Hlen & Hi) Hwf].
    cbn [fst snd] in Hn, Hlen, Hi.
    cbn [encode_table flat_map fst snd] in Hskip. rewrite <- app_assoc in Hskip.
    destruct (entry_at blk j n i _ Hj Hskip Hi) as (Hnum & Hmem & Hnext).
    cbn [length Nat.add readdir_slots].
    rewrite Hnum, Hmem.
    destruct (encode_entry_name n i Hlen) as [pad ->].
    rewrite <- app_assoc. cbn [app].
    rewrite (cstring_at_name n _ Hn).
    replace (j + Z.of_nat (S (length t))) with (j + 1 + Z.of_nat (length t)) by lia.
    unfold live_names. cbn [filter snd]. fold (live_names t).
    destruct (i =? 0); cbn [negb];
      [apply (IH count (j + 1) rest); [lia | exact Hnext | exact Hwf] |].
    cbn [map fst feed]. fold (live_names t).
    destruct (filler buffer n) as [buffer' full].
    destruct (full =? 0); [| reflexivity].
    apply (IH count (j + 1) rest); [lia | exact Hnext | exact Hwf].
Qed.

(** The inner loop of the listing on a block that holds a table. *)
Lemma readdir_slots_block (t : table) buffer :
  32 <= BLOCK_SIZE ->
  Z.of_nat (length t) <= ENTRIES_PER_BLOCK ->
  Forall wf_entry t ->
  readdir_slots filler (Z.to_nat ENTRIES_PER_BLOCK) 0 (fit (encode_table t)) buffer
  = Some (feed filler (live_names t) buffer).
Proof.
  intros Hb Hlen Hwf.
  assert (Hle : 32 * ENTRIES_PER_BLOCK <= BLOCK_SIZE).
  { unfold ENTRIES_PER_BLOCK, DIR_ENTRY_SIZE. apply Z.mul_div_le. lia. }
  set (epb := ENTRIES_PER_BLOCK) in *. clearbody epb.
  rewrite fit_encode_table by lia.
  replace (Z.to_nat epb)
    with (length t + (Z.to_nat epb - length t))%nat by lia.
  rewrite (readdir_slots_table _ t _ 0 _ buffer (Z.le_refl 0) eq_refl Hwf).
  destruct (feed filler (live_names t) buffer) as [buffer' [|]]; cbn [snd fst];
    [reflexivity |].
  apply (readdir_slots_zero _ _ _ (BLOCK_SIZE - 32 * Z.of_nat (length t)));
    [lia | lia |].
  replace (Z.to_nat (32 * (0 + Z.of_nat (length t)))) with (32 * length t)%nat by lia.
  apply skipn_app_exact.
  clear. induction t as [| e t IH]; [reflexivity |].
  cbn [encode_table flat_map length]. rewrite length_app, length_encode_entry.
  fold (encode_table t). rewrite IH. lia.
Qed.

(** The outer loop of the listing on direct blocks that hold tables. *)
Lemma readdir_blocks_tables dir_inode s :
  forall (addrs : list Z) (tables : list table) i rest buffer,
  32 <= BLOCK_SIZE ->
  0 <= i -> i + Z.of_nat (length addrs) <= DIRECT_POINTERS ->
  skipn (Z.to_nat i) (direct_block_pointer dir_inode) = addrs ++ rest ->
  Forall2 (holds_table s) addrs tables ->
  readdir_blocks filler (length addrs) i dir_inode buffer s
  = Returns (feed filler (live_names (concat tables)) buffer) s.
Proof.
  intros addrs tables i rest buffer Hb Hi Hmax Hskip Hall.
  revert i buffer Hi Hmax Hskip.
  induction Hall as [| addr t addrs tables (Haddr & Hlen & Hwf & Hread) Hall IH];
    intros i buffer Hi Hmax Hskip; [reflexivity |].
  cbn [length] in *. cbn [app] in Hskip.
  destruct (array_get_skipn _ i _ _ Hi Hskip) as [Hget Hnext].
  rewrite (readdir_blocks_step _ _ _ _ _ _ addr)
    by (rewrite get_directory_block_addr_direct by lia; now rewrite Hget).
  rewrite (proj2 (Z.eqb_neq _ _) Haddr), Hread.
  rewrite (readdir_slots_block t buffer Hb Hlen Hwf).
  cbn [concat]. rewrite live_names_app, feed_app.
  destruct (snd (feed filler (live_names t) buffer)); [reflexivity |].
  apply IH; [lia | lia | exact Hnext].
Qed.

(** X18.  The listing of a directory whose blocks are direct blocks that
    hold tables of entries.  [fs_readdir] hands [.] and [..] to the filler
    without a look at what it answers, then the names of the slots in use,
    in block order and then slot order, until the filler signals a full
    buffer.  It returns 0 in both cases; the access time of the directory is
    stored when every name was handed over, and nothing is written when the
    filler stopped the listing. *)
Theorem readdir_lists_live_names (now : Z) (path : list byte) (buffer : B)
  (s : fs) (i : Z) (dir_inode : inode) (addrs rest : list Z)
  (tables : list table) :
  INODE_SIZE <= BLOCK_SIZE < 2 ^ 31 ->
  find_inode_by_path path s = Returns (Ok i) s ->
  0 <= C.to_int i ->
  read_inode (C.to_int i) s = Returns (Ok dir_inode) s ->
  S_ISDIR (mode dir_inode) = true ->
  direct_block_pointer dir_inode = addrs ++ rest ->
  Forall2 (holds_table s) addrs tables ->
  BLOCK_SIZE * (len_blocks addrs - 1) < size dir_inode
    <= BLOCK_SIZE * len_blocks addrs ->
  size dir_inode + BLOCK_SIZE <= 2 ^ 32 ->
  exists s',
    fs_readdir filler now path buffer s
    = Returns (0, fst (feed filler (live_names (concat tables))
                            (fst (filler (fst (filler buffer dot)) dotdot)))) s' /\
    (snd (feed filler (live_names (concat tables))
               (fst (filler (fst (filler buffer dot)) dotdot))) = true ->
     s' = s) /\
    (snd (feed filler (live_names (concat tables))
               (fst (filler (fst (filler buffer dot)) dotdot))) = false ->
     read_inode (C.to_int i) s'
     = Returns (Ok (update_timestamp now dir_inode true false false)) s').
Proof.
  unfold len_blocks. intros Hb Hfind Hi Hread Hdir Hptr Hall Hsize Hwrap.
  destruct (read_inode_wf _ _ _ _ Hread) as [_ Hwf].
  assert (Hmax : Z.of_nat (length addrs) <= DIRECT_POINTERS).
  { destruct Hwf as (_ & _ & _ & _ & _ & L & _).
    rewrite Hptr, length_app in L. unfold DIRECT_POINTERS. lia. }
  unfold INODE_SIZE in Hb.
  set (start := fst (filler (fst (filler buffer dot)) dotdot)).
  assert (Hrun : readdir_blocks filler
                   (Z.to_nat (ceil_div_u32 (size dir_inode) BLOCK_SIZE)) 0
                   dir_inode start s
                 = Returns (feed filler (live_names (concat tables)) start) s).
  { rewrite (ceil_div_u32_blocks _ (Z.of_nat (length addrs))) by lia.
    rewrite Nat2Z.id.
    apply (readdir_blocks_tables _ _ addrs tables 0 rest);
      [lia | lia | lia | exact Hptr | exact Hall]. }
  destruct (write_inode_over (C.to_int i)
              (update_timestamp now dir_inode true false false) dir_inode s
              ltac:(unfold INODE_SIZE; lia) Hi Hread
              (wf_update_timestamp _ _ _ _ _ Hwf))
    as (s1 & Hwrite & Hback & _).
  assert (Hcall : forall s',
             (if snd (feed filler (live_names (concat tables)) start)
              then Returns (0, fst (feed filler (live_names (concat tables)) start)) s
              else Returns (0, fst (feed filler (live_names (concat tables)) start)) s1)
             = Returns (0, fst (feed filler (live_names (concat tables)) start)) s' ->
             fs_readdir filler now path buffer s
             = Returns (0, fst (feed filler (live_names (concat tables)) start)) s').
  { intros s' <-. unfold fs_readdir.
    rewrite (bind_returns _ _ _ _ _ Hfind). cbv beta iota.
    rewrite (bind_returns _ _ _ _ _ Hread). cbv beta iota.
    rewrite Hdir. cbn [negb]. cbv zeta. fold start.
    rewrite (bind_returns _ _ _ _ _ Hrun).
    destruct (snd (feed filler (live_names (concat tables)) start));
      [reflexivity |].
    rewrite (bind_returns _ _ _ _ _ Hwrite). reflexivity. }
  destruct (snd (feed filler (live_names (concat tables)) start)) eqn:Hfull.
  - exists s. split; [now apply Hcall | split; [reflexivity | discriminate]].
  - exists s1. split; [now apply Hcall | split; [discriminate | now intros _]].
Qed.

End Feed.

End Properties.

(** * The operations on the sample image *)

Lemma sample_lookup :
  find_inode_by_path (dev := lab) path_a sample_fs = Returns (Ok 1) sample_fs /\
  read_inode (dev := lab) 1 sample_fs = Returns (Ok sample_file) sample_fs /\
  read_inode (dev := lab) 0 sample_fs = Returns (Ok sample_root) sample_fs.
Proof. repeat split; vm_compute; reflexivity. Qed.

(** C1.  [fs_write] and [fs_read] are stubs: whatever the path, the buffer,
    the count and the offset, the write returns 0 and stores nothing, and
    the read that follows returns 0 bytes and leaves the caller's buffer as
    it was. *)
Theorem write_then_read_stubs (path buf out : list byte) (n off : Z) (s : fs) :
  fs_write path buf n off s = Returns 0 s /\
  (fs_write path buf n off ;;; fs_read path out n off) s = Returns (0, out) s.
Proof. split; reflexivity. Qed.

(** The file [/a] of the sample image is a regular file; writing [hello]
    at offset 0 and reading five bytes back returns no byte. *)
Lemma write_then_read_sample :
  find_inode_by_path (dev := lab) path_a sample_fs = Returns (Ok 1) sample_fs /\
  mode sample_file = REGMODE /\
  (fs_write path_a hello 5 0 ;;; fs_read path_a (zero_buffer 5) 5 0) sample_fs
  = Returns (0, zero_buffer 5) sample_fs.
Proof. repeat split; vm_compute; reflexivity. Qed.

(** C3.  For a path that resolves to an inode, [fs_getattr] fills the mode,
    the size, the three time stamps and [st_blksize = BLOCK_SIZE], and leaves
    the state as it was; but [st_blocks] is [(size + 511) / 512] alone,
    computed in 32 bits: the direct and indirect pointers of the inode do
    not enter it, so that an allocated index block is not counted. *)
Theorem getattr_blocks_from_size_alone {dev : Device}
  (uid gid : Z) (path : list byte) (s : fs) (inode_index : Z) (target : inode) :
  find_inode_by_path path s = Returns (Ok inode_index) s ->
  read_inode (C.to_int inode_index) s = Returns (Ok target) s ->
  fs_getattr uid gid path s
  = Returns (Ok (mkStat (mode target) 1 uid gid (size target)
                        (atime target) (mtime target) (ctime target)
                        BLOCK_SIZE
                        (C.to_u32 (size target + 511) / 512))) s.
Proof.
  intros Hfind Hread. unfold fs_getattr.
  rewrite (bind_returns _ _ _ _ _ Hfind). cbv beta iota.
  rewrite (bind_returns _ _ _ _ _ Hread). reflexivity.
Qed.

(** The file [/a] of the sample image has thirteen blocks of data and one
    index block, 112 units of 512 bytes in all; [fs_getattr] reports 104. *)
Lemma getattr_sample_file :
  indirect_block_pointer sample_file = [625; 0] /\
  size sample_file = 13 * BLOCK_SIZE (Device := lab) /\
  fs_getattr (dev := lab) 0 0 path_a sample_fs
  = Returns (Ok (mkStat REGMODE 1 0 0 53248 1000 1000 1000 4096 104)) sample_fs.
Proof.
  split; [reflexivity | split; [reflexivity |]].
  apply (getattr_blocks_from_size_alone (dev := lab) 0 0 path_a sample_fs 1 sample_file);
    vm_compute; reflexivity.
Defined.

(** C4.  [fs_statfs] is a stub: it reports zero in every field, whatever
    the state, and returns 0. *)
Theorem statfs_reports_zeros (path : list byte) (s : fs) :
  fs_statfs path s = Returns (Ok (mkStatvfs 0 0 0 0 0 0 0 0)) s.
Proof. reflexivity. Qed.

(** C6.  On the sample image, with a filler that is full after two names,
    [fs_readdir] of the root emits [.] and [..], stops at the first entry,
    returns 0 and leaves the state as it was: the access time of the root is
    still 1000, not the time 2000 of the call.  With room for every name it
    emits the two entries after [.] and [..] and stores the access time. *)
Theorem readdir_early_stop_keeps_atime :
  fs_readdir (dev := lab) (capped_filler 2) 2000 path_root [] sample_fs
  = Returns (0, [dot; dotdot]) sample_fs
  /\
  read_inode (dev := lab) 0 sample_fs = Returns (Ok sample_root) sample_fs
  /\
  atime sample_root = 1000
  /\
  value ((r <- fs_readdir (dev := lab) (capped_filler 10) 2000 path_root [] ;;
          root <- read_inode (dev := lab) 0 ;;
          ret (r, root)) sample_fs)
  = Some ((0, [dot; dotdot; name_a; long_name]),
          Ok (update_timestamp 2000 sample_root true false false)).
Proof.
  split; [vm_compute; reflexivity |].
  split; [vm_compute; reflexivity |].
  split; [reflexivity |].
  vm_compute. reflexivity.
Qed.

Lemma path_long_has_long_component : has_long_component path_long.
Proof.
  exists slash, long_name, long_name. split; [reflexivity |].
  split; [vm_compute; left; reflexivity | vm_compute; reflexivity].
Qed.

(** C7, as stated, fails: the 25-character name of the sample image is
    longer than [MAX_FILENAME_LEN], and the resolver finds its inode. *)
Lemma long_component_resolves :
  has_long_component path_long /\
  find_inode_by_path (dev := lab) path_long sample_fs = Returns (Ok 2) sample_fs /\
  ~ (exists s', find_inode_by_path (dev := lab) path_long sample_fs
                = Returns (Err (- ENAMETOOLONG)) s').
Proof.
  assert (Hrun : find_inode_by_path (dev := lab) path_long sample_fs
                 = Returns (Ok 2) sample_fs) by (vm_compute; reflexivity).
  split; [exact path_long_has_long_component | split; [exact Hrun |]].
  intros [s' H]. rewrite Hrun in H. discriminate.
Qed.

(** * The theorems at work on the sample image *)

Lemma lab_block_size_ok : INODE_SIZE <= BLOCK_SIZE (Device := lab) < 2 ^ 31.
Proof. vm_compute. split; congruence. Defined.



(** Mapping the blocks of the sample file: a direct block, and the block
    reached through the first index block. *)
Lemma block_mapper_sample :
  get_directory_block_addr (dev := lab) sample_file 3 sample_fs
  = Returns 616 sample_fs /\
  get_directory_block_addr (dev := lab) sample_file 12 sample_fs
  = Returns 626 sample_fs.
Proof.
  assert (Hbs : 4 <= BLOCK_SIZE (Device := lab) < 2 ^ 31)
    by (vm_compute; split; congruence).
  split.
  - assert (Hu : is_u32 3) by (vm_compute; split; congruence).
    destruct (block_mapper_read_only (dev := lab) sample_file 3 sample_fs Hbs Hu)
      as [Hdirect _].
    exact (Hdirect eq_refl).
  - assert (Hu : is_u32 12) by (vm_compute; split; congruence).
    destruct (block_mapper_read_only (dev := lab) sample_file 12 sample_fs Hbs Hu)
      as [_ Hind].
    destruct (Hind ltac:(vm_compute; congruence)) as (_ & _ & Hslot).
    specialize (Hslot eq_refl ltac:(vm_compute; congruence)).
    vm_compute in Hslot. destruct Hslot as (v & Hv & Hrun).
    injection Hv as <-. vm_compute. exact Hrun.
Defined.

Ltac solve_u32 := vm_compute; split; congruence.

Lemma wf_sample_file : wf_inode sample_file.
Proof.
  unfold wf_inode, sample_file.
  cbn [size atime mtime ctime mode direct_block_pointer indirect_block_pointer].
  do 5 (split; [solve_u32 |]).
  do 2 (split; [exact eq_refl |]).
  split; repeat (apply Forall_cons; [solve_u32 |]); apply Forall_nil.
Qed.

Lemma full_bitmap_all_set j :
  0 <= j < INODE_COUNT -> bitmap_bit full_bitmap j = true.
Proof.
  unfold INODE_COUNT. intros Hj. unfold bitmap_bit, get_byte, full_bitmap, len.
  rewrite repeat_length.
  assert (Hq : 0 <= j / 8 < 4096).
  { split; [apply Z.div_pos; lia | apply Z.div_lt_upper_bound; lia]. }
  destruct (Z.leb_spec 0 (j / 8)); [| lia].
  destruct (Z.ltb_spec (j / 8) (Z.of_nat 4096)); [| lia]. cbn [andb].
  rewrite nth_error_repeat by lia.
  pose proof (Z.mod_pos_bound j 8 ltac:(lia)) as Hm.
  set (k := j mod 8) in *. clearbody k. bit_index k; reflexivity.
Qed.

(** Allocating on the sample image, whose inodes 0 to 2 are in use, and on
    the image whose bitmap is full. *)
Lemma alloc_inode_sample :
  (exists s', alloc_inode (dev := lab) sample_fs = Returns 3 s') /\
  alloc_inode (dev := lab) full_fs = Returns (- ENOSPC) full_fs.
Proof.
  split.
  - destruct (alloc_inode_lowest_clear_bit (dev := lab) sample_fs
                (fit (dev := lab) [Byte.x07])) as [Hfound _].
    + vm_compute. reflexivity.
    + reflexivity.
    + vm_compute. congruence.
    + destruct Hfound as (i & s' & bitmap' & Hrun & Hi & Hclear & Hlow & _).
      { exists 3. split; [vm_compute; split; congruence | vm_compute; reflexivity]. }
      assert (Ei : i = 3).
      { destruct (Z.lt_trichotomy i 3) as [Hlt | [E | Hgt]]; [| exact E |].
        - assert (Hc : i = 0 \/ i = 1 \/ i = 2) by lia.
          destruct Hc as [-> | [-> | ->]]; vm_compute in Hclear; discriminate.
        - specialize (Hlow 3 ltac:(lia)). vm_compute in Hlow. discriminate. }
      subst i. exists s'. exact Hrun.
  - destruct (alloc_inode_lowest_clear_bit (dev := lab) full_fs
                (fit (dev := lab) full_bitmap)) as [_ Hfull].
    + vm_compute. reflexivity.
    + reflexivity.
    + vm_compute. congruence.
    + apply Hfull. intros j Hj.
      rewrite (fit_id (dev := lab)) by (vm_compute; reflexivity).
      now apply full_bitmap_all_set.
Defined.

(** Allocating and freeing right away on the sample image. *)
Lemma alloc_then_free_sample :
  exists i s1 s2,
    alloc_inode (dev := lab) sample_fs = Returns i s1 /\
    free_inode (dev := lab) i s1 = Returns tt s2 /\
    disk_read (dev := lab) (disk s2) INODE_BITMAP_BLOCK
    = disk_read (dev := lab) (disk sample_fs) INODE_BITMAP_BLOCK.
Proof.
  destruct (alloc_then_free_restores_bitmap (dev := lab) sample_fs
              (fit (dev := lab) [Byte.x07]))
    as (i & s1 & s2 & bitmap1 & Halloc & _ & _ & Hfree & _ & Hsame & _).
  - vm_compute. reflexivity.
  - reflexivity.
  - vm_compute. congruence.
  - exists 3. split; [vm_compute; split; congruence | vm_compute; reflexivity].
  - exists i, s1, s2. split; [exact Halloc | split; [exact Hfree | apply Hsame]].
Defined.


(** Resolving the path of the 25-character name. *)
Lemma long_component_sample :
  exists r,
    find_inode_by_path (dev := lab) path_long sample_fs = Returns r sample_fs /\
    resolver_status r /\ r <> Err (- ENAMETOOLONG).
Proof.
  destruct (long_component_never_name_too_long (dev := lab) path_long sample_fs
              path_long_has_long_component) as [_ Hdefined].
  apply Hdefined; [exact lab_block_size_ok |].
  intros token Hin. vm_compute in Hin. destruct Hin as [<- | []].
  vm_compute. reflexivity.
Defined.

(** * More of the operations on the sample images *)

(** Cutting [a/hello] gives back the two components. *)
Lemma tokens_join_sample : tokens (join [name_a; hello]) = [name_a; hello].
Proof.
  apply (tokens_join [name_a; hello]).
  repeat constructor; try discriminate;
    intros H; cbn in H; intuition discriminate.
Defined.

(** The relative path [a]. *)
Lemma relative_path_sample :
  find_inode_by_path (dev := lab) name_a sample_fs = Returns (Err (-1)) sample_fs.
Proof.
  apply (relative_path_refused (dev := lab) name_a sample_fs). discriminate.
Defined.

(** [/a] is a regular file: [/a/x] does not resolve. *)
Lemma regular_file_sample :
  find_inode_by_path (dev := lab) [slash; Byte.x61; slash; Byte.x78] sample_fs
  = Returns (Err (-1)) sample_fs.
Proof.
  apply (regular_file_has_no_children (dev := lab) [Byte.x61] [Byte.x78]
           sample_fs 1 sample_file).
  - exact (proj1 sample_lookup).
  - exact (proj1 (proj2 sample_lookup)).
  - reflexivity.
  - vm_compute. discriminate.
Defined.

Lemma sample_inode_2 :
  read_inode (dev := lab) 2 sample_fs = Returns (Ok sample_long) sample_fs.
Proof. vm_compute. reflexivity. Qed.

(** Storing inode 2 of the sample image leaves inode 1 as it was. *)
Lemma write_inode_keeps_sample :
  exists s',
    write_inode (dev := lab) 2 sample_file sample_fs = Returns 0 s' /\
    read_inode (dev := lab) 1 s' = Returns (Ok sample_file) s' /\
    sb s' = sb sample_fs.
Proof.
  destruct (write_inode_over (dev := lab) 2 sample_file sample_long sample_fs
              (proj1 lab_block_size_ok) ltac:(lia) sample_inode_2 wf_sample_file)
    as (s' & Hwrite & _).
  exists s'. split; [exact Hwrite |].
  apply (write_inode_keeps_other_inodes (dev := lab) 2 1 sample_file sample_fs s' 0
           (Ok sample_file)).
  - exact (proj1 lab_block_size_ok).
  - unfold INODE_COUNT. lia.
  - unfold INODE_COUNT. lia.
  - lia.
  - exact Hwrite.
  - exact (proj1 (proj2 sample_lookup)).
Defined.

Lemma sample_inode_last :
  read_inode (dev := lab) 32767 sample_fs = Returns (Ok zero_inode) sample_fs.
Proof. vm_compute. reflexivity. Qed.

(** The last inode of the sample image is stored in block 622, a block of
    the data area, which starts at block 612. *)
Lemma inode_table_overrun_sample :
  exists s' blk',
    write_inode (dev := lab) 32767 sample_file sample_fs = Returns 0 s' /\
    data_blocks_start (format_sb (dev := lab)) = 612 /\
    disk_read (dev := lab) (disk s') 622 = Some blk' /\
    bytes_at blk' (13 * INODE_SIZE) INODE_SIZE = Some (encode_inode sample_file).
Proof.
  destruct (write_inode_over (dev := lab) 32767 sample_file zero_inode sample_fs
              (proj1 lab_block_size_ok) ltac:(lia) sample_inode_last wf_sample_file)
    as (s' & Hwrite & _).
  destruct (inode_table_overruns_data_area (dev := lab) 32767 sample_file
              sample_fs s' eq_refl ltac:(unfold INODE_COUNT; lia) Hwrite)
    as (_ & Hstart & b & blk' & -> & _ & Hread & Hbytes & _).
  exists s', blk'. repeat split; assumption.
Defined.

(** Three allocations on a device of zeros give the inodes 0, 1 and 2. *)
Lemma alloc_inodes_sample :
  exists s', alloc_inodes (dev := lab) 3 blank_fs = Returns [0; 1; 2] s'.
Proof.
  destruct (alloc_inodes_in_sequence (dev := lab) 3 blank_fs (zero_buffer 4096) 0)
    as (s' & _ & Hrun & _).
  - vm_compute. reflexivity.
  - reflexivity.
  - vm_compute. congruence.
  - intros j Hj. rewrite bitmap_bit_zero_buffer. symmetry. apply Z.ltb_ge. lia.
  - lia.
  - unfold INODE_COUNT. lia.
  - exists s'. exact Hrun.
Defined.

(** Freeing inode 1 of the sample image, whose inodes 0 to 2 are in use. *)
Lemma free_inode_sample :
  exists s' bitmap',
    free_inode (dev := lab) 1 sample_fs = Returns tt s' /\
    disk_read (dev := lab) (disk s') INODE_BITMAP_BLOCK = Some bitmap' /\
    bitmap_bit bitmap' 0 = true /\ bitmap_bit bitmap' 1 = false /\
    bitmap_bit bitmap' 2 = true.
Proof.
  destruct (free_inode_clears_one_bit (dev := lab) 1 sample_fs
              (fit (dev := lab) [Byte.x07]))
    as (s' & bitmap' & Hrun & _ & Hread & Hbits & _).
  - vm_compute. reflexivity.
  - vm_compute. split; congruence.
  - exists s', bitmap'. rewrite !Hbits.
    repeat split; try assumption; vm_compute; reflexivity.
Defined.

(** Freeing inode 2 of the sample image and allocating again. *)
Lemma free_then_alloc_sample :
  exists s1 s2,
    free_inode (dev := lab) 2 sample_fs = Returns tt s1 /\
    alloc_inode (dev := lab) s1 = Returns 2 s2.
Proof.
  destruct (free_then_alloc_reuses (dev := lab) 2 sample_fs
              (fit (dev := lab) [Byte.x07]))
    as (s1 & s2 & _ & Hfree & Halloc & _).
  - vm_compute. reflexivity.
  - reflexivity.
  - vm_compute. congruence.
  - unfold INODE_COUNT. lia.
  - intros j Hj. assert (Hc : j = 0 \/ j = 1) by lia.
    destruct Hc as [-> | ->]; vm_compute; reflexivity.
  - exists s1, s2. split; assumption.
Defined.

(** Listing the root of the sample image with a filler that is never
    full. *)
Lemma readdir_stores_atime_sample :
  exists r s',
    fs_readdir (dev := lab) names_filler 2000 path_root [] sample_fs
    = Returns r s' /\
    fst r = 0 /\
    read_inode (dev := lab) 0 s'
    = Returns (Ok (update_timestamp 2000 sample_root true false false)) s'.
Proof.
  destruct (fs_readdir (dev := lab) names_filler 2000 path_root [] sample_fs)
    as [r s' |] eqn:E; [| vm_compute in E; discriminate].
  destruct (readdir_stores_atime (dev := lab) names_filler (fun _ _ => eq_refl)
              2000 path_root [] sample_fs s' 0 sample_root r)
    as (Hst & Hback & _).
  - exact (proj1 lab_block_size_ok).
  - vm_compute. reflexivity.
  - vm_compute. congruence.
  - exact (proj2 (proj2 sample_lookup)).
  - reflexivity.
  - exact E.
  - exists r, s'. repeat split; assumption.
Defined.

Lemma fresh_root :
  read_inode (dev := lab) 0 fresh_fs = Returns (Ok (root_inode 1000)) fresh_fs.
Proof. vm_compute. reflexivity. Qed.

(** The root directory right after a format is empty. *)
Lemma empty_directory_sample :
  find_entry_in_directory (dev := lab) (root_inode 1000) name_a fresh_fs
  = Returns (Err (-1)) fresh_fs /\
  find_inode_by_path (dev := lab) [slash; slash; Byte.x61] fresh_fs
  = Returns (Err (-1)) fresh_fs.
Proof.
  destruct (empty_directory (dev := lab) names_filler 2000 [] [] fresh_fs 0
              (root_inode 1000))
    as (Hlookup & Hpath & _).
  - exact lab_block_size_ok.
  - vm_compute. reflexivity.
  - vm_compute. congruence.
  - exact fresh_root.
  - reflexivity.
  - reflexivity.
  - split; [apply Hlookup |].
    apply (Hpath [Byte.x61]). vm_compute. discriminate.
Defined.

Lemma readdir_three_names :
  fs_readdir (dev := lab) (capped_filler 3) 2000 path_root [] sample_fs
  = Returns (0, [dot; dotdot; name_a]) sample_fs.
Proof. vm_compute. reflexivity. Qed.

(** The name [a], which the listing of the root of the sample image hands
    to the filler, is found by the lookup. *)
Lemma listed_names_sample :
  exists n, n <> 0 /\
            find_entry_in_directory (dev := lab) sample_root name_a sample_fs
            = Returns (Ok n) sample_fs.
Proof.
  destruct (listed_names_are_found (dev := lab) 3 2000 path_root name_a
              sample_fs sample_fs 0 sample_root (0, [dot; dotdot; name_a]))
    as [E | [E | H]].
  - exact lab_block_size_ok.
  - vm_compute. reflexivity.
  - exact (proj2 (proj2 sample_lookup)).
  - exact readdir_three_names.
  - cbn. tauto.
  - vm_compute. reflexivity.
  - discriminate E.
  - discriminate E.
  - exact H.
Defined.

(** A sequence of requests on the sample image leaves the superblock and
    the bitmaps as they were. *)
Lemma serve_sample :
  exists sts s',
    serve (dev := lab) sample_requests sample_fs = Returns sts s' /\
    length sts = 6%nat /\
    sb s' = sb sample_fs /\
    disk_read (dev := lab) (disk s') INODE_BITMAP_BLOCK
    = disk_read (dev := lab) (disk sample_fs) INODE_BITMAP_BLOCK.
Proof.
  destruct (serve (dev := lab) sample_requests sample_fs) as [sts s' |] eqn:E;
    [| vm_compute in E; discriminate].
  destruct (serve_keeps_metadata (dev := lab) sample_requests sample_fs s' sts
              eq_refl E) as (Hlen & Hsb & Hdisk).
  exists sts, s'. repeat split; try assumption.
  apply Hdisk. unfold INODE_BITMAP_BLOCK, INODE_TABLE_START_BLOCK. lia.
Defined.

(** [getattr] of [/a] on the sample image. *)
Lemma getattr_reads_only_sample :
  exists r, fs_getattr (dev := lab) 0 0 path_a sample_fs = Returns r sample_fs.
Proof.
  destruct (fs_getattr (dev := lab) 0 0 path_a sample_fs) as [r s' |] eqn:E;
    [| vm_compute in E; discriminate].
  destruct (getattr_reads_only (dev := lab) 0 0 path_a sample_fs s' r E)
    as [-> _].
  exists r. reflexivity.
Defined.

(** Formatting a device of four blocks. *)
Lemma fs_mount_tiny :
  exists s',
    fs_mount (dev := tiny) 1000 1 blank_fs = Returns 0 s' /\
    read_inode (dev := tiny) 0 s' = Returns (Err (-1)) s'.
Proof.
  destruct (fs_mount_ignores_failures (dev := tiny) 1000 1 blank_fs)
    as (s' & Hrun & _ & Hsmall).
  - discriminate.
  - vm_compute. split; congruence.
  - vm_compute. congruence.
  - exists s'. split; [exact Hrun |].
    apply Hsmall. vm_compute. congruence.
Defined.

Lemma sample_root_table :
  Forall2 (holds_table (dev := lab) sample_fs) [612] [sample_table].
Proof.
  repeat constructor; try (vm_compute; congruence);
    try (intros H; cbn in H; intuition discriminate).
Qed.

(** The lookup of [a] in the root of the sample image. *)
Lemma lookup_sample :
  find_entry_in_directory (dev := lab) sample_root name_a sample_fs
  = Returns (Ok 1) sample_fs.
Proof.
  apply (lookup_finds_first_live_entry (dev := lab) sample_root name_a
           [612] (repeat 0 11) [sample_table] sample_fs).
  - vm_compute. congruence.
  - reflexivity.
  - reflexivity.
  - vm_compute. congruence.
  - exact sample_root_table.
  - vm_compute. split; congruence.
  - vm_compute. congruence.
  - intros H. cbn in H. intuition discriminate.
Defined.

(** The listing of the root of the sample image with room for ten names. *)
Lemma readdir_lists_sample :
  exists s',
    fs_readdir (dev := lab) (capped_filler 10) 2000 path_root [] sample_fs
    = Returns (0, [dot; dotdot; name_a; long_name]) s' /\
    read_inode (dev := lab) 0 s'
    = Returns (Ok (update_timestamp 2000 sample_root true false false)) s'.
Proof.
  destruct (readdir_lists_live_names (dev := lab) (capped_filler 10) 2000
              path_root [] sample_fs 0 sample_root [612] (repeat 0 11)
              [sample_table])
    as (s' & Hrun & _ & Hstored).
  - exact lab_block_size_ok.
  - vm_compute. reflexivity.
  - vm_compute. congruence.
  - exact (proj2 (proj2 sample_lookup)).
  - reflexivity.
  - reflexivity.
  - exact sample_root_table.
  - vm_compute. split; congruence.
  - vm_compute. congruence.
  - exists s'. split; [exact Hrun | apply Hstored; reflexivity].
Defined.

(** Formatting the sample device at time 1000 and asking for [/] and
    [/a]. *)
Lemma format_sample :
  exists s',
    fs_mount (dev := lab) 1000 1 sample_fs = Returns 0 s' /\
    fs_getattr (dev := lab) 0 0 path_root s'
    = Returns (Ok (mkStat DIRMODE 1 0 0 0 1000 1000 1000 4096 0)) s' /\
    fs_getattr (dev := lab) 0 0 path_a s' = Returns (Err (- ENOENT)) s'.
Proof.
  destruct (format_gives_empty_root (dev := lab) 1000 1 0 0 sample_fs)
    as (s' & Hrun & _ & Hroot & Hpaths).
  - discriminate.
  - exact lab_block_size_ok.
  - vm_compute. reflexivity.
  - exists s'. split; [exact Hrun | split; [exact Hroot |]].
    apply (Hpaths path_a). vm_compute. discriminate.
Defined.
